(** * lec-sim: tournament model, bracket state machine and Monte Carlo engine

    A shallow embedding of the Python package [lec_sim] and the properties
    its specification states about it.

    Conventions of the embedding
    - Python [int] is [Z]; [float] probabilities are exact rationals [Q];
      [str] is [string]; a [UUID] is the natural number it encodes.
    - A Python [dict] whose iteration order is observable (standings, bracket
      matches and results) is an insertion-ordered association list
      ([odict]); a [dict] that is only looked up or summed over is a [gmap].
    - A method that mutates [self] takes the object and returns the updated
      one; a method that may raise returns a [res] next to the state the
      exception leaves behind.
    - [random.Random], [uuid4] and the iteration order of a [set] of teams are
      the interpreter's business: they are the fields of [PyRuntime]. *)

From Stdlib Require Import QArith.
From stdpp Require Import gmap strings list fin_maps sorting.

Local Open Scope string_scope.
Local Open Scope list_scope.
Local Open Scope Z_scope.

(* ================================================================== *)
(** * Python runtime *)
(* ================================================================== *)

Abbreviation UUID := N (only parsing).

Inductive exn : Type :=
  | ValueError (msg : string).

Inductive res (A : Type) : Type :=
  | Ok (a : A)
  | Raise (e : exn).
Arguments Ok {A} a.
Arguments Raise {A} e.

(** ** Insertion-ordered dictionaries *)

Section odict.
Context {K V : Type} `{EqDecision K}.

Definition odict : Type := list (K * V).

(** [d.get(k)] *)
Fixpoint od_get (k : K) (d : odict) : option V :=
  match d with
  | [] => None
  | (k', v) :: d' => if decide (k = k') then Some v else od_get k d'
  end.

(** [k in d] *)
Definition od_mem (k : K) (d : odict) : bool :=
  match od_get k d with Some _ => true | None => false end.

(** [d[k] = v]: an existing key keeps its place, a new one goes last. *)
Fixpoint od_set (k : K) (v : V) (d : odict) : odict :=
  match d with
  | [] => [(k, v)]
  | (k', v') :: d' =>
      if decide (k = k') then (k', v) :: d' else (k', v') :: od_set k v d'
  end.

(** In-place mutation of the object stored under [k]. *)
Fixpoint od_alter (f : V → V) (k : K) (d : odict) : odict :=
  match d with
  | [] => []
  | (k', v') :: d' =>
      if decide (k = k') then (k', f v') :: d' else (k', v') :: od_alter f k d'
  end.

Definition od_keys (d : odict) : list K := d.*1.
Definition od_values (d : odict) : list V := d.*2.
End odict.
Arguments odict : clear implicits.

(** ** [sorted] with a pair of integers as key *)

(** [a < b] on tuples of two integers *)
Definition pair_ltb (a b : Z * Z) : bool :=
  bool_decide (a.1 < b.1) || bool_decide (a.1 = b.1) && bool_decide (a.2 < b.2).

(** [sorted(xs, key=key)]: ascending and stable. *)
Fixpoint insert_asc {A} (key : A → Z * Z) (x : A) (l : list A) : list A :=
  match l with
  | [] => [x]
  | y :: l' => if pair_ltb (key y) (key x) then y :: insert_asc key x l' else x :: l
  end.

Definition sorted_asc {A} (key : A → Z * Z) (l : list A) : list A :=
  foldr (insert_asc key) [] l.

(* ================================================================== *)
(** * models/team.py *)
(* ================================================================== *)

Module Team.
Record t : Type := mk {
  name : string;
  short_name : string;
  id : UUID;
  is_erl : bool;
}.

(** [__eq__]: identity is the id, never the name. *)
Definition eqb (a b : t) : bool := bool_decide (id a = id b).

(** [team == x] where [x] may be [None]. *)
Definition eqb_opt (a : t) (b : option t) : bool :=
  match b with Some b => eqb a b | None => false end.

(** [__repr__], which [str(team)] falls back to. *)
Definition repr (x : t) : string :=
  String.append "Team(" (String.append (short_name x) ")").
End Team.

(** A [set[Team]]: hashing and equality go through the id, so a set holds at
    most one team per id.  The list keeps the elements in insertion order;
    iteration goes through [set_iter] of the runtime. *)
Definition team_set : Type := list Team.t.

Definition team_set_mem (x : Team.t) (s : team_set) : bool :=
  existsb (Team.eqb x) s.

Definition team_set_add (x : Team.t) (s : team_set) : team_set :=
  if team_set_mem x s then s else s ++ [x].

(* ================================================================== *)
(** * models/match.py *)
(* ================================================================== *)

Inductive MatchFormat : Type := BO1 | BO3 | BO5.

Definition MatchFormat_value (f : MatchFormat) : Z :=
  match f with BO1 => 1 | BO3 => 3 | BO5 => 5 end.

Definition games_to_win (f : MatchFormat) : Z :=
  (MatchFormat_value f + 1) `div` 2.

Module MatchResult.
Record t : Type := mk {
  winner : Team.t;
  loser : Team.t;
  winner_score : Z;
  loser_score : Z;
}.

Definition is_sweep (r : t) : bool := bool_decide (loser_score r = 0).
End MatchResult.

Module Match.
Record t : Type := mk {
  team_a : Team.t;
  team_b : Team.t;
  format : MatchFormat;
  stage : string;
  week : option Z;
  match_day : option Z;
  result : option MatchResult.t;
  id : UUID;
}.

Definition is_completed (m : t) : bool :=
  match result m with Some _ => true | None => false end.

Definition set_result (m : t) (r : MatchResult.t) : t :=
  mk (team_a m) (team_b m) (format m) (stage m) (week m) (match_day m)
     (Some r) (id m).

Definition get_opponent (m : t) (team : Team.t) : res Team.t :=
  if Team.eqb team (team_a m) then Ok (team_b m)
  else if Team.eqb team (team_b m) then Ok (team_a m)
  else Raise (ValueError (String.append (Team.repr team) " is not in this match")).
End Match.

(* ================================================================== *)
(** * The interpreter *)
(* ================================================================== *)

(** The interpreter services the package relies on. *)
Class PyRuntime : Type := {
  (** state of a [random.Random] object *)
  rng_state : Type;
  (** [random.Random(seed)] *)
  Random : Z → rng_state;
  (** [rng.random()], a float in [0, 1) *)
  rng_random : rng_state → Q * rng_state;
  (** [rng.randint(lo, hi)] *)
  rng_randint : Z → Z → rng_state → Z * rng_state;
  (** [rng.shuffle(xs)] *)
  rng_shuffle : ∀ A : Type, list A → rng_state → list A * rng_state;
  (** operating-system entropy: what [uuid4()] and an unseeded
      [random.Random()] draw from *)
  entropy : Type;
  uuid4 : entropy → UUID * entropy;
  os_seed : entropy → Z * entropy;
  (** iteration order of a [set[Team]] whose elements were inserted in the
      given order *)
  set_iter : team_set → list Team.t;

  rng_random_unit : ∀ s, (0 <= (rng_random s).1)%Q ∧ ((rng_random s).1 < 1)%Q;
  rng_shuffle_perm : ∀ A (l : list A) s, (rng_shuffle A l s).1 ≡ₚ l;
  set_iter_perm : ∀ s, set_iter s ≡ₚ s;
}.
Arguments rng_shuffle {_ _} l s.

(* ================================================================== *)
(** * models/standing.py *)
(* ================================================================== *)

Module TeamStanding.
Record t : Type := mk {
  team : Team.t;
  wins : Z;
  losses : Z;
  (** opponent id -> (wins against them, losses against them) *)
  head_to_head : gmap N (Z * Z);
}.

Definition games_played (s : t) : Z := wins s + losses s.

Definition get_h2h_record (s : t) (opponent_id : UUID) : Z * Z :=
  default (0, 0) (head_to_head s !! opponent_id).

Definition record_win (opponent_id : UUID) (s : t) : t :=
  let '(w, l) := get_h2h_record s opponent_id in
  mk (team s) (wins s + 1) (losses s)
     (<[opponent_id := (w + 1, l)]> (head_to_head s)).

Definition record_loss (opponent_id : UUID) (s : t) : t :=
  let '(w, l) := get_h2h_record s opponent_id in
  mk (team s) (wins s) (losses s + 1)
     (<[opponent_id := (w, l + 1)]> (head_to_head s)).

(** [copy]: a new object with the same team and counters and a new
    dictionary with the same entries. *)
Definition copy (s : t) : t :=
  mk (team s) (wins s) (losses s) (head_to_head s).

(** Componentwise sum of the head-to-head entries. *)
Definition h2h_total (s : t) : Z * Z :=
  map_fold (λ _ (r acc : Z * Z), (acc.1 + r.1, acc.2 + r.2)) (0, 0)
           (head_to_head s).
End TeamStanding.

Module Standings.
(** [standings: dict[UUID, TeamStanding]] *)
Definition t : Type := odict N TeamStanding.t.

Definition empty : t := [].

Definition get (self : t) (team_id : UUID) : option TeamStanding.t :=
  od_get team_id self.

Definition add_team (self : t) (team : Team.t) : t :=
  od_set (Team.id team) (TeamStanding.mk team 0 0 ∅) self.

(** The two standings are fetched first, the check comes second, the two
    mutations last; they act on the objects held by the dictionary, so
    the second one sees the first when winner and loser are the same
    team. *)
Definition record_match_result (self : t) (winner loser : Team.t)
  : res unit * t :=
  match od_get (Team.id winner) self, od_get (Team.id loser) self with
  | Some _, Some _ =>
      let self1 :=
        od_alter (TeamStanding.record_win (Team.id loser)) (Team.id winner) self in
      let self2 :=
        od_alter (TeamStanding.record_loss (Team.id winner)) (Team.id loser) self1 in
      (Ok (), self2)
  | _, _ => (Raise (ValueError "Both teams must be in standings"), self)
  end.

Definition copy (self : t) : t :=
  foldl (λ new kv, od_set kv.1 (TeamStanding.copy kv.2) new) empty self.

Definition len (self : t) : nat := length self.

Definition get_by_team (self : t) (team : Team.t) : option TeamStanding.t :=
  od_get (Team.id team) self.

(** [sorted(.., key=lambda s: (-s.wins, s.losses))] *)
Definition get_ordered (self : t) : list TeamStanding.t :=
  sorted_asc (λ s, (- TeamStanding.wins s, TeamStanding.losses s)) (od_values self).

Definition get_teams_with_wins (self : t) (wins : Z) : list TeamStanding.t :=
  filter (λ s, TeamStanding.wins s = wins) (od_values self).
End Standings.

(* ================================================================== *)
(** * simulation/win_rates.py *)
(* ================================================================== *)

Module WinRateMatrix.
Record t : Type := mk {
  matrix : gmap N (gmap N Q);
  default_rate : Q;
}.

Definition get_win_probability (self : t) (team_a_id team_b_id : UUID) : Q :=
  match matrix self !! team_a_id with
  | Some row =>
      match row !! team_b_id with
      | Some p => p
      | None => default_rate self
      end
  | None => default_rate self
  end.

(** [self.matrix[a][b] = p]: the row object stored under [a] is mutated. *)
Definition set_entry (a b : UUID) (p : Q) (m : gmap N (gmap N Q))
  : gmap N (gmap N Q) :=
  <[a := <[b := p]> (default ∅ (m !! a))]> m.

Definition ensure_row (a : UUID) (m : gmap N (gmap N Q)) : gmap N (gmap N Q) :=
  match m !! a with Some _ => m | None => <[a := ∅]> m end.

Definition set_win_probability (self : t) (team_a_id team_b_id : UUID) (prob : Q)
  : res unit * t :=
  if negb (Qle_bool 0 prob && Qle_bool prob 1) then
    (Raise (ValueError "Probability must be between 0 and 1"), self)
  else
    let m1 := ensure_row team_a_id (matrix self) in
    let m2 := ensure_row team_b_id m1 in
    let m3 := set_entry team_a_id team_b_id prob m2 in
    let m4 := set_entry team_b_id team_a_id (1 - prob)%Q m3 in
    (Ok (), mk m4 (default_rate self)).

Definition uniform (rate : Q) : t := mk ∅ rate.
End WinRateMatrix.

(* ================================================================== *)
(** * Built-ins: [sum], [sorted] *)
(* ================================================================== *)

Definition sum_Z (l : list Z) : Z := foldr Z.add 0 l.

(** [sorted(xs, key=key, reverse=True)]: descending and stable, elements
    with equal keys keep their original order. *)
Fixpoint insert_desc {A} (key : A → Z) (x : A) (l : list A) : list A :=
  match l with
  | [] => [x]
  | y :: l' => if bool_decide (key x < key y) then y :: insert_desc key x l' else x :: l
  end.

Definition sorted_desc {A} (key : A → Z) (l : list A) : list A :=
  foldr (insert_desc key) [] l.

(** [len(set(xs)) == len(xs)] *)
Definition all_distinct (xs : list Z) : bool :=
  bool_decide (size (list_to_set xs : gset Z) = length xs).

(* ================================================================== *)
(** * tiebreaker/resolver.py *)
(* ================================================================== *)

Inductive TiebreakerMethod : Type :=
  | HEAD_TO_HEAD | STRENGTH_OF_VICTORY | COINFLIP.

Module TiebreakerResult.
Record t : Type := mk {
  resolved : bool;
  method_used : option TiebreakerMethod;
  ordered_teams : list TeamStanding.t;
  notes : string;
}.
End TiebreakerResult.

Module HeadToHeadTiebreaker.
Definition _resolve_two_way (t1 t2 : TeamStanding.t) : TiebreakerResult.t :=
  let h2h_1 := TeamStanding.get_h2h_record t1 (Team.id (TeamStanding.team t2)) in
  let h2h_2 := TeamStanding.get_h2h_record t2 (Team.id (TeamStanding.team t1)) in
  if bool_decide (h2h_1.1 > h2h_2.1) then
    TiebreakerResult.mk true (Some HEAD_TO_HEAD) [t1; t2] "H2H wins"
  else if bool_decide (h2h_2.1 > h2h_1.1) then
    TiebreakerResult.mk true (Some HEAD_TO_HEAD) [t2; t1] "H2H wins"
  else
    TiebreakerResult.mk false None [t1; t2] "H2H tied".

(** (wins, losses, diff) of [t] against the other ids of the group. *)
Definition internal_record (team_ids : gset N) (t : TeamStanding.t) : Z * Z * Z :=
  let others :=
    filter (λ other_id, other_id ≠ Team.id (TeamStanding.team t))
           (elements team_ids) in
  let wins := sum_Z ((λ o, (TeamStanding.get_h2h_record t o).1) <$> others) in
  let losses := sum_Z ((λ o, (TeamStanding.get_h2h_record t o).2) <$> others) in
  (wins, losses, wins - losses).

(** [internal_records], keyed by the team id (the source keys it by the
    id's string form). *)
Definition internal_records (teams : list TeamStanding.t) : gmap N (Z * Z * Z) :=
  let team_ids : gset N :=
    list_to_set ((λ t, Team.id (TeamStanding.team t)) <$> teams) in
  foldl (λ recs t, <[Team.id (TeamStanding.team t) := internal_record team_ids t]> recs)
        ∅ teams.

(** [internal_records[str(t.team.id)][2]]; every team of the group was
    entered by the loop above, so the lookup cannot miss. *)
Definition diff_of (recs : gmap N (Z * Z * Z)) (t : TeamStanding.t) : Z :=
  (default (0, 0, 0) (recs !! Team.id (TeamStanding.team t))).2.

Definition _resolve_multi_way (teams : list TeamStanding.t) : TiebreakerResult.t :=
  let recs := internal_records teams in
  let sorted_teams := sorted_desc (diff_of recs) teams in
  let diffs := diff_of recs <$> sorted_teams in
  if all_distinct diffs then
    TiebreakerResult.mk true (Some HEAD_TO_HEAD) sorted_teams "Multi-way H2H"
  else
    TiebreakerResult.mk false None sorted_teams "Multi-way H2H partially resolved".

Definition resolve (tied_teams : list TeamStanding.t) (all_standings : Standings.t)
  : TiebreakerResult.t :=
  match tied_teams with
  | [t1; t2] => _resolve_two_way t1 t2
  | _ => _resolve_multi_way tied_teams
  end.
End HeadToHeadTiebreaker.

Module StrengthOfVictoryTiebreaker.
Definition sov (all_standings : Standings.t) (team : TeamStanding.t) : Z :=
  sum_Z ((λ kv : N * (Z * Z),
            let '(opp_id, (wins_vs, _)) := kv in
            if bool_decide (wins_vs > 0) then
              match Standings.get all_standings opp_id with
              | Some opp_standing => TeamStanding.wins opp_standing * wins_vs
              | None => 0
              end
            else 0)
         <$> map_to_list (TeamStanding.head_to_head team)).

Definition sov_scores (tied_teams : list TeamStanding.t) (all_standings : Standings.t)
  : gmap N Z :=
  foldl (λ scores t, <[Team.id (TeamStanding.team t) := sov all_standings t]> scores)
        ∅ tied_teams.

Definition score_of (scores : gmap N Z) (t : TeamStanding.t) : Z :=
  default 0 (scores !! Team.id (TeamStanding.team t)).

Definition resolve (tied_teams : list TeamStanding.t) (all_standings : Standings.t)
  : TiebreakerResult.t :=
  let scores := sov_scores tied_teams all_standings in
  let sorted_teams := sorted_desc (score_of scores) tied_teams in
  if all_distinct (score_of scores <$> sorted_teams) then
    TiebreakerResult.mk true (Some STRENGTH_OF_VICTORY) sorted_teams "SoV"
  else
    TiebreakerResult.mk false None sorted_teams "SoV tied".
End StrengthOfVictoryTiebreaker.

Module CoinflipTiebreaker.
(** The rule keeps a reference to the caller's generator: the shuffle
    advances it. *)
Definition resolve `{PyRuntime} (tied_teams : list TeamStanding.t)
    (all_standings : Standings.t) (rng : rng_state)
  : TiebreakerResult.t * rng_state :=
  let sh := rng_shuffle tied_teams rng in
  (TiebreakerResult.mk true (Some COINFLIP) sh.1 "Random tiebreaker", sh.2).
End CoinflipTiebreaker.

(** The three subclasses of [TiebreakerRule]. *)
Inductive TiebreakerRule : Type :=
  | HeadToHead | StrengthOfVictory | Coinflip.

Definition TiebreakerRule_resolve `{PyRuntime} (rule : TiebreakerRule)
    (tied_teams : list TeamStanding.t) (all_standings : Standings.t)
    (rng : rng_state) : TiebreakerResult.t * rng_state :=
  match rule with
  | HeadToHead => (HeadToHeadTiebreaker.resolve tied_teams all_standings, rng)
  | StrengthOfVictory =>
      (StrengthOfVictoryTiebreaker.resolve tied_teams all_standings, rng)
  | Coinflip => CoinflipTiebreaker.resolve tied_teams all_standings rng
  end.

Module TiebreakerChain.
(** [rules or [H2H, SoV, Coinflip]]: an empty list is falsy. *)
Definition init (rules : option (list TiebreakerRule)) : list TiebreakerRule :=
  match rules with
  | Some (r :: rs) => r :: rs
  | _ => [HeadToHead; StrengthOfVictory; Coinflip]
  end.

(** The [for rule in self.rules] loop and the statement after it. *)
Fixpoint apply_rules `{PyRuntime} (rules : list TiebreakerRule)
    (current_teams : list TeamStanding.t) (all_standings : Standings.t)
    (rng : rng_state) : TiebreakerResult.t * rng_state :=
  match rules with
  | [] => (TiebreakerResult.mk true (Some COINFLIP) current_teams EmptyString, rng)
  | rule :: rules' =>
      let r := TiebreakerRule_resolve rule current_teams all_standings rng in
      if TiebreakerResult.resolved r.1 then r
      else apply_rules rules' (TiebreakerResult.ordered_teams r.1) all_standings r.2
  end.

Definition resolve `{PyRuntime} (rules : list TiebreakerRule)
    (tied_teams : list TeamStanding.t) (all_standings : Standings.t)
    (rng : rng_state) : TiebreakerResult.t * rng_state :=
  if bool_decide (length tied_teams ≤ 1)%nat then
    (TiebreakerResult.mk true None tied_teams "No tie", rng)
  else apply_rules rules tied_teams all_standings rng.
End TiebreakerChain.

(* ================================================================== *)
(** * tournament/round_robin.py *)
(* ================================================================== *)

(** [itertools.combinations(xs, 2)] *)
Fixpoint combinations2 {A} (l : list A) : list (A * A) :=
  match l with
  | [] => []
  | x :: l' => (pair x <$> l') ++ combinations2 l'
  end.

(** [Match(team_a=.., team_b=.., format=.., stage=..)]: the other fields take
    their defaults, the id a fresh [uuid4()]. *)
Definition new_match `{PyRuntime} (team_a team_b : Team.t) (format : MatchFormat)
    (stage : string) (e : entropy) : Match.t * entropy :=
  (Match.mk team_a team_b format stage None None None (uuid4 e).1, (uuid4 e).2).

Fixpoint schedule_pairs `{PyRuntime} (pairs : list (Team.t * Team.t))
    (format : MatchFormat) (e : entropy) : list Match.t * entropy :=
  match pairs with
  | [] => ([], e)
  | (team_a, team_b) :: pairs' =>
      let m := new_match team_a team_b format "round_robin" e in
      let rest := schedule_pairs pairs' format m.2 in
      (m.1 :: rest.1, rest.2)
  end.

Definition generate_round_robin_schedule `{PyRuntime} (teams : list Team.t)
    (format : MatchFormat) (e : entropy) : list Match.t * entropy :=
  schedule_pairs (combinations2 teams) format e.

Definition get_remaining_matches (matches : list Match.t) : list Match.t :=
  filter (λ m, Match.is_completed m = false) matches.

Definition get_completed_matches (matches : list Match.t) : list Match.t :=
  filter (λ m, Match.is_completed m = true) matches.

Definition get_matches_for_team (matches : list Match.t) (team : Team.t)
  : list Match.t :=
  filter (λ m, Team.eqb (Match.team_a m) team || Team.eqb (Match.team_b m) team = true)
         matches.

Definition iter_matchups (teams : list Team.t) : list (Team.t * Team.t) :=
  combinations2 teams.

(* ================================================================== *)
(** * tournament/playoffs.py *)
(* ================================================================== *)

Inductive BracketPosition : Type :=
  | UPPER_QF_1 | UPPER_QF_2 | UPPER_QF_3 | UPPER_QF_4
  | UPPER_SF_1 | UPPER_SF_2
  | UPPER_FINAL
  | LOWER_R1_1 | LOWER_R1_2
  | LOWER_R2_1 | LOWER_R2_2
  | LOWER_SF
  | LOWER_FINAL
  | GRAND_FINAL.

#[global] Instance BracketPosition_eq_dec : EqDecision BracketPosition.
Proof. solve_decision. Defined.

(** [position.name.lower()] *)
Definition BracketPosition_name_lower (p : BracketPosition) : string :=
  match p with
  | UPPER_QF_1 => "upper_qf_1" | UPPER_QF_2 => "upper_qf_2"
  | UPPER_QF_3 => "upper_qf_3" | UPPER_QF_4 => "upper_qf_4"
  | UPPER_SF_1 => "upper_sf_1" | UPPER_SF_2 => "upper_sf_2"
  | UPPER_FINAL => "upper_final"
  | LOWER_R1_1 => "lower_r1_1" | LOWER_R1_2 => "lower_r1_2"
  | LOWER_R2_1 => "lower_r2_1" | LOWER_R2_2 => "lower_r2_2"
  | LOWER_SF => "lower_sf"
  | LOWER_FINAL => "lower_final"
  | GRAND_FINAL => "grand_final"
  end.

Definition all_positions : list BracketPosition :=
  [UPPER_QF_1; UPPER_QF_2; UPPER_QF_3; UPPER_QF_4; UPPER_SF_1; UPPER_SF_2;
   UPPER_FINAL; LOWER_R1_1; LOWER_R1_2; LOWER_R2_1; LOWER_R2_2; LOWER_SF;
   LOWER_FINAL; GRAND_FINAL].

Module PlayoffBracket.
Record t : Type := mk {
  teams : list Team.t;
  matches : odict BracketPosition Match.t;
  results : odict BracketPosition MatchResult.t;
  eliminated : team_set;
  champion : option Team.t;
  runner_up : option Team.t;
  third_place : option Team.t;
  fourth_place : option Team.t;
}.

(** [PlayoffBracket()] *)
Definition new : t := mk [] [] [] [] None None None None.

Definition set_teams (self : t) (x : list Team.t) : t :=
  mk x (matches self) (results self) (eliminated self) (champion self)
     (runner_up self) (third_place self) (fourth_place self).
Definition set_matches (self : t) (x : odict BracketPosition Match.t) : t :=
  mk (teams self) x (results self) (eliminated self) (champion self)
     (runner_up self) (third_place self) (fourth_place self).
Definition set_results (self : t) (x : odict BracketPosition MatchResult.t) : t :=
  mk (teams self) (matches self) x (eliminated self) (champion self)
     (runner_up self) (third_place self) (fourth_place self).
Definition set_eliminated (self : t) (x : team_set) : t :=
  mk (teams self) (matches self) (results self) x (champion self)
     (runner_up self) (third_place self) (fourth_place self).
Definition set_champion (self : t) (x : option Team.t) : t :=
  mk (teams self) (matches self) (results self) (eliminated self) x
     (runner_up self) (third_place self) (fourth_place self).
Definition set_runner_up (self : t) (x : option Team.t) : t :=
  mk (teams self) (matches self) (results self) (eliminated self)
     (champion self) x (third_place self) (fourth_place self).
Definition set_third_place (self : t) (x : option Team.t) : t :=
  mk (teams self) (matches self) (results self) (eliminated self)
     (champion self) (runner_up self) x (fourth_place self).
Definition set_fourth_place (self : t) (x : option Team.t) : t :=
  mk (teams self) (matches self) (results self) (eliminated self)
     (champion self) (runner_up self) (third_place self) x.

(** [self.eliminated.add(team)] *)
Definition eliminate (self : t) (team : Team.t) : t :=
  set_eliminated self (team_set_add team (eliminated self)).

(** [self.matches[position] = Match(team_a, team_b, format, stage)] *)
Definition put_new_match `{PyRuntime} (self : t) (position : BracketPosition)
    (team_a team_b : Team.t) (format : MatchFormat) (stage : string)
    (e : entropy) : t * entropy :=
  let m := new_match team_a team_b format stage e in
  (set_matches self (od_set position m.1 (matches self)), m.2).

Definition seed_teams `{PyRuntime} (self : t) (seeded_teams : list Team.t)
    (e : entropy) : res unit * t * entropy :=
  match seeded_teams with
  | [s1; s2; s3; s4; s5; s6; s7; s8] =>
      let self0 := set_teams self seeded_teams in
      let st1 := put_new_match self0 UPPER_QF_1 s1 s8 BO3 "upper_qf" e in
      let st2 := put_new_match st1.1 UPPER_QF_2 s4 s5 BO3 "upper_qf" st1.2 in
      let st3 := put_new_match st2.1 UPPER_QF_3 s2 s7 BO3 "upper_qf" st2.2 in
      let st4 := put_new_match st3.1 UPPER_QF_4 s3 s6 BO3 "upper_qf" st3.2 in
      (Ok (), st4.1, st4.2)
  | _ => (Raise (ValueError "Exactly 8 teams required for playoffs"), self, e)
  end.

Definition _set_or_create_match `{PyRuntime} (self : t)
    (position : BracketPosition) (team : Team.t) (is_team_a : bool)
    (fmt : MatchFormat) (e : entropy) : t * entropy :=
  match od_get position (matches self) with
  | None =>
      (* both branches of the source build the same placeholder *)
      put_new_match self position team team fmt
                    (BracketPosition_name_lower position) e
  | Some m =>
      let m' :=
        if is_team_a then
          Match.mk team (Match.team_b m) (Match.format m) (Match.stage m)
                   None None None (Match.id m)
        else
          Match.mk (Match.team_a m) team (Match.format m) (Match.stage m)
                   None None None (Match.id m) in
      (set_matches self (od_set position m' (matches self)), e)
  end.

(** Winner and loser are routed one after the other. *)
Definition route `{PyRuntime} (self : t)
    (wpos : BracketPosition) (winner : Team.t) (w_is_a : bool) (wfmt : MatchFormat)
    (lpos : BracketPosition) (loser : Team.t) (l_is_a : bool) (lfmt : MatchFormat)
    (e : entropy) : t * entropy :=
  let st := _set_or_create_match self wpos winner w_is_a wfmt e in
  _set_or_create_match st.1 lpos loser l_is_a lfmt st.2.

(** The winner is routed, then the loser is eliminated. *)
Definition advance `{PyRuntime} (self : t)
    (wpos : BracketPosition) (winner : Team.t) (w_is_a : bool) (wfmt : MatchFormat)
    (loser : Team.t) (e : entropy) : t * entropy :=
  let st := _set_or_create_match self wpos winner w_is_a wfmt e in
  (eliminate st.1 loser, st.2).

Definition _update_bracket_progression `{PyRuntime} (self : t)
    (position : BracketPosition) (result : MatchResult.t) (e : entropy)
  : t * entropy :=
  let winner := MatchResult.winner result in
  let loser := MatchResult.loser result in
  match position with
  | UPPER_QF_1 =>
      route self UPPER_SF_1 winner true BO3 LOWER_R1_1 loser true BO3 e
  | UPPER_QF_2 =>
      route self UPPER_SF_1 winner false BO3 LOWER_R1_1 loser false BO3 e
  | UPPER_QF_3 =>
      route self UPPER_SF_2 winner true BO3 LOWER_R1_2 loser true BO3 e
  | UPPER_QF_4 =>
      route self UPPER_SF_2 winner false BO3 LOWER_R1_2 loser false BO3 e
  | UPPER_SF_1 =>
      route self UPPER_FINAL winner true BO5 LOWER_R2_1 loser false BO3 e
  | UPPER_SF_2 =>
      route self UPPER_FINAL winner false BO5 LOWER_R2_2 loser false BO3 e
  | UPPER_FINAL =>
      route self GRAND_FINAL winner true BO5 LOWER_FINAL loser false BO5 e
  | LOWER_R1_1 => advance self LOWER_R2_1 winner true BO3 loser e
  | LOWER_R1_2 => advance self LOWER_R2_2 winner true BO3 loser e
  | LOWER_R2_1 => advance self LOWER_SF winner true BO5 loser e
  | LOWER_R2_2 => advance self LOWER_SF winner false BO5 loser e
  | LOWER_SF =>
      let st := _set_or_create_match self LOWER_FINAL winner true BO5 e in
      (eliminate (set_fourth_place st.1 (Some loser)) loser, st.2)
  | LOWER_FINAL =>
      let st := _set_or_create_match self GRAND_FINAL winner false BO5 e in
      (eliminate (set_third_place st.1 (Some loser)) loser, st.2)
  | GRAND_FINAL =>
      (eliminate (set_runner_up (set_champion self (Some winner)) (Some loser)) loser,
       e)
  end.

Definition record_result `{PyRuntime} (self : t) (position : BracketPosition)
    (result : MatchResult.t) (e : entropy) : t * entropy :=
  _update_bracket_progression
    (set_results self (od_set position result (results self))) position result e.

Definition get_next_matches (self : t) : list (BracketPosition * Match.t) :=
  filter (λ pm : BracketPosition * Match.t,
            od_mem pm.1 (results self) = false
            ∧ Team.eqb (Match.team_a pm.2) (Match.team_b pm.2) = false)
         (matches self).

Definition is_complete (self : t) : bool :=
  match champion self with Some _ => true | None => false end.

Definition get_placement (self : t) (team : Team.t) : option Z :=
  if Team.eqb_opt team (champion self) then Some 1
  else if Team.eqb_opt team (runner_up self) then Some 2
  else if Team.eqb_opt team (third_place self) then Some 3
  else if Team.eqb_opt team (fourth_place self) then Some 4
  else if team_set_mem team (eliminated self) then Some 5
  else None.
End PlayoffBracket.

(* ================================================================== *)
(** * tournament/tournament.py *)
(* ================================================================== *)

(** [by_wins[k].append(s)] on a [defaultdict(list)] *)
Definition defaultdict_append {V} (k : Z) (s : V) (d : odict Z (list V))
  : odict Z (list V) :=
  match od_get k d with
  | Some _ => od_alter (λ l, l ++ [s]) k d
  | None => od_set k [s] d
  end.

Module Tournament.
Record t : Type := mk {
  teams : list Team.t;
  standings : Standings.t;
  round_robin_matches : list Match.t;
  playoff_bracket : option PlayoffBracket.t;
  _completed_match_ids : gset N;
}.

(** The dataclass constructor followed by [__post_init__]. *)
Definition init (teams : list Team.t) (standings : Standings.t)
    (round_robin_matches : list Match.t) : t :=
  let standings' :=
    if bool_decide (Standings.len standings = 0%nat)
    then foldl Standings.add_team standings teams
    else standings in
  mk teams standings' round_robin_matches None ∅.

Definition create_new `{PyRuntime} (teams : list Team.t) (e : entropy)
  : t * entropy :=
  let tournament := init teams Standings.empty [] in
  let sched := generate_round_robin_schedule teams BO1 e in
  (mk (Tournament.teams tournament) (standings tournament) sched.1
      (playoff_bracket tournament) (_completed_match_ids tournament),
   sched.2).

Definition get_remaining_round_robin_matches (self : t) : list Match.t :=
  filter (λ m, Match.is_completed m = false) (round_robin_matches self).

Definition get_completed_round_robin_matches (self : t) : list Match.t :=
  filter (λ m, Match.is_completed m = true) (round_robin_matches self).

(** The match object is designated by its position [i] in
    [round_robin_matches].  The match and the id set are updated before
    the ledger is, so they stay updated when the ledger raises. *)
Definition record_round_robin_result (self : t) (i : nat)
    (result : MatchResult.t) : res unit * t :=
  match round_robin_matches self !! i with
  | None => (Ok (), self)
  | Some m =>
      let ms := <[i := Match.set_result m result]> (round_robin_matches self) in
      let ids := {[Match.id m]} ∪ _completed_match_ids self in
      let r := Standings.record_match_result (standings self)
                 (MatchResult.winner result) (MatchResult.loser result) in
      (r.1, mk (teams self) r.2 ms (playoff_bracket self) ids)
  end.

(** [by_wins], built by the first loop. *)
Definition group_by_wins (self : t) : odict Z (list TeamStanding.t) :=
  foldl (λ by_wins standing,
           defaultdict_append (TeamStanding.wins standing) standing by_wins)
        [] (od_values (standings self)).

(** The second loop, over [sorted(by_wins.keys(), reverse=True)]. *)
Fixpoint resolve_groups `{PyRuntime} (all_standings : Standings.t)
    (by_wins : odict Z (list TeamStanding.t)) (keys : list Z)
    (rng : rng_state) : list TeamStanding.t * rng_state :=
  match keys with
  | [] => ([], rng)
  | wins :: keys' =>
      let group := default [] (od_get wins by_wins) in
      let ordered :=
        if bool_decide (length group = 1%nat) then (group, rng)
        else
          let r := TiebreakerChain.resolve (TiebreakerChain.init None)
                     group all_standings rng in
          (TiebreakerResult.ordered_teams r.1, r.2) in
      let rest := resolve_groups all_standings by_wins keys' ordered.2 in
      (ordered.1 ++ rest.1, rest.2)
  end.

Definition resolve_standings `{PyRuntime} (self : t) (rng : rng_state)
  : list TeamStanding.t * rng_state :=
  let by_wins := group_by_wins self in
  resolve_groups (standings self) by_wins (sorted_desc id (od_keys by_wins)) rng.

Definition create_playoff_bracket `{PyRuntime} (self : t)
    (seeded_standings : list TeamStanding.t) (e : entropy)
  : res PlayoffBracket.t * t * entropy :=
  if bool_decide (length seeded_standings < 8)%nat then
    (Raise (ValueError "Need at least 8 teams for playoffs"), self, e)
  else
    let r := PlayoffBracket.seed_teams PlayoffBracket.new
               (TeamStanding.team <$> take 8 seeded_standings) e in
    match r.1.1 with
    | Raise err => (Raise err, self, r.2)
    | Ok _ =>
        (Ok r.1.2,
         mk (teams self) (standings self) (round_robin_matches self)
            (Some r.1.2) (_completed_match_ids self),
         r.2)
    end.

Definition copy (self : t) : t :=
  let new_tournament := init (teams self) (Standings.copy (standings self)) [] in
  let ms :=
    foldl (λ acc m,
             acc ++ [Match.mk (Match.team_a m) (Match.team_b m) (Match.format m)
                              (Match.stage m) (Match.week m) (Match.match_day m)
                              (Match.result m) (Match.id m)])
          [] (round_robin_matches self) in
  mk (teams new_tournament) (standings new_tournament) ms
     (playoff_bracket new_tournament) (_completed_match_ids self).
End Tournament.

(* ================================================================== *)
(** * simulation/engine.py *)
(* ================================================================== *)

Module SimulationConfig.
Record t : Type := mk {
  num_simulations : Z;
  seed : option Z;
}.
Definition default : t := mk 10000 None.
End SimulationConfig.

Module SimulationOutcome.
Record t : Type := mk {
  regular_season_rank : gmap string Z;
  made_playoffs : gset string;
  playoff_seed : gmap string Z;
  final_placement : gmap string Z;
  champion : option string;
}.
End SimulationOutcome.

Module SimulationResults.
Record t : Type := mk {
  num_simulations : Z;
  playoff_probability : gmap string Q;
  championship_probability : gmap string Q;
  regular_season_distribution : gmap string (gmap Z Q);
  seeding_distribution : gmap string (gmap Z Q);
  playoff_placement_distribution : gmap string (gmap Z Q);
}.
End SimulationResults.

(** [x < y] on probabilities *)
Definition Qlt_bool (x y : Q) : bool := negb (Qle_bool y x).

(** [counts[k] += 1] on a [defaultdict(int)] *)
Definition incr {K} `{Countable K} (k : K) (counts : gmap K Z) : gmap K Z :=
  <[k := default 0 (counts !! k) + 1]> counts.

(** [counts[team][k] += 1] on a [defaultdict(lambda: defaultdict(int))] *)
Definition incr2 (team : string) (k : Z) (counts : gmap string (gmap Z Z))
  : gmap string (gmap Z Z) :=
  <[team := incr k (default ∅ (counts !! team))]> counts.

(** [enumerate(xs, 1)] *)
Definition enumerate1 {A} (xs : list A) : list (Z * A) :=
  imap (λ i x, (Z.of_nat i + 1, x)) xs.

Module SimulationEngine.
Section with_runtime.
Context `{PyRuntime}.

Record t : Type := mk {
tournament : Tournament.t;
win_rates : WinRateMatrix.t;
config : SimulationConfig.t;
_rng : rng_state;
}.

(** [__init__]; [random.Random(None)] seeds itself from the system. *)
Definition init (tournament : Tournament.t) (win_rates : WinRateMatrix.t)
(config : option SimulationConfig.t) (e : entropy) : t * entropy :=
let config := default SimulationConfig.default config in
match SimulationConfig.seed config with
| Some seed => (mk tournament win_rates config (Random seed), e)
| None => (mk tournament win_rates config (Random (os_seed e).1), (os_seed e).2)
end.

(** The [while] loop of [simulate_match].  Every round adds one to one of
the scores, so [fuel] rounds are enough as soon as [fuel] is at least
[(games_to_win - a_score) + (games_to_win - b_score)]
(see [play_games_exit]). *)
Fixpoint play_games (fuel : nat) (prob_a_wins : Q) (games_to_win a_score b_score : Z)
(rng : rng_state) : Z * Z * rng_state :=
match fuel with
| O => (a_score, b_score, rng)
| S fuel' =>
  if bool_decide (a_score < games_to_win) && bool_decide (b_score < games_to_win)
  then
    let d := rng_random rng in
    if Qlt_bool d.1 prob_a_wins
    then play_games fuel' prob_a_wins games_to_win (a_score + 1) b_score d.2
    else play_games fuel' prob_a_wins games_to_win a_score (b_score + 1) d.2
  else (a_score, b_score, rng)
end.

Definition simulate_match (self : t) (m : Match.t) (rng : rng_state)
: MatchResult.t * rng_state :=
let prob_a_wins :=
WinRateMatrix.get_win_probability (win_rates self)
  (Team.id (Match.team_a m)) (Team.id (Match.team_b m)) in
match Match.format m with
| BO1 =>
  let d := rng_random rng in
  let a_wins := Qlt_bool d.1 prob_a_wins in
  (MatchResult.mk (if a_wins then Match.team_a m else Match.team_b m)
                  (if a_wins then Match.team_b m else Match.team_a m) 1 0,
   d.2)
| fmt =>
  let g := games_to_win fmt in
  let played := play_games (Z.to_nat (2 * g)) prob_a_wins g 0 0 rng in
  let a_score := played.1.1 in
  let b_score := played.1.2 in
  if bool_decide (a_score > b_score) then
    (MatchResult.mk (Match.team_a m) (Match.team_b m) a_score b_score, played.2)
  else
    (MatchResult.mk (Match.team_b m) (Match.team_a m) b_score a_score, played.2)
end.

Definition match_order : list BracketPosition :=
[UPPER_QF_1; UPPER_QF_2; UPPER_QF_3; UPPER_QF_4;
 LOWER_R1_1; LOWER_R1_2;
 UPPER_SF_1; UPPER_SF_2;
 LOWER_R2_1; LOWER_R2_2;
 UPPER_FINAL;
 LOWER_SF;
 LOWER_FINAL;
 GRAND_FINAL].

(** One round of the loop of [simulate_playoffs]. *)
Definition play_position (self : t)
(st : PlayoffBracket.t * rng_state * entropy) (position : BracketPosition)
: PlayoffBracket.t * rng_state * entropy :=
let bracket := st.1.1 in
if od_mem position (PlayoffBracket.matches bracket)
 && negb (od_mem position (PlayoffBracket.results bracket))
then
match od_get position (PlayoffBracket.matches bracket) with
| Some m =>
    if negb (Team.eqb (Match.team_a m) (Match.team_b m)) then
      let r := simulate_match self m st.1.2 in
      let b := PlayoffBracket.record_result bracket position r.1 st.2 in
      (b.1, r.2, b.2)
    else st
| None => st
end
else st.

Definition simulate_playoffs (self : t) (bracket : PlayoffBracket.t)
(rng : rng_state) (e : entropy)
: PlayoffBracket.t * rng_state * entropy :=
foldl (play_position self) (bracket, rng, e) match_order.

(** The first loop of [run_single_simulation], over the matches that were
unplayed when it started (each with its position in the schedule). *)
Fixpoint simulate_round_robin (self : t) (tournament_copy : Tournament.t)
(remaining : list (nat * Match.t)) (rng : rng_state)
: res unit * Tournament.t * rng_state :=
match remaining with
| [] => (Ok (), tournament_copy, rng)
| (i, m) :: remaining' =>
  let r := simulate_match self m rng in
  let rec := Tournament.record_round_robin_result tournament_copy i r.1 in
  match rec.1 with
  | Raise err => (Raise err, rec.2, r.2)
  | Ok _ => simulate_round_robin self rec.2 remaining' r.2
  end
end.

Definition remaining_round_robin (t : Tournament.t) : list (nat * Match.t) :=
filter (λ im : nat * Match.t, Match.is_completed im.2 = false)
     (imap pair (Tournament.round_robin_matches t)).

(** The regular season of one trial: copy, play what is left, rank. *)
Definition regular_season (self : t) (seed : Z)
: res (list TeamStanding.t) * Tournament.t * rng_state :=
let rng := Random seed in
let tournament_copy := Tournament.copy (tournament self) in
let rr := simulate_round_robin self tournament_copy
          (remaining_round_robin tournament_copy) rng in
match rr.1.1 with
| Raise err => (Raise err, rr.1.2, rr.2)
| Ok _ =>
  let fs := Tournament.resolve_standings rr.1.2 rr.2 in
  (Ok fs.1, rr.1.2, fs.2)
end.

(** The last loop of [run_single_simulation]: fifth to eighth place. *)
Definition place_eliminated (final_placement : gmap string Z)
(eliminated : team_set) : gmap string Z :=
(foldl (λ (acc : gmap string Z * Z) team,
        match acc.1 !! Team.name team with
        | None => (<[Team.name team := acc.2]> acc.1, acc.2 + 1)
        | Some _ => acc
        end)
     (final_placement, 5) (set_iter eliminated)).1.

Definition place_named (placement : Z) (team : option Team.t)
(final_placement : gmap string Z) : gmap string Z :=
match team with
| Some team => <[Team.name team := placement]> final_placement
| None => final_placement
end.

(** What [run_single_simulation] reads off the played bracket. *)
Definition final_placements (bracket : PlayoffBracket.t) : gmap string Z :=
let fp1 := place_named 1 (PlayoffBracket.champion bracket) ∅ in
let fp2 := place_named 2 (PlayoffBracket.runner_up bracket) fp1 in
let fp3 := place_named 3 (PlayoffBracket.third_place bracket) fp2 in
let fp4 := place_named 4 (PlayoffBracket.fourth_place bracket) fp3 in
place_eliminated fp4 (PlayoffBracket.eliminated bracket).

(** The bracket stage of one trial, from the final regular-season order. *)
Definition playoffs (self : t) (tournament_copy : Tournament.t)
(final_standings : list TeamStanding.t) (rng : rng_state) (e : entropy)
: res PlayoffBracket.t * entropy :=
let playoff_teams := take 8 final_standings in
let cb := Tournament.create_playoff_bracket tournament_copy playoff_teams e in
match cb.1.1 with
| Raise err => (Raise err, cb.2)
| Ok bracket =>
  let sp := simulate_playoffs self bracket rng cb.2 in
  (Ok sp.1.1, sp.2)
end.

Definition run_single_simulation (self : t) (seed : Z) (e : entropy)
: res SimulationOutcome.t * entropy :=
let rs := regular_season self seed in
match rs.1.1 with
| Raise err => (Raise err, e)
| Ok final_standings =>
  let regular_season_rank :=
    foldl (λ d (rs : Z * TeamStanding.t),
             <[Team.name (TeamStanding.team rs.2) := rs.1]> d)
          (∅ : gmap string Z) (enumerate1 final_standings) in
  let playoff_teams := take 8 final_standings in
  let made_playoffs : gset string :=
    list_to_set ((λ s, Team.name (TeamStanding.team s)) <$> playoff_teams) in
  let playoff_seed :=
    foldl (λ d (rs : Z * TeamStanding.t),
             <[Team.name (TeamStanding.team rs.2) := rs.1]> d)
          (∅ : gmap string Z) (enumerate1 playoff_teams) in
  let po := playoffs self rs.1.2 final_standings rs.2 e in
  match po.1 with
  | Raise err => (Raise err, po.2)
  | Ok bracket =>
      (Ok (SimulationOutcome.mk regular_season_rank made_playoffs playoff_seed
             (final_placements bracket)
             (Team.name <$> PlayoffBracket.champion bracket)),
       po.2)
  end
end.

(** [[self._rng.randint(0, 2**31) for _ in range(n)]] *)
Fixpoint draw_seeds (n : nat) (rng : rng_state) : list Z * rng_state :=
match n with
| O => ([], rng)
| S n' =>
  let d := rng_randint 0 (2 ^ 31) rng in
  let rest := draw_seeds n' d.2 in
  (d.1 :: rest.1, rest.2)
end.

(** [[self.run_single_simulation(s) for s in seeds]] *)
Fixpoint run_trials (self : t) (seeds : list Z) (e : entropy)
: res (list SimulationOutcome.t) * entropy :=
match seeds with
| [] => (Ok [], e)
| s :: seeds' =>
  let o := run_single_simulation self s e in
  match o.1 with
  | Raise err => (Raise err, o.2)
  | Ok outcome =>
      let rest := run_trials self seeds' o.2 in
      match rest.1 with
      | Raise err => (Raise err, rest.2)
      | Ok outcomes => (Ok (outcome :: outcomes), rest.2)
      end
  end
end.

Definition to_probabilities (n : Z) (counts : gmap string Z) : gmap string Q :=
(λ v, inject_Z v / inject_Z n)%Q <$> counts.

Definition to_distributions (n : Z) (counts : gmap string (gmap Z Z))
: gmap string (gmap Z Q) :=
(λ ks : gmap Z Z, (λ v, inject_Z v / inject_Z n)%Q <$> ks) <$> counts.

Definition count_pairs (d : gmap string Z) (counts : gmap string (gmap Z Z))
: gmap string (gmap Z Z) :=
map_fold (λ team k acc, incr2 team k acc) counts d.

Definition _aggregate_results (outcomes : list SimulationOutcome.t)
: SimulationResults.t :=
let n := Z.of_nat (length outcomes) in
let playoff_counts :=
foldl (λ c o, set_fold incr c (SimulationOutcome.made_playoffs o)) ∅ outcomes in
let championship_counts :=
foldl (λ c o,
         match SimulationOutcome.champion o with
         | Some name => if bool_decide (name = EmptyString) then c else incr name c
         | None => c
         end) ∅ outcomes in
let regular_season_counts :=
foldl (λ c o, count_pairs (SimulationOutcome.regular_season_rank o) c)
      ∅ outcomes in
let seeding_counts :=
foldl (λ c o, count_pairs (SimulationOutcome.playoff_seed o) c) ∅ outcomes in
let playoff_placement_counts :=
foldl (λ c o, count_pairs (SimulationOutcome.final_placement o) c) ∅ outcomes in
SimulationResults.mk n
(to_probabilities n playoff_counts)
(to_probabilities n championship_counts)
(to_distributions n regular_season_counts)
(to_distributions n seeding_counts)
(to_distributions n playoff_placement_counts).

(** [run] leaves the engine with an advanced [_rng]. *)
Definition run (self : t) (e : entropy) : res SimulationResults.t * t * entropy :=
let sd := draw_seeds (Z.to_nat (SimulationConfig.num_simulations (config self)))
                   (_rng self) in
let self' := mk (tournament self) (win_rates self) (config self) sd.2 in
let outs := run_trials self' sd.1 e in
match outs.1 with
| Raise err => (Raise err, self', outs.2)
| Ok outcomes => (Ok (_aggregate_results outcomes), self', outs.2)
end.

End with_runtime.
End SimulationEngine.

(* ================================================================== *)
(** * A reference runtime and sample data *)
(* ================================================================== *)

(** A small linear congruential generator stands in for the Mersenne
    Twister, and a counter for the system's entropy; the properties below
    hold for every runtime, this one lets them be run. *)

Definition lcg_next (s : Z) : Z := (s * 1103515245 + 12345) `mod` 2147483648.

Definition lcg_random (s : Z) : Q * Z :=
  (Qmake (lcg_next s `mod` 1000) 1000, lcg_next s).

Definition lcg_shuffle (A : Type) (l : list A) (s : Z) : list A * Z :=
  (if Z.even (lcg_next s `div` 1024) then l else reverse l, lcg_next s).

#[refine, global] Instance lcg_runtime : PyRuntime := {|
  rng_state := Z;
  Random seed := seed `mod` 2147483648;
  rng_random := lcg_random;
  rng_randint lo hi s := (lo + lcg_next s `mod` (hi - lo + 1), lcg_next s);
  rng_shuffle := lcg_shuffle;
  entropy := N;
  uuid4 e := ((1000 + e)%N, (e + 1)%N);
  os_seed e := (Z.of_N e, (e + 1)%N);
  set_iter s := reverse s;
|}.
Proof.
  - intros s. unfold lcg_random, Qle, Qlt. simpl.
    pose proof (Z.mod_pos_bound (lcg_next s) 1000). lia.
  - intros A l s. unfold lcg_shuffle. simpl.
    destruct (Z.even _); [done | apply reverse_Permutation].
  - intros s. apply reverse_Permutation.
Defined.

Definition sample_entropy : @entropy lcg_runtime := N0.

Definition sample_team (i : N) (name : string) : Team.t :=
  Team.mk name name i false.

Definition sample_teams : list Team.t :=
  [sample_team 1 "A"; sample_team 2 "B"; sample_team 3 "C"; sample_team 4 "D";
   sample_team 5 "E"; sample_team 6 "F"; sample_team 7 "G"; sample_team 8 "H";
   sample_team 9 "I"; sample_team 10 "J"].

(* ================================================================== *)
(** * Vocabulary of the specification *)
(* ================================================================== *)

(** The ledgers one gets from the all-zero ledger of [teams] (the one
    [Tournament.__post_init__] builds) by calls of [record_match_result]
    that did not raise. *)
Inductive recorded (teams : list Team.t) : Standings.t → Prop :=
  | recorded_init :
      recorded teams (foldl Standings.add_team Standings.empty teams)
  | recorded_step st winner loser st' :
      recorded teams st →
      Standings.record_match_result st winner loser = (Ok (), st') →
      recorded teams st'.

(** [m] is the meeting of [a] and [b], in either order. *)
Definition is_pairing (a b : Team.t) (m : Match.t) : bool :=
  Team.eqb (Match.team_a m) a && Team.eqb (Match.team_b m) b
  || Team.eqb (Match.team_a m) b && Team.eqb (Match.team_b m) a.

(** The brackets one gets from a new one by seeding and by recording
    results, at any position and in any order. *)
Inductive bracket_reachable `{PyRuntime} : PlayoffBracket.t → Prop :=
  | reachable_new : bracket_reachable PlayoffBracket.new
  | reachable_seed b seeded_teams e b' e' :
      bracket_reachable b →
      PlayoffBracket.seed_teams b seeded_teams e = (Ok (), b', e') →
      bracket_reachable b'
  | reachable_record b position result e :
      bracket_reachable b →
      bracket_reachable (PlayoffBracket.record_result b position result e).1.

(** The format every route into a position asks for. *)
Definition position_format (p : BracketPosition) : MatchFormat :=
  match p with
  | UPPER_FINAL | LOWER_SF | LOWER_FINAL | GRAND_FINAL => BO5
  | _ => BO3
  end.

(** Recording a result at [p] always puts the loser in the eliminated set. *)
Definition loser_eliminated_at `{PyRuntime} (p : BracketPosition) : Prop :=
  ∀ b result e,
    team_set_mem (MatchResult.loser result)
      (PlayoffBracket.eliminated (PlayoffBracket.record_result b p result e).1)
    = true.

(** [r] names [a] and [b] as winner and loser, one way or the other. *)
Definition sides (r : MatchResult.t) (a b : Team.t) : Prop :=
  (MatchResult.winner r = a ∧ MatchResult.loser r = b)
  ∨ (MatchResult.winner r = b ∧ MatchResult.loser r = a).

(** [r] is what the engine answered for a match of [a] (slot A) against [b]
    (slot B). *)
Definition played `{PyRuntime} (self : SimulationEngine.t) (a b : Team.t)
    (r : MatchResult.t) : Prop :=
  ∃ m rng, Match.team_a m = a ∧ Match.team_b m = b
           ∧ (SimulationEngine.simulate_match self m rng).1 = r.

(** Team A wins every match the engine simulates. *)
Definition team_a_always_wins `{PyRuntime} (self : SimulationEngine.t) : Prop :=
  ∀ m rng,
    MatchResult.winner (SimulationEngine.simulate_match self m rng).1 = Match.team_a m
    ∧ MatchResult.loser (SimulationEngine.simulate_match self m rng).1 = Match.team_b m.

(** A bracket seeded with the first eight sample teams in which A beat H
    and D beat E in the quarterfinals, then A beat D in the semifinal. *)
Definition sample_bracket : PlayoffBracket.t :=
  let a := sample_team 1 "A" in
  let d := sample_team 4 "D" in
  let e := sample_team 5 "E" in
  let h := sample_team 8 "H" in
  let b0 := PlayoffBracket.seed_teams PlayoffBracket.new (take 8 sample_teams)
              sample_entropy in
  let b1 := PlayoffBracket.record_result b0.1.2 UPPER_QF_1
              (MatchResult.mk a h 2 0) b0.2 in
  let b2 := PlayoffBracket.record_result b1.1 UPPER_QF_2
              (MatchResult.mk d e 2 1) b1.2 in
  (PlayoffBracket.record_result b2.1 UPPER_SF_1 (MatchResult.mk a d 2 0) b2.2).1.

(** Ten teams, nothing played yet. *)
Definition sample_tournament : Tournament.t :=
  (Tournament.create_new sample_teams sample_entropy).1.

(** Three trials from seed 42 over [sample_tournament]. *)
Definition sample_engine (win_rates : WinRateMatrix.t) : SimulationEngine.t :=
  (SimulationEngine.init sample_tournament win_rates
     (Some (SimulationConfig.mk 3 (Some 42))) sample_entropy).1.

(** A ledger as [add_team] builds it: one entry per key, each standing
    filed under the id of its team. *)
Definition standings_wf (d : Standings.t) : Prop :=
  NoDup (od_keys d)
  ∧ Forall (λ kv : N * TeamStanding.t, Team.id (TeamStanding.team kv.2) = kv.1) d.

(** Eight teams, two of which are both called "A". *)
Definition namesake_teams : list Team.t :=
  [sample_team 1 "A"; sample_team 2 "A"; sample_team 3 "C"; sample_team 4 "D";
   sample_team 5 "E"; sample_team 6 "F"; sample_team 7 "G"; sample_team 8 "H"].

Definition namesake_engine : SimulationEngine.t :=
  (SimulationEngine.init (Tournament.create_new namesake_teams sample_entropy).1
     (WinRateMatrix.uniform (1 # 2))
     (Some (SimulationConfig.mk 3 (Some 42))) sample_entropy).1.

(** The ten sample teams, with team 8 called "I" like team 9. *)
Definition outsider_namesake_teams : list Team.t :=
  <[7%nat := sample_team 8 "I"]> sample_teams.

Definition outsider_namesake_engine : SimulationEngine.t :=
  (SimulationEngine.init
     (Tournament.create_new outsider_namesake_teams sample_entropy).1
     (WinRateMatrix.uniform (1 # 2))
     (Some (SimulationConfig.mk 3 (Some 42))) sample_entropy).1.

(** What a call returned, or a default when it raised. *)
Definition returned {A} (default : A) (r : res A) : A :=
  match r with Ok a => a | Raise _ => default end.

(** A match with its [uuid4] id blanked, and brackets that agree on
    everything but the ids of their matches. *)
Definition erase_match (m : Match.t) : Match.t :=
  Match.mk (Match.team_a m) (Match.team_b m) (Match.format m) (Match.stage m)
           (Match.week m) (Match.match_day m) (Match.result m) 0%N.

Definition erased (d : odict BracketPosition Match.t) : odict BracketPosition Match.t :=
  prod_map id erase_match <$> d.

Definition same_bracket (b1 b2 : PlayoffBracket.t) : Prop :=
  PlayoffBracket.teams b1 = PlayoffBracket.teams b2
  ∧ erased (PlayoffBracket.matches b1) = erased (PlayoffBracket.matches b2)
  ∧ PlayoffBracket.results b1 = PlayoffBracket.results b2
  ∧ PlayoffBracket.eliminated b1 = PlayoffBracket.eliminated b2
  ∧ PlayoffBracket.champion b1 = PlayoffBracket.champion b2
  ∧ PlayoffBracket.runner_up b1 = PlayoffBracket.runner_up b2
  ∧ PlayoffBracket.third_place b1 = PlayoffBracket.third_place b2
  ∧ PlayoffBracket.fourth_place b1 = PlayoffBracket.fourth_place b2.

(** One step of the componentwise sum of head-to-head entries. *)
Definition h2h_add (_ : N) (r acc : Z * Z) : Z * Z := (acc.1 + r.1, acc.2 + r.2).

(** What the ledger promises for one standing. *)
Definition consistent (s : TeamStanding.t) : Prop :=
  TeamStanding.games_played s = TeamStanding.wins s + TeamStanding.losses s
  ∧ TeamStanding.h2h_total s = (TeamStanding.wins s, TeamStanding.losses s).

(** An unplayed best-of-3 match of [a] against [b] at [stage]. *)
Definition is_fresh_match (m : Match.t) (a b : Team.t) (stage : string) : Prop :=
  Match.team_a m = a ∧ Match.team_b m = b ∧ Match.format m = BO3
  ∧ Match.stage m = stage ∧ Match.result m = None.

(** Number of elements of [l] that satisfy [P]. *)
Definition count_if {A} (P : A → bool) (l : list A) : nat :=
  length (filter (λ x, P x = true) l).

(** The pair [p] is [a] and [b], in either order. *)
Definition pair_is (a b : Team.t) (p : Team.t * Team.t) : bool :=
  Team.eqb p.1 a && Team.eqb p.2 b || Team.eqb p.1 b && Team.eqb p.2 a.

(** The order [sorted(.., reverse=True)] produces. *)
Definition by_key_desc {A} (key : A → Z) (a b : A) : Prop := key a >= key b.

(** [by_wins[k]] *)
Definition group_of (d : odict Z (list TeamStanding.t)) (k : Z)
  : list TeamStanding.t := default [] (od_get k d).

(** Every group holds standings of one win count, its key. *)
Definition keyed_by_wins (d : odict Z (list TeamStanding.t)) : Prop :=
  Forall (λ kg : Z * list TeamStanding.t,
            Forall (λ s, TeamStanding.wins s = kg.1) kg.2) d.

(** Every match of the bracket has the format of its position. *)
Definition formats_ok (b : PlayoffBracket.t) : Prop :=
  ∀ p m, od_get p (PlayoffBracket.matches b) = Some m →
         Match.format m = position_format p.

(** The course of a whole bracket, whoever wins: the fourteen results in the
    order they are played, who met whom, and where the eight teams end. *)
Definition bracket_course `{PyRuntime} (self : SimulationEngine.t)
    (s1 s2 s3 s4 s5 s6 s7 s8 : Team.t) (final : PlayoffBracket.t) : Prop :=
  ∃ r1 r2 r3 r4 r5 r6 r7 r8 r9 r10 r11 r12 r13 r14,
    (played self s1 s8 r1 ∧ played self s4 s5 r2
     ∧ played self s2 s7 r3 ∧ played self s3 s6 r4)
    ∧ (played self (MatchResult.loser r1) (MatchResult.loser r2) r5
       ∧ played self (MatchResult.loser r3) (MatchResult.loser r4) r6)
    ∧ (played self (MatchResult.winner r1) (MatchResult.winner r2) r7
       ∧ played self (MatchResult.winner r3) (MatchResult.winner r4) r8)
    ∧ (played self (MatchResult.winner r5) (MatchResult.loser r7) r9
       ∧ played self (MatchResult.winner r6) (MatchResult.loser r8) r10)
    ∧ played self (MatchResult.winner r7) (MatchResult.winner r8) r11
    ∧ played self (MatchResult.winner r9) (MatchResult.winner r10) r12
    ∧ played self (MatchResult.winner r12) (MatchResult.loser r11) r13
    ∧ played self (MatchResult.winner r11) (MatchResult.winner r13) r14
    ∧ PlayoffBracket.results final
      = [(UPPER_QF_1, r1); (UPPER_QF_2, r2); (UPPER_QF_3, r3); (UPPER_QF_4, r4);
         (LOWER_R1_1, r5); (LOWER_R1_2, r6); (UPPER_SF_1, r7); (UPPER_SF_2, r8);
         (LOWER_R2_1, r9); (LOWER_R2_2, r10); (UPPER_FINAL, r11); (LOWER_SF, r12);
         (LOWER_FINAL, r13); (GRAND_FINAL, r14)]
    ∧ PlayoffBracket.eliminated final
      = [MatchResult.loser r5; MatchResult.loser r6; MatchResult.loser r9;
         MatchResult.loser r10; MatchResult.loser r12; MatchResult.loser r13;
         MatchResult.loser r14]
    ∧ PlayoffBracket.champion final = Some (MatchResult.winner r14)
    ∧ PlayoffBracket.runner_up final = Some (MatchResult.loser r14)
    ∧ PlayoffBracket.third_place final = Some (MatchResult.loser r13)
    ∧ PlayoffBracket.fourth_place final = Some (MatchResult.loser r12)
    ∧ [MatchResult.winner r14; MatchResult.loser r14; MatchResult.loser r13;
       MatchResult.loser r12; MatchResult.loser r5; MatchResult.loser r6;
       MatchResult.loser r9; MatchResult.loser r10]
      ≡ₚ [s1; s2; s3; s4; s5; s6; s7; s8].

(** The last loop of [run_single_simulation] when the team is not skipped. *)
Definition assign (acc : gmap string Z * Z) (team : Team.t) : gmap string Z * Z :=
  (<[Team.name team := acc.2]> acc.1, acc.2 + 1).

(** ** Vocabulary of the further properties *)

(** [matrix[a][b]], when the row and the entry exist. *)
Definition entry (m : gmap N (gmap N Q)) (a b : N) : option Q :=
  m !! a ≫= (.!! b).

(** The tables one gets from [uniform(rate)] by calls of
    [set_win_probability] for two different teams that did not raise. *)
Inductive tabulated (rate : Q) : WinRateMatrix.t → Prop :=
  | tabulated_uniform : tabulated rate (WinRateMatrix.uniform rate)
  | tabulated_set m a b p m' :
      tabulated rate m → a ≠ b →
      WinRateMatrix.set_win_probability m a b p = (Ok (), m') →
      tabulated rate m'.

(** A table of three teams: 1 beats 2 three times in four, 2 beats 3 two
    times in five. *)
Definition sample_win_rates : WinRateMatrix.t :=
  let m1 := (WinRateMatrix.set_win_probability (WinRateMatrix.uniform (1 # 2))
               1%N 2%N (3 # 4)).2 in
  (WinRateMatrix.set_win_probability m1 2%N 3%N (2 # 5)).2.

(** Wins and losses over the whole ledger. *)
Definition total_wins (st : Standings.t) : Z :=
  sum_Z (TeamStanding.wins <$> od_values st).

Definition total_losses (st : Standings.t) : Z :=
  sum_Z (TeamStanding.losses <$> od_values st).

(** The order [get_ordered] asks for: more wins first, fewer losses first
    among equal wins. *)
Definition ranks_before (a b : TeamStanding.t) : Prop :=
  TeamStanding.wins a > TeamStanding.wins b
  ∨ (TeamStanding.wins a = TeamStanding.wins b
     ∧ TeamStanding.losses a <= TeamStanding.losses b).

(** A ledger of three teams in which B beat A and C beat A. *)
Definition sample_ledger : Standings.t :=
  let st0 := foldl Standings.add_team Standings.empty (take 3 sample_teams) in
  let st1 := (Standings.record_match_result st0 (sample_team 2 "B")
                (sample_team 1 "A")).2 in
  (Standings.record_match_result st1 (sample_team 3 "C") (sample_team 1 "A")).2.

(** The upper-bracket positions. *)
Definition is_upper (p : BracketPosition) : bool :=
  match p with
  | UPPER_QF_1 | UPPER_QF_2 | UPPER_QF_3 | UPPER_QF_4
  | UPPER_SF_1 | UPPER_SF_2 | UPPER_FINAL => true
  | _ => false
  end.

(** [b'] still has every match of [b], under the same id, format and
    stage. *)
Definition keeps_matches (b b' : PlayoffBracket.t) : Prop :=
  ∀ q m, od_get q (PlayoffBracket.matches b) = Some m →
         ∃ m', od_get q (PlayoffBracket.matches b') = Some m'
               ∧ Match.id m' = Match.id m
               ∧ Match.format m' = Match.format m
               ∧ Match.stage m' = Match.stage m.

(** The sample bracket played to its end. *)
Definition sample_final_bracket : PlayoffBracket.t :=
  (SimulationEngine.simulate_playoffs
     (sample_engine (WinRateMatrix.uniform (1 # 2))) sample_bracket
     (Random 7) sample_entropy).1.1.

(** The win-loss differential of [t] inside the group: over the other
    teams of the group, the games [t]'s head-to-head record says it won
    against them, less the games it lost. *)
Definition internal_diff (teams : list TeamStanding.t) (t : TeamStanding.t) : Z :=
  sum_Z ((λ o, let h2h := TeamStanding.get_h2h_record t (Team.id (TeamStanding.team o)) in
               h2h.1 - h2h.2)
         <$> filter (λ o, Team.id (TeamStanding.team o) ≠ Team.id (TeamStanding.team t))
                    teams).

(** In how many of the outcomes the team made the playoffs, and in how
    many it is the champion. *)
Definition times_qualified (name : string) (outcomes : list SimulationOutcome.t)
  : nat :=
  count_if (λ o, bool_decide (name ∈ SimulationOutcome.made_playoffs o)) outcomes.

Definition times_champion (name : string) (outcomes : list SimulationOutcome.t)
  : nat :=
  count_if (λ o, bool_decide (SimulationOutcome.champion o = Some name)) outcomes.

(** [count / n], the way the comprehension divides. *)
Definition frequency (count n : nat) : Q :=
  (inject_Z (Z.of_nat count) / inject_Z (Z.of_nat n))%Q.

(** What a counter holds for a key counted [n] times: a [defaultdict] has
    no entry for a key it never counted. *)
Definition counted (n : nat) : option Z :=
  if decide (n = 0%nat) then None else Some (Z.of_nat n).

(* ================================================================== *)
(** * Properties *)
(* ================================================================== *)


(** ** Proof automation for written-out lists *)

(** Position of [x] in the written-out list [l]. *)
Ltac index_of x l :=
  lazymatch l with
  | x :: _ => constr:(0%nat)
  | _ :: ?l' => let n := index_of x l' in constr:(S n)
  end.

(** Permutations between two written-out lists. *)
Ltac solve_perm :=
  lazymatch goal with
  | |- [] ≡ₚ [] => reflexivity
  | |- ?x :: ?l ≡ₚ ?k =>
      let i := index_of x k in
      apply (@Permutation_cons_app _ l (take i k) (drop (S i) k) x);
      simpl; solve_perm
  end.

Lemma NoDup_ne {A} (l : list A) i j x y :
  NoDup l → l !! i = Some x → l !! j = Some y → i ≠ j → x ≠ y.
Proof. intros Hnd Hi Hj Hij ->. apply Hij. by eapply NoDup_lookup. Qed.

Lemma NoDup_perm {A} (l k : list A) : l ≡ₚ k → NoDup l → NoDup k.
Proof. by intros ->. Qed.

(** [x ≠ y] for two entries of a written-out duplicate-free list. *)
Ltac solve_ne Hnd :=
  lazymatch goal with
  | |- ?x ≠ ?y =>
      lazymatch type of Hnd with
      | NoDup ?l =>
          let i := index_of x l in
          let j := index_of y l in
          exact (NoDup_ne l i j x y Hnd eq_refl eq_refl ltac:(discriminate))
      end
  end.

(** ** Ordered dictionaries *)

Section odict_facts.
Context {K V : Type} `{EqDecision K}.
Implicit Types (d : odict K V) (k : K) (v : V).

Lemma od_get_set d k k' v :
  od_get k (od_set k' v d) = if decide (k = k') then Some v else od_get k d.
Proof.
  induction d as [|[k0 v0] d IH]; simpl.
  - by destruct (decide (k = k')).
  - destruct (decide (k' = k0)) as [-> | Hne]; simpl.
    + by destruct (decide (k = k0)).
    + destruct (decide (k = k0)) as [-> | Hne'].
      * by destruct (decide (k0 = k')) as [-> |].
      * done.
Qed.

Lemma od_get_None_keys d k : od_get k d = None ↔ k ∉ od_keys d.
Proof.
  unfold od_keys. induction d as [|[k' g] d IH].
  - split; [intros _; apply not_elem_of_nil | done].
  - rewrite fmap_cons, not_elem_of_cons. simpl. case_decide as Hk.
    + split; [done | by intros [? _]].
    + rewrite IH. split; [done | by intros [_ ?]].
Qed.

Lemma od_set_fresh d k v : od_get k d = None → od_set k v d = d ++ [(k, v)].
Proof.
  induction d as [|[k' v'] d IH]; simpl; [done |].
  case_decide; [done |]. intros Hget. by rewrite IH.
Qed.

Lemma od_set_present d k v :
  is_Some (od_get k d) → od_keys (od_set k v d) = od_keys d.
Proof.
  unfold od_keys. induction d as [|[k' v'] d IH].
  - by intros [? ?].
  - simpl od_get. simpl od_set. case_decide; [done |].
    intros Hsome. rewrite !fmap_cons. by rewrite IH.
Qed.

Lemma od_set_keys_NoDup d k v : NoDup (od_keys d) → NoDup (od_keys (od_set k v d)).
Proof.
  intros Hnd. destruct (od_get k d) as [v'|] eqn:E.
  - rewrite od_set_present; [done | by rewrite E].
  - rewrite od_set_fresh by done. unfold od_keys. rewrite fmap_app.
    apply NoDup_app. repeat split; [done | | apply NoDup_singleton].
    intros k' Hk' Hin. apply list_elem_of_singleton in Hin as ->.
    by apply od_get_None_keys in E.
Qed.

Lemma od_alter_keys d k f : od_keys (od_alter f k d) = od_keys d.
Proof.
  unfold od_keys. induction d as [|[k' g'] d IH]; [done |].
  simpl od_alter. case_decide; rewrite !fmap_cons; [done | by rewrite IH].
Qed.

Lemma Forall_entries_set (Q : K → V → Prop) d k v :
  Q k v → Forall (λ kv, Q kv.1 kv.2) d →
  Forall (λ kv, Q kv.1 kv.2) (od_set k v d).
Proof.
  intros Hv. induction 1 as [|[k' v'] d Hkv Hd IH]; simpl.
  - by repeat constructor.
  - case_decide; constructor; simpl in *; subst; auto.
Qed.

Lemma Forall_entries_alter (Q : K → V → Prop) (f : V → V) d k :
  (∀ k v, Q k v → Q k (f v)) → Forall (λ kv, Q kv.1 kv.2) d →
  Forall (λ kv, Q kv.1 kv.2) (od_alter f k d).
Proof.
  intros Hf. induction 1 as [|[k' v'] d Hkv Hd IH]; simpl; [constructor |].
  case_decide; constructor; simpl in *; auto.
Qed.
End odict_facts.

(** ** Win-rate table *)

Section win_rates.
Import WinRateMatrix.

Lemma Qle_bool_range (p : Q) :
  Qle_bool 0 p && Qle_bool p 1 = true ↔ (0 <= p)%Q ∧ (p <= 1)%Q.
Proof. rewrite andb_true_iff, !Qle_bool_iff. done. Qed.

Lemma set_entry_other a b c p m :
  a ≠ c → set_entry a b p m !! c = m !! c.
Proof. intros. unfold set_entry. by rewrite lookup_insert_ne. Qed.

(** C5. For distinct team ids [a], [b] and a probability [p] in [0,1],
    [set_win_probability(a, b, p)] succeeds and afterwards
    [get_win_probability(b, a)] is [1 - p] and [get_win_probability(a, b)]
    is [p]; for [p] outside [0,1] it raises and the matrix is the one it
    was called on. *)
Theorem set_then_get_complement (self : t) (a b : N) (p : Q) :
  a ≠ b →
  ((0 <= p)%Q ∧ (p <= 1)%Q →
     ∃ self', set_win_probability self a b p = (Ok (), self')
              ∧ get_win_probability self' b a = (1 - p)%Q
              ∧ get_win_probability self' a b = p)
  ∧ (¬ ((0 <= p)%Q ∧ (p <= 1)%Q) →
     ∃ err, set_win_probability self a b p = (Raise err, self)).
Proof.
  intros Hab. unfold set_win_probability. split.
  - intros Hp. apply Qle_bool_range in Hp. rewrite Hp. simpl.
    eexists. split; [reflexivity |].
    unfold get_win_probability. simpl. split.
    + unfold set_entry at 1. rewrite lookup_insert_eq.
      by rewrite lookup_insert_eq.
    + rewrite set_entry_other by done.
      unfold set_entry. rewrite lookup_insert_eq.
      by rewrite lookup_insert_eq.
  - intros Hp. destruct (Qle_bool 0 p && Qle_bool p 1) eqn:E.
    + apply Qle_bool_range in E. done.
    + simpl. eauto.
Qed.

Lemma set_then_get_complement_witness :
  (∃ self', set_win_probability (uniform (1 # 2)) 1%N 2%N (3 # 4) = (Ok (), self')
            ∧ get_win_probability self' 2%N 1%N = (1 - (3 # 4))%Q
            ∧ get_win_probability self' 1%N 2%N = (3 # 4)%Q)
  ∧ (∃ err, set_win_probability (uniform (1 # 2)) 1%N 2%N (3 # 2)
            = (Raise err, uniform (1 # 2))).
Proof.
  split.
  - apply (set_then_get_complement (uniform (1 # 2)) 1%N 2%N (3 # 4)); [done |].
    split; unfold Qle; simpl; lia.
  - apply (set_then_get_complement (uniform (1 # 2)) 1%N 2%N (3 # 2)); [done |].
    intros [_ Hle]. revert Hle. unfold Qle. simpl. lia.
Defined.
End win_rates.

(** ** Standings ledger *)

Section standings.
Import TeamStanding.

Lemma h2h_add_comm j1 j2 z1 z2 y :
  h2h_add j1 z1 (h2h_add j2 z2 y) = h2h_add j2 z2 (h2h_add j1 z1 y).
Proof. unfold h2h_add. simpl. f_equal; lia. Qed.

Lemma h2h_fold_insert (m : gmap N (Z * Z)) k v :
  map_fold h2h_add (0, 0) (<[k := v]> m)
  = ((map_fold h2h_add (0, 0) m).1 - (default (0, 0) (m !! k)).1 + v.1,
     (map_fold h2h_add (0, 0) m).2 - (default (0, 0) (m !! k)).2 + v.2).
Proof.
  destruct (m !! k) as [old|] eqn:E; simpl.
  - rewrite <- insert_delete_eq.
    rewrite map_fold_insert_L;
      [| intros; apply h2h_add_comm | apply lookup_delete_eq].
    rewrite (map_fold_delete_L h2h_add (0, 0) k old m);
      [| intros; apply h2h_add_comm | done].
    unfold h2h_add. simpl. f_equal; lia.
  - rewrite map_fold_insert_L; [| intros; apply h2h_add_comm | done].
    unfold h2h_add. simpl. f_equal; lia.
Qed.

Lemma consistent_zero team : consistent (mk team 0 0 ∅).
Proof. split; [done |]. unfold h2h_total. simpl. by rewrite map_fold_empty. Qed.

Lemma consistent_record_win opp s : consistent s → consistent (record_win opp s).
Proof.
  intros [_ Hs]. split; [done |]. revert Hs.
  unfold record_win, get_h2h_record, h2h_total.
  destruct (default (0, 0) (head_to_head s !! opp)) as [w l] eqn:E. simpl.
  fold h2h_add. rewrite h2h_fold_insert, E. simpl.
  intros ->. simpl. f_equal; lia.
Qed.

Lemma consistent_record_loss opp s : consistent s → consistent (record_loss opp s).
Proof.
  intros [_ Hs]. split; [done |]. revert Hs.
  unfold record_loss, get_h2h_record, h2h_total.
  destruct (default (0, 0) (head_to_head s !! opp)) as [w l] eqn:E. simpl.
  fold h2h_add. rewrite h2h_fold_insert, E. simpl.
  intros ->. simpl. f_equal; lia.
Qed.

Lemma Forall_od_set (P : t → Prop) (k : N) v (d : odict N t) :
  P v → Forall P (od_values d) → Forall P (od_values (od_set k v d)).
Proof.
  intros Hv. unfold od_values. induction d as [|[k' v'] d IH]; simpl.
  - intros _. by constructor.
  - intros Hd. apply Forall_cons in Hd as [Hv' Hd].
    case_decide; simpl; constructor; auto.
Qed.

Lemma Forall_od_alter (P : t → Prop) (f : t → t) (k : N) (d : odict N t) :
  (∀ v, P v → P (f v)) →
  Forall P (od_values d) → Forall P (od_values (od_alter f k d)).
Proof.
  intros Hf. unfold od_values. induction d as [|[k' v'] d IH]; simpl; [done |].
  intros Hd. apply Forall_cons in Hd as [Hv' Hd].
  case_decide; simpl; constructor; auto.
Qed.

Lemma initial_consistent teams st :
  Forall consistent (od_values st) →
  Forall consistent (od_values (foldl Standings.add_team st teams)).
Proof.
  revert st. induction teams as [|x teams IH]; simpl; [done |].
  intros st Hst. apply IH. apply Forall_od_set; [apply consistent_zero | done].
Qed.

Lemma record_match_result_consistent st winner loser st' :
  Standings.record_match_result st winner loser = (Ok (), st') →
  Forall consistent (od_values st) → Forall consistent (od_values st').
Proof.
  unfold Standings.record_match_result.
  destruct (od_get (Team.id winner) st), (od_get (Team.id loser) st);
    intros [= <-] Hst.
  apply Forall_od_alter; [apply consistent_record_loss |].
  apply Forall_od_alter; [apply consistent_record_win | done].
Qed.

(** C7. In every ledger reached from the all-zero one by successful
    [record_match_result] calls, each standing has
    [games_played = wins + losses] and head-to-head entries that sum,
    componentwise, to [(wins, losses)]; and from such a ledger
    [record_match_result] raises, changing nothing, when the winner's or the
    loser's standing is absent. *)
Theorem ledger_consistent (teams : list Team.t) (st : Standings.t) :
  recorded teams st →
  (∀ s, s ∈ od_values st →
        games_played s = wins s + losses s ∧ h2h_total s = (wins s, losses s))
  ∧ (∀ winner loser,
        Standings.get st (Team.id winner) = None
        ∨ Standings.get st (Team.id loser) = None →
        ∃ err, Standings.record_match_result st winner loser = (Raise err, st)).
Proof.
  intros Hrec. split.
  - assert (Forall consistent (od_values st)) as Hall.
    { induction Hrec as [|st w l st' _ IH Hstep].
      - apply initial_consistent. constructor.
      - eapply record_match_result_consistent; eauto. }
    intros s Hs. rewrite Forall_forall in Hall. by apply Hall.
  - intros winner loser Habsent.
    unfold Standings.record_match_result, Standings.get in *.
    destruct Habsent as [-> | ->]; [eauto |].
    destruct (od_get (Team.id winner) st); eauto.
Qed.

Lemma ledger_consistent_witness :
  let teams := take 3 sample_teams in
  let a := sample_team 1 "A" in
  let b := sample_team 2 "B" in
  let st0 := foldl Standings.add_team Standings.empty teams in
  let st := (Standings.record_match_result st0 a b).2 in
  (∀ s, s ∈ od_values st →
        games_played s = wins s + losses s ∧ h2h_total s = (wins s, losses s))
  ∧ (∀ winner loser,
        Standings.get st (Team.id winner) = None
        ∨ Standings.get st (Team.id loser) = None →
        ∃ err, Standings.record_match_result st winner loser = (Raise err, st)).
Proof.
  intros teams a b st0 st.
  apply (ledger_consistent teams st).
  apply (recorded_step teams st0 a b st); [apply recorded_init |].
  reflexivity.
Defined.
End standings.

(** ** Placement lookup *)

(** C10. [get_placement] answers 5 for every eliminated team that holds none
    of the four named placements, whatever the round it went out in, and
    [None] for a team that is neither eliminated nor named. *)
Theorem get_placement_unnamed (self : PlayoffBracket.t) (team : Team.t) :
  Team.eqb_opt team (PlayoffBracket.champion self) = false →
  Team.eqb_opt team (PlayoffBracket.runner_up self) = false →
  Team.eqb_opt team (PlayoffBracket.third_place self) = false →
  Team.eqb_opt team (PlayoffBracket.fourth_place self) = false →
  PlayoffBracket.get_placement self team
  = if team_set_mem team (PlayoffBracket.eliminated self) then Some 5 else None.
Proof.
  intros Hc Hr Ht Hf. unfold PlayoffBracket.get_placement.
  by rewrite Hc, Hr, Ht, Hf.
Qed.

Lemma get_placement_unnamed_witness :
  let a := sample_team 1 "A" in
  let b := sample_team 2 "B" in
  let c := sample_team 3 "C" in
  let self := PlayoffBracket.mk [] [] [] [b] (Some a) None None None in
  PlayoffBracket.get_placement self b = Some 5
  ∧ PlayoffBracket.get_placement self c = None.
Proof.
  intros a b c self. split.
  - apply (get_placement_unnamed self b); reflexivity.
  - apply (get_placement_unnamed self c); reflexivity.
Defined.

(** ** Bracket seeding *)

Section seeding.
Context `{PyRuntime}.
Import PlayoffBracket.

(** C4. [seed_teams] raises on a list whose length is not 8 and leaves the
    bracket (its matches included) as it was; on eight teams it succeeds,
    stores the four quarterfinals 1v8, 4v5, 2v7, 3v6 as unplayed best-of-3
    matches and touches no other position, so that a new bracket holds
    exactly these four matches. *)
Theorem seed_teams_pairings (self : t) (seeded_teams : list Team.t) (e : entropy) :
  (length seeded_teams ≠ 8%nat →
     ∃ err, seed_teams self seeded_teams e = (Raise err, self, e))
  ∧ (∀ s1 s2 s3 s4 s5 s6 s7 s8,
       seeded_teams = [s1; s2; s3; s4; s5; s6; s7; s8] →
       ∃ self' e' m1 m2 m3 m4,
         seed_teams self seeded_teams e = (Ok (), self', e')
         ∧ teams self' = seeded_teams
         ∧ od_get UPPER_QF_1 (matches self') = Some m1
         ∧ is_fresh_match m1 s1 s8 "upper_qf"
         ∧ od_get UPPER_QF_2 (matches self') = Some m2
         ∧ is_fresh_match m2 s4 s5 "upper_qf"
         ∧ od_get UPPER_QF_3 (matches self') = Some m3
         ∧ is_fresh_match m3 s2 s7 "upper_qf"
         ∧ od_get UPPER_QF_4 (matches self') = Some m4
         ∧ is_fresh_match m4 s3 s6 "upper_qf"
         ∧ (∀ p, p ∉ [UPPER_QF_1; UPPER_QF_2; UPPER_QF_3; UPPER_QF_4] →
                 od_get p (matches self') = od_get p (matches self))
         ∧ (matches self = [] →
            od_keys (matches self') = [UPPER_QF_1; UPPER_QF_2; UPPER_QF_3; UPPER_QF_4])).
Proof.
  split.
  - intros Hlen.
    do 9 (destruct seeded_teams as [|? seeded_teams]; simpl in *; eauto).
    lia.
  - intros s1 s2 s3 s4 s5 s6 s7 s8 ->.
    unfold seed_teams, put_new_match, new_match.
    cbn [fst snd set_matches set_teams matches teams].
    do 6 eexists. split; [reflexivity |]. split; [reflexivity |].
    cbn [fst snd set_matches set_teams matches teams].
    rewrite !od_get_set.
    repeat (case_decide; try done).
    repeat split; try reflexivity.
    + intros p Hp. rewrite !od_get_set.
      repeat (case_decide; [subst; exfalso; apply Hp; set_solver |]). done.
    + intros ->. reflexivity.
Qed.

End seeding.

Lemma seed_teams_pairings_witness :
  (∃ err, PlayoffBracket.seed_teams PlayoffBracket.new (take 7 sample_teams)
            sample_entropy
          = (Raise err, PlayoffBracket.new, sample_entropy))
  ∧ (∃ self' e',
       PlayoffBracket.seed_teams PlayoffBracket.new (take 8 sample_teams)
         sample_entropy
       = (Ok (), self', e')
       ∧ od_keys (PlayoffBracket.matches self')
         = [UPPER_QF_1; UPPER_QF_2; UPPER_QF_3; UPPER_QF_4]).
Proof.
  split.
  - apply (seed_teams_pairings PlayoffBracket.new (take 7 sample_teams)
             sample_entropy).
    simpl. lia.
  - destruct (proj2 (seed_teams_pairings PlayoffBracket.new (take 8 sample_teams)
                       sample_entropy) _ _ _ _ _ _ _ _ eq_refl)
      as (self' & e' & m1 & m2 & m3 & m4 & Hseed & Hrest).
    exists self', e'. split; [exact Hseed |].
    by apply Hrest.
Defined.

(** ** Round-robin schedule *)

Section round_robin.
Context `{PyRuntime}.

Lemma count_if_cons {A} (P : A → bool) x l :
  count_if P (x :: l) = ((if P x then 1 else 0) + count_if P l)%nat.
Proof.
  unfold count_if. destruct (P x) eqn:E.
  - by rewrite filter_cons_True.
  - rewrite filter_cons_False; [done | congruence].
Qed.

Lemma count_if_app {A} (P : A → bool) l1 l2 :
  count_if P (l1 ++ l2) = (count_if P l1 + count_if P l2)%nat.
Proof. unfold count_if. by rewrite filter_app, length_app. Qed.

Lemma count_if_fmap {A B} (P : B → bool) (f : A → B) l :
  count_if P (f <$> l) = count_if (P ∘ f) l.
Proof.
  induction l as [|x l IH]; [done |].
  rewrite fmap_cons, !count_if_cons, IH. done.
Qed.

Lemma count_if_ext {A} (P Q : A → bool) l :
  (∀ x, x ∈ l → P x = Q x) → count_if P l = count_if Q l.
Proof.
  induction l as [|x l IH]; [done |]. intros Hext.
  rewrite !count_if_cons, IH, (Hext x); [done | set_solver | set_solver].
Qed.

Lemma count_if_none {A} (P : A → bool) l :
  (∀ x, x ∈ l → P x = false) → count_if P l = 0%nat.
Proof.
  induction l as [|x l IH]; [done |]. intros Hnone.
  rewrite count_if_cons, IH, (Hnone x); [done | set_solver | set_solver].
Qed.

Lemma elem_of_ids (x : Team.t) (l : list Team.t) :
  x ∈ l → Team.id x ∈ Team.id <$> l.
Proof. intros. apply list_elem_of_fmap. eauto. Qed.

(** In a list without repeated ids, exactly one element is the team [b]. *)
Lemma count_team_once (b : Team.t) (l : list Team.t) :
  NoDup (Team.id <$> l) → b ∈ l → count_if (λ y, Team.eqb y b) l = 1%nat.
Proof.
  induction l as [|y l IH]; intros Hnd Hb.
  - by apply elem_of_nil in Hb.
  - rewrite fmap_cons in Hnd. apply NoDup_cons in Hnd as [Hy Hnd].
    rewrite count_if_cons. unfold Team.eqb at 1.
    apply elem_of_cons in Hb as [-> | Hb].
    + rewrite bool_decide_eq_true_2 by done.
      rewrite count_if_none; [done |].
      intros x Hx. apply bool_decide_eq_false. intros Heq.
      apply Hy. rewrite <- Heq. by apply elem_of_ids.
    + rewrite bool_decide_eq_false_2.
      * by rewrite IH.
      * intros Heq. apply Hy. rewrite Heq. by apply elem_of_ids.
Qed.

Lemma elem_of_combinations2 {A} (x y : A) (l : list A) :
  (x, y) ∈ combinations2 l → x ∈ l ∧ y ∈ l.
Proof.
  induction l as [|z l IH]; simpl.
  - intros Hin. by apply elem_of_nil in Hin.
  - rewrite elem_of_app, list_elem_of_fmap, !elem_of_cons.
    intros [(y' & [= -> ->] & Hy) | Hin]; [by auto |].
    apply IH in Hin as [? ?]. auto.
Qed.

Lemma length_combinations2 {A} (l : list A) :
  length (combinations2 l) = (length l * (length l - 1) / 2)%nat.
Proof.
  induction l as [|x l IH]; [done |].
  simpl combinations2. rewrite length_app, length_fmap, IH.
  replace (length (x :: l) * (length (x :: l) - 1))%nat
    with (length l * 2 + length l * (length l - 1))%nat by (simpl; nia).
  by rewrite Nat.div_add_l.
Qed.

Lemma combinations2_absent (a b : Team.t) (l : list Team.t) :
  Team.id a ∉ Team.id <$> l ∨ Team.id b ∉ Team.id <$> l →
  count_if (pair_is a b) (combinations2 l) = 0%nat.
Proof.
  intros Habsent. apply count_if_none. intros [y z] Hyz.
  apply elem_of_combinations2 in Hyz as [Hy Hz].
  apply elem_of_ids in Hy, Hz.
  unfold pair_is, Team.eqb. simpl.
  destruct Habsent as [Hno | Hno].
  - rewrite (bool_decide_eq_false_2 (Team.id y = Team.id a)) by congruence.
    rewrite (bool_decide_eq_false_2 (Team.id z = Team.id a)) by congruence.
    by rewrite andb_false_r.
  - rewrite (bool_decide_eq_false_2 (Team.id y = Team.id b)) by congruence.
    rewrite (bool_decide_eq_false_2 (Team.id z = Team.id b)) by congruence.
    by rewrite andb_false_r.
Qed.

(** Every unordered pair of a duplicate-free list is listed once. *)
Lemma combinations2_once (a b : Team.t) (l : list Team.t) :
  NoDup (Team.id <$> l) → a ∈ l → b ∈ l → Team.id a ≠ Team.id b →
  count_if (pair_is a b) (combinations2 l) = 1%nat.
Proof.
  induction l as [|x l IH]; intros Hnd Ha Hb Hab.
  - by apply elem_of_nil in Ha.
  - simpl combinations2. rewrite count_if_app, count_if_fmap.
    pose proof Hnd as Hnd'.
    rewrite fmap_cons in Hnd'. apply NoDup_cons in Hnd' as [Hx Hndl].
    assert (∀ c : Team.t, c ∈ x :: l → Team.id x = Team.id c ∨ c ∈ l) as Hsplit.
    { intros c Hc. apply elem_of_cons in Hc as [-> | Hc]; auto. }
    destruct (Hsplit a Ha) as [Hxa | Hal], (Hsplit b Hb) as [Hxb | Hbl].
    + congruence.
    + rewrite (combinations2_absent a b l) by (left; congruence).
      rewrite (count_if_ext _ (λ y, Team.eqb y b)).
      * by rewrite count_team_once.
      * intros y _. unfold pair_is, Team.eqb, compose. simpl.
        rewrite (bool_decide_eq_true_2 _ Hxa).
        rewrite (bool_decide_eq_false_2 (Team.id x = Team.id b)) by congruence.
        by rewrite orb_false_r.
    + rewrite (combinations2_absent a b l) by (right; congruence).
      rewrite (count_if_ext _ (λ y, Team.eqb y a)).
      * by rewrite count_team_once.
      * intros y _. unfold pair_is, Team.eqb, compose. simpl.
        rewrite (bool_decide_eq_true_2 _ Hxb).
        rewrite (bool_decide_eq_false_2 (Team.id x = Team.id a)) by congruence.
        done.
    + rewrite IH by done.
      rewrite count_if_none; [done |].
      intros y Hy. unfold pair_is, Team.eqb, compose. simpl.
      apply elem_of_ids in Hal, Hbl.
      rewrite (bool_decide_eq_false_2 (Team.id x = Team.id a))
        by (intros Heq; apply Hx; congruence).
      rewrite (bool_decide_eq_false_2 (Team.id x = Team.id b))
        by (intros Heq; apply Hx; congruence).
      done.
Qed.

Lemma schedule_pairs_teams pairs format e :
  (λ m, (Match.team_a m, Match.team_b m)) <$> (schedule_pairs pairs format e).1
  = pairs.
Proof.
  revert e. induction pairs as [|[a b] pairs IH]; intros e; [done |].
  simpl. by rewrite IH.
Qed.

Lemma schedule_pairs_unplayed pairs format e :
  Forall (λ m, Match.result m = None ∧ Match.stage m = "round_robin"
               ∧ Match.format m = format)
         (schedule_pairs pairs format e).1.
Proof.
  revert e. induction pairs as [|[a b] pairs IH]; intros e; simpl.
  - constructor.
  - constructor; [done | apply IH].
Qed.

(** C6. For a list of [N] teams with pairwise different ids, the schedule
    has [N * (N - 1) / 2] matches, each unordered pair of teams of the list
    meets in exactly one of them, and every match is unplayed and tagged
    "round_robin". *)
Theorem round_robin_complete (teams : list Team.t) (format : MatchFormat)
    (e : entropy) :
  NoDup (Team.id <$> teams) →
  let schedule := (generate_round_robin_schedule teams format e).1 in
  length schedule = (length teams * (length teams - 1) / 2)%nat
  ∧ (∀ a b, a ∈ teams → b ∈ teams → Team.id a ≠ Team.id b →
            count_if (is_pairing a b) schedule = 1%nat)
  ∧ (∀ m, m ∈ schedule →
          Match.result m = None ∧ Match.stage m = "round_robin"
          ∧ Match.team_a m ∈ teams ∧ Match.team_b m ∈ teams).
Proof.
  intros Hnd schedule. subst schedule. unfold generate_round_robin_schedule.
  pose proof (schedule_pairs_teams (combinations2 teams) format e) as Hteams.
  repeat split.
  - rewrite <- length_combinations2.
    erewrite <- length_fmap. by rewrite Hteams.
  - intros a b Ha Hb Hab.
    rewrite <- (combinations2_once a b teams Hnd Ha Hb Hab).
    change (is_pairing a b)
      with (pair_is a b ∘ (λ m, (Match.team_a m, Match.team_b m))).
    by rewrite <- count_if_fmap, Hteams.
  - pose proof (schedule_pairs_unplayed (combinations2 teams) format e) as Hall.
    rewrite Forall_forall in Hall. by apply Hall.
  - pose proof (schedule_pairs_unplayed (combinations2 teams) format e) as Hall.
    rewrite Forall_forall in Hall. by apply Hall.
  - assert ((Match.team_a m, Match.team_b m) ∈ combinations2 teams) as Hin.
    { rewrite <- Hteams. apply list_elem_of_fmap. eauto. }
    by apply elem_of_combinations2 in Hin as [? ?].
  - assert ((Match.team_a m, Match.team_b m) ∈ combinations2 teams) as Hin.
    { rewrite <- Hteams. apply list_elem_of_fmap. eauto. }
    by apply elem_of_combinations2 in Hin as [? ?].
Qed.
End round_robin.

Lemma round_robin_complete_witness :
  let teams := take 4 sample_teams in
  let schedule := (generate_round_robin_schedule teams BO1 sample_entropy).1 in
  length schedule = 6%nat
  ∧ (∀ a b, a ∈ teams → b ∈ teams → Team.id a ≠ Team.id b →
            count_if (is_pairing a b) schedule = 1%nat)
  ∧ (∀ m, m ∈ schedule →
          Match.result m = None ∧ Match.stage m = "round_robin"
          ∧ Match.team_a m ∈ teams ∧ Match.team_b m ∈ teams).
Proof.
  intros teams.
  apply (round_robin_complete teams BO1 sample_entropy).
  apply (bool_decide_unpack (NoDup (Team.id <$> teams))). reflexivity.
Defined.

(** ** Tiebreakers and final ranking *)

Section ranking.
Context `{PyRuntime}.
Import TiebreakerResult.

Lemma insert_desc_perm {A} (key : A → Z) x (l : list A) :
  insert_desc key x l ≡ₚ x :: l.
Proof.
  induction l as [|y l IH]; simpl; [done |].
  case_bool_decide; [| done]. rewrite IH. apply perm_swap.
Qed.

Lemma sorted_desc_perm {A} (key : A → Z) (l : list A) : sorted_desc key l ≡ₚ l.
Proof.
  induction l as [|x l IH]; [done |].
  unfold sorted_desc in *. simpl. rewrite insert_desc_perm. by f_equiv.
Qed.

Lemma insert_desc_sorted {A} (key : A → Z) x (l : list A) :
  StronglySorted (by_key_desc key) l →
  StronglySorted (by_key_desc key) (insert_desc key x l).
Proof.
  induction 1 as [|y l Hl IH Hy]; simpl.
  - repeat constructor.
  - case_bool_decide as Hxy.
    + constructor; [done |].
      rewrite (insert_desc_perm key x l).
      constructor; [unfold by_key_desc; lia | done].
    + constructor; [by constructor |].
      constructor; [unfold by_key_desc; lia |].
      eapply Forall_impl; [exact Hy |]. unfold by_key_desc. intros z ?. lia.
Qed.

Lemma sorted_desc_sorted {A} (key : A → Z) (l : list A) :
  StronglySorted (by_key_desc key) (sorted_desc key l).
Proof.
  induction l as [|x l IH]; [constructor |].
  unfold sorted_desc in *. simpl. by apply insert_desc_sorted.
Qed.

Lemma flat_sorted {A} (key : A → Z) k (l : list A) :
  Forall (λ x, key x = k) l → StronglySorted (by_key_desc key) l.
Proof.
  induction 1 as [|x l Hx Hl IH]; constructor; [done |].
  eapply Forall_impl; [exact Hl |]. unfold by_key_desc. intros z ?. lia.
Qed.

(** *** The rules *)

Lemma two_way_perm t1 t2 :
  ordered_teams (HeadToHeadTiebreaker._resolve_two_way t1 t2) ≡ₚ [t1; t2].
Proof.
  unfold HeadToHeadTiebreaker._resolve_two_way.
  repeat case_bool_decide; simpl; [done | apply perm_swap | done].
Qed.

Lemma multi_way_perm teams :
  ordered_teams (HeadToHeadTiebreaker._resolve_multi_way teams) ≡ₚ teams.
Proof.
  unfold HeadToHeadTiebreaker._resolve_multi_way.
  case_match; apply sorted_desc_perm.
Qed.

Lemma head_to_head_perm tied all :
  ordered_teams (HeadToHeadTiebreaker.resolve tied all) ≡ₚ tied.
Proof.
  unfold HeadToHeadTiebreaker.resolve.
  destruct tied as [|t1 [|t2 [|t3 tied]]];
    auto using two_way_perm, multi_way_perm.
Qed.

Lemma strength_of_victory_perm tied all :
  ordered_teams (StrengthOfVictoryTiebreaker.resolve tied all) ≡ₚ tied.
Proof.
  unfold StrengthOfVictoryTiebreaker.resolve.
  case_match; simpl; apply sorted_desc_perm.
Qed.

Lemma rule_perm rule tied all rng :
  ordered_teams (TiebreakerRule_resolve rule tied all rng).1 ≡ₚ tied.
Proof.
  destruct rule; simpl.
  - apply head_to_head_perm.
  - apply strength_of_victory_perm.
  - apply rng_shuffle_perm.
Qed.

Lemma apply_rules_resolved rules current all rng :
  resolved (TiebreakerChain.apply_rules rules current all rng).1 = true
  ∧ ordered_teams (TiebreakerChain.apply_rules rules current all rng).1 ≡ₚ current.
Proof.
  revert current rng. induction rules as [|rule rules IH]; intros current rng.
  - done.
  - simpl.
    destruct (resolved (TiebreakerRule_resolve rule current all rng).1) eqn:E.
    + split; [done | apply rule_perm].
    + destruct (IH (ordered_teams (TiebreakerRule_resolve rule current all rng).1)
                   (TiebreakerRule_resolve rule current all rng).2) as [Hres Hperm].
      split; [done |]. rewrite Hperm. apply rule_perm.
Qed.

Lemma chain_resolved rules tied all rng :
  resolved (TiebreakerChain.resolve rules tied all rng).1 = true
  ∧ ordered_teams (TiebreakerChain.resolve rules tied all rng).1 ≡ₚ tied.
Proof.
  unfold TiebreakerChain.resolve. case_bool_decide; [done |].
  apply apply_rules_resolved.
Qed.

(** *** Grouping by wins *)

Implicit Types (d : odict Z (list TeamStanding.t)) (s : TeamStanding.t).

Lemma od_alter_snoc_join d k s :
  is_Some (od_get k d) →
  mjoin (od_values (od_alter (λ l, l ++ [s]) k d)) ≡ₚ s :: mjoin (od_values d).
Proof.
  unfold od_values. induction d as [|[k' g'] d IH]; simpl.
  - by intros [? ?].
  - case_decide; simpl.
    + intros _. rewrite <- app_assoc. simpl.
      by rewrite <- Permutation_middle.
    + intros Hsome. rewrite (IH Hsome). by rewrite <- Permutation_middle.
Qed.

Lemma od_alter_snoc_keyed d s :
  keyed_by_wins d →
  keyed_by_wins (od_alter (λ l, l ++ [s]) (TeamStanding.wins s) d).
Proof.
  unfold keyed_by_wins. induction 1 as [|[k g] d Hg Hd IH]; simpl; [constructor |].
  case_decide; constructor; simpl in *; auto.
  apply Forall_app. split; [done |]. by constructor.
Qed.

Lemma group_by_wins_spec (l : list TeamStanding.t) d :
  NoDup (od_keys d) → keyed_by_wins d →
  let d' := foldl (λ by_wins standing,
                     defaultdict_append (TeamStanding.wins standing) standing by_wins)
                  d l in
  NoDup (od_keys d') ∧ keyed_by_wins d'
  ∧ mjoin (od_values d') ≡ₚ mjoin (od_values d) ++ l.
Proof.
  revert d. induction l as [|s l IH]; intros d Hnd Hkeyed; simpl.
  - by rewrite app_nil_r.
  - unfold defaultdict_append at 2 4 6.
    destruct (od_get (TeamStanding.wins s) d) as [g|] eqn:E.
    + destruct (IH (od_alter (λ l, l ++ [s]) (TeamStanding.wins s) d))
        as (Hnd' & Hk' & Hp').
      { by rewrite od_alter_keys. }
      { by apply od_alter_snoc_keyed. }
      repeat split; [done | done |].
      rewrite Hp', od_alter_snoc_join by eauto.
      by rewrite <- Permutation_middle.
    + rewrite od_set_fresh by done.
      destruct (IH (d ++ [(TeamStanding.wins s, [s])])) as (Hnd' & Hk' & Hp').
      { unfold od_keys. rewrite fmap_app. simpl.
        apply NoDup_app. repeat split; [done | | apply NoDup_singleton].
        intros k Hk Hk'. apply list_elem_of_singleton in Hk' as ->.
        by apply od_get_None_keys in E. }
      { apply Forall_app. split; [done |]. repeat constructor. }
      repeat split; [done | done |].
      rewrite Hp'. unfold od_values. rewrite fmap_app, join_app. simpl.
      rewrite <- !app_assoc. done.
Qed.

Lemma groups_of_keys d :
  NoDup (od_keys d) → group_of d <$> od_keys d = od_values d.
Proof.
  unfold od_keys, od_values, group_of. induction d as [|[k g] d IH]; [done |].
  rewrite !fmap_cons. intros Hnd. apply NoDup_cons in Hnd as [Hk Hnd].
  simpl. rewrite decide_True by done. simpl. f_equal.
  rewrite <- IH by done. apply list_fmap_ext. intros i k' Hk'.
  apply list_elem_of_lookup_2 in Hk'.
  rewrite decide_False; [done |]. by intros ->.
Qed.

Lemma group_of_keyed d k : keyed_by_wins d → Forall (λ s, TeamStanding.wins s = k) (group_of d k).
Proof.
  unfold group_of. induction 1 as [|[k' g] d Hg Hd IH]; simpl; [constructor |].
  case_decide; [by subst | done].
Qed.

(** *** The ranking *)

Lemma bind_as_join {A B} (f : A → list B) (l : list A) : l ≫= f = mjoin (f <$> l).
Proof. by rewrite list_join_bind, list_fmap_bind. Qed.

Lemma resolve_groups_perm all d keys rng :
  (Tournament.resolve_groups all d keys rng).1 ≡ₚ keys ≫= group_of d.
Proof.
  revert rng. induction keys as [|k keys IH]; intros rng; [done |].
  simpl. rewrite IH. apply Permutation_app; [| done].
  case_bool_decide; [done |]. simpl. apply chain_resolved.
Qed.

Lemma resolve_groups_sorted all d keys rng :
  keyed_by_wins d → StronglySorted (by_key_desc id) keys →
  StronglySorted (by_key_desc TeamStanding.wins)
                 (Tournament.resolve_groups all d keys rng).1.
Proof.
  intros Hkeyed. revert rng.
  induction keys as [|k keys IH]; intros rng Hsorted; [constructor |].
  apply StronglySorted_cons in Hsorted as [Hk Hsorted].
  simpl. set (ordered := if bool_decide _ then _ else _).
  assert (ordered.1 ≡ₚ group_of d k) as Hperm.
  { subst ordered. case_bool_decide; [done |]. simpl. apply chain_resolved. }
  assert (Forall (λ s, TeamStanding.wins s = k) ordered.1) as Hflat.
  { rewrite Hperm. by apply group_of_keyed. }
  apply StronglySorted_app_2; [| by eapply flat_sorted | by apply IH].
  intros s1 s2 Hs1 Hs2.
  rewrite Forall_forall in Hflat. apply Hflat in Hs1.
  rewrite resolve_groups_perm in Hs2.
  apply list_elem_of_bind in Hs2 as (k' & Hs2 & Hk').
  pose proof (group_of_keyed d k' Hkeyed) as Hflat'.
  rewrite Forall_forall in Hflat'. apply Hflat' in Hs2.
  rewrite Forall_forall in Hk. apply Hk in Hk'.
  unfold by_key_desc in *. simpl in *. lia.
Qed.

Lemma resolve_standings_perm (self : Tournament.t) (rng : rng_state) :
  (Tournament.resolve_standings self rng).1 ≡ₚ od_values (Tournament.standings self).
Proof.
  unfold Tournament.resolve_standings.
  destruct (group_by_wins_spec (od_values (Tournament.standings self)) [])
    as (Hnd & Hkeyed & Hperm); [constructor | constructor |].
  fold (Tournament.group_by_wins self) in Hnd, Hkeyed, Hperm.
  rewrite resolve_groups_perm, bind_as_join.
  rewrite (sorted_desc_perm id (od_keys (Tournament.group_by_wins self))).
  rewrite groups_of_keys by done. by rewrite Hperm.
Qed.

(** C2. [resolve_standings] returns a permutation of the standings of the
    ledger (each exactly once); a standing with strictly more wins than
    another comes strictly earlier; and the tiebreaker chain it uses answers
    every group with [resolved = True] and a reordering of that group. *)
Theorem resolve_standings_total_order (self : Tournament.t) (rng : rng_state) :
  let ranking := (Tournament.resolve_standings self rng).1 in
  ranking ≡ₚ od_values (Tournament.standings self)
  ∧ (∀ i j si sj,
       ranking !! i = Some si → ranking !! j = Some sj →
       TeamStanding.wins si > TeamStanding.wins sj → (i < j)%nat)
  ∧ (∀ group all rng',
       let r := TiebreakerChain.resolve (TiebreakerChain.init None) group all rng' in
       resolved r.1 = true ∧ ordered_teams r.1 ≡ₚ group).
Proof.
  intros ranking. subst ranking. unfold Tournament.resolve_standings.
  destruct (group_by_wins_spec (od_values (Tournament.standings self)) [])
    as (Hnd & Hkeyed & Hperm); [constructor | constructor |].
  fold (Tournament.group_by_wins self) in Hnd, Hkeyed, Hperm.
  split; [| split].
  - apply resolve_standings_perm.
  - intros i j si sj Hi Hj Hwins.
    pose proof (resolve_groups_sorted (Tournament.standings self)
                  (Tournament.group_by_wins self)
                  (sorted_desc id (od_keys (Tournament.group_by_wins self))) rng
                  Hkeyed (sorted_desc_sorted id _)) as Hsorted.
    destruct (decide (i < j)%nat) as [| Hge]; [done | exfalso].
    destruct (decide (i = j)) as [-> | Hne]; [simplify_eq; lia |].
    assert (j < i)%nat as Hlt by lia.
    apply lookup_lt_Some in Hi as Hilen.
    rewrite <- (take_drop_middle _ _ _ Hi) in Hsorted, Hj.
    apply StronglySorted_app_1_elem_of with (x1 := sj) (x2 := si) in Hsorted.
    + unfold by_key_desc in Hsorted. lia.
    + rewrite lookup_app_l in Hj by (rewrite length_take; lia).
      by eapply list_elem_of_lookup_2.
    + set_solver.
  - intros group all rng'. apply chain_resolved.
Qed.
End ranking.

(** ** Match formats in the bracket *)

Section formats.
Context `{PyRuntime}.
Import PlayoffBracket.

Lemma formats_ok_set b p m :
  formats_ok b → Match.format m = position_format p →
  formats_ok (set_matches b (od_set p m (matches b))).
Proof.
  intros Hb Hm q m'. simpl. rewrite od_get_set.
  case_decide; [by intros [= <-]; subst | apply Hb].
Qed.

Lemma formats_ok_set_or_create b p team is_team_a e :
  formats_ok b →
  formats_ok (_set_or_create_match b p team is_team_a (position_format p) e).1.
Proof.
  intros Hb. unfold _set_or_create_match.
  destruct (od_get p (matches b)) as [m|] eqn:E; simpl.
  - apply formats_ok_set; [done |]. destruct is_team_a; simpl; by apply Hb.
  - by apply formats_ok_set.
Qed.

Lemma formats_ok_eliminate b team : formats_ok b → formats_ok (eliminate b team).
Proof. done. Qed.

Lemma formats_ok_record b p r e :
  formats_ok b → formats_ok (record_result b p r e).1.
Proof.
  intros Hb. unfold record_result.
  assert (formats_ok (set_results b (od_set p r (results b)))) as Hb' by done.
  revert Hb'. generalize (set_results b (od_set p r (results b))). clear Hb b.
  intros b Hb.
  destruct p; unfold _update_bracket_progression, route, advance; simpl;
    repeat first
      [ apply formats_ok_eliminate
      | apply (formats_ok_set_or_create _ UPPER_SF_1)
      | apply (formats_ok_set_or_create _ UPPER_SF_2)
      | apply (formats_ok_set_or_create _ UPPER_FINAL)
      | apply (formats_ok_set_or_create _ LOWER_R1_1)
      | apply (formats_ok_set_or_create _ LOWER_R1_2)
      | apply (formats_ok_set_or_create _ LOWER_R2_1)
      | apply (formats_ok_set_or_create _ LOWER_R2_2)
      | apply (formats_ok_set_or_create _ LOWER_SF)
      | apply (formats_ok_set_or_create _ LOWER_FINAL)
      | apply (formats_ok_set_or_create _ GRAND_FINAL) ];
    done.
Qed.

Lemma formats_ok_seed b seeded_teams e b' e' :
  formats_ok b → seed_teams b seeded_teams e = (Ok (), b', e') → formats_ok b'.
Proof.
  intros Hb. unfold seed_teams.
  do 9 (destruct seeded_teams as [|? seeded_teams]; try done).
  intros [= <- _]. unfold put_new_match, new_match.
  cbn [fst snd matches set_matches set_teams].
  intros p m. cbn [matches set_matches set_teams]. rewrite !od_get_set.
  repeat (case_decide; [by intros [= <-]; subst |]). apply Hb.
Qed.

(** C8, as the code has it.  In every bracket reached by seeding and by
    recording results, the matches at the Upper Final, the Lower Semifinal,
    the Lower Final and the Grand Final are best-of-5 and the matches at all
    other positions (quarterfinals, upper semifinals, lower rounds 1 and 2)
    are best-of-3. *)
Theorem bracket_formats (b : t) (p : BracketPosition) (m : Match.t) :
  bracket_reachable b →
  od_get p (matches b) = Some m →
  Match.format m
  = match p with
    | UPPER_FINAL | LOWER_SF | LOWER_FINAL | GRAND_FINAL => BO5
    | _ => BO3
    end.
Proof.
  intros Hreach. revert p m.
  change (formats_ok b).
  induction Hreach as [| b l e b' e' _ IH Hseed | b p r e _ IH].
  - intros p m. done.
  - by eapply formats_ok_seed.
  - by apply formats_ok_record.
Qed.

Lemma eliminate_mem b team :
  team_set_mem team (eliminated (eliminate b team)) = true.
Proof.
  unfold eliminate, team_set_add. simpl.
  destruct (team_set_mem team (eliminated b)) eqn:E; [done |].
  unfold team_set_mem. rewrite existsb_app. simpl.
  unfold Team.eqb. rewrite bool_decide_eq_true_2 by done.
  by rewrite orb_true_r.
Qed.

Lemma lower_round_1_eliminates : loser_eliminated_at LOWER_R1_1.
Proof. intros b r e. apply eliminate_mem. Qed.
End formats.

Lemma sample_bracket_reachable : bracket_reachable sample_bracket.
Proof.
  unfold sample_bracket. cbv zeta.
  do 3 apply reachable_record.
  set (seeded := PlayoffBracket.seed_teams PlayoffBracket.new
                   (take 8 sample_teams) sample_entropy).
  apply (reachable_seed PlayoffBracket.new (take 8 sample_teams) sample_entropy
           seeded.1.2 seeded.2 reachable_new).
  reflexivity.
Qed.

Lemma bracket_formats_witness :
  ∃ m1 m2,
    od_get LOWER_R1_1 (PlayoffBracket.matches sample_bracket) = Some m1
    ∧ Match.format m1 = BO3
    ∧ od_get UPPER_FINAL (PlayoffBracket.matches sample_bracket) = Some m2
    ∧ Match.format m2 = BO5.
Proof.
  eexists _, _. split; [vm_compute; reflexivity |]. split.
  - eapply (bracket_formats sample_bracket LOWER_R1_1);
      [apply sample_bracket_reachable | vm_compute; reflexivity].
  - split; [vm_compute; reflexivity |].
    eapply (bracket_formats sample_bracket UPPER_FINAL);
      [apply sample_bracket_reachable | vm_compute; reflexivity].
Defined.

(** C8, as stated, fails: the loser of Lower Round 1 is eliminated, yet the
    match played there is a best-of-3. *)
Lemma elimination_decider_best_of_3 :
  ¬ (∀ (b : PlayoffBracket.t) (p : BracketPosition) (m : Match.t),
       bracket_reachable b →
       od_get p (PlayoffBracket.matches b) = Some m →
       p = GRAND_FINAL ∨ loser_eliminated_at p →
       Match.format m = BO5).
Proof.
  intros Hclaim.
  assert (∃ m, od_get LOWER_R1_1 (PlayoffBracket.matches sample_bracket) = Some m
               ∧ Match.format m = BO3) as (m & Hm & Hfmt).
  { eexists. split; vm_compute; reflexivity. }
  specialize (Hclaim sample_bracket LOWER_R1_1 m sample_bracket_reachable Hm
                (or_intror lower_round_1_eliminates)).
  congruence.
Qed.

(** ** Playing the bracket *)

Section bracket_run.
Context `{PyRuntime}.
Import PlayoffBracket SimulationEngine.

#[local] Arguments simulate_match : simpl never.
#[local] Arguments Team.eqb : simpl never.
#[local] Arguments seed_teams : simpl never.
#[local] Arguments record_result {_} _ _ _ _ /.
#[local] Arguments _update_bracket_progression {_} _ _ _ _ /.
#[local] Arguments route {_} _ _ _ _ _ _ _ _ _ _ /.
#[local] Arguments advance {_} _ _ _ _ _ _ _ /.
#[local] Arguments _set_or_create_match {_} _ _ _ _ _ _ /.
#[local] Arguments put_new_match {_} _ _ _ _ _ _ _ /.
#[local] Arguments new_match {_} _ _ _ _ _ /.
#[local] Arguments eliminate _ _ /.
#[local] Arguments set_matches _ _ /.
#[local] Arguments set_results _ _ /.
#[local] Arguments set_eliminated _ _ /.
#[local] Arguments set_teams _ _ /.
#[local] Arguments set_champion _ _ /.
#[local] Arguments set_runner_up _ _ /.
#[local] Arguments set_third_place _ _ /.
#[local] Arguments set_fourth_place _ _ /.
#[local] Arguments team_set_add _ _ /.
#[local] Arguments team_set_mem _ _ /.

Lemma simulate_match_sides self m rng :
  sides (simulate_match self m rng).1 (Match.team_a m) (Match.team_b m).
Proof.
  unfold simulate_match, sides.
  destruct (Match.format m); cbn [fst snd];
    repeat case_match; cbn [MatchResult.winner MatchResult.loser]; auto.
Qed.

(** The loop of [simulate_match] stops because a side has won, never for
    lack of fuel. *)
Lemma play_games_exit fuel p g a b rng :
  (Z.to_nat (g - a) + Z.to_nat (g - b) ≤ fuel)%nat →
  ¬ ((play_games fuel p g a b rng).1.1 < g ∧ (play_games fuel p g a b rng).1.2 < g).
Proof.
  revert a b rng. induction fuel as [|fuel IH]; intros a b rng Hfuel; simpl.
  - lia.
  - destruct (bool_decide (a < g) && bool_decide (b < g)) eqn:E.
    + apply andb_true_iff in E as [Ha Hb].
      apply bool_decide_eq_true in Ha, Hb.
      destruct (Qlt_bool _ _); apply IH; lia.
    + apply andb_false_iff in E as [E | E];
        apply bool_decide_eq_false in E; simpl; lia.
Qed.

Lemma certain_draw p rng :
  (1 <= p)%Q → Qlt_bool (rng_random rng).1 p = true.
Proof.
  intros Hp. unfold Qlt_bool. apply negb_true_iff.
  destruct (Qle_bool p (rng_random rng).1) eqn:E; [| done].
  apply Qle_bool_iff in E.
  destruct (rng_random_unit rng) as [_ Hlt].
  exfalso. apply (Qlt_irrefl 1).
  eapply Qle_lt_trans; [| exact Hlt]. by eapply Qle_trans.
Qed.

Lemma play_games_certain fuel p g a rng :
  (1 <= p)%Q → 0 < g → a <= g → (Z.to_nat (g - a) ≤ fuel)%nat →
  (play_games fuel p g a 0 rng).1 = (g, 0).
Proof.
  intros Hp Hg. revert a rng.
  induction fuel as [|fuel IH]; intros a rng Ha Hfuel; simpl.
  - f_equal. lia.
  - rewrite (bool_decide_eq_true_2 (0 < g)) by done. rewrite andb_true_r.
    case_bool_decide.
    + rewrite certain_draw by done. apply IH; lia.
    + simpl. f_equal. lia.
Qed.

(** An engine whose table gives team A every game. *)
Lemma certain_engine self :
  (∀ a b, (1 <= WinRateMatrix.get_win_probability (win_rates self) a b)%Q) →
  team_a_always_wins self.
Proof.
  intros Hp m rng. unfold simulate_match.
  specialize (Hp (Team.id (Match.team_a m)) (Team.id (Match.team_b m))).
  destruct (Match.format m); cbn [fst snd].
  - by rewrite certain_draw.
  - rewrite play_games_certain by (done || lia). done.
  - rewrite play_games_certain by (done || lia). done.
Qed.

Lemma played_intro self m rng r rng' :
  simulate_match self m rng = (r, rng') →
  played self (Match.team_a m) (Match.team_b m) r.
Proof. intros Hsim. exists m, rng. by rewrite Hsim. Qed.

Lemma played_sides self a b r : played self a b r → sides r a b.
Proof. intros (m & rng & <- & <- & <-). apply simulate_match_sides. Qed.

Lemma play_position_play self b rng e p m r rng' :
  od_get p (matches b) = Some m →
  od_get p (results b) = None →
  Team.eqb (Match.team_a m) (Match.team_b m) = false →
  simulate_match self m rng = (r, rng') →
  play_position self (b, rng, e) p
  = ((record_result b p r e).1, rng', (record_result b p r e).2).
Proof.
  intros Hm Hr Hne Hsim. unfold play_position, od_mem.
  cbn [fst snd]. by rewrite Hm, Hr, Hne, Hsim.
Qed.

(** *** The pool of teams still playing *)

Lemma insert_swap_perm {A} (l : list A) j b x :
  l !! j = Some b → b :: <[j := x]> l ≡ₚ x :: l.
Proof.
  revert j. induction l as [|y l IH]; intros [|j] Hj; simplify_eq/=.
  - apply perm_swap.
  - rewrite perm_swap, (IH j Hj). apply perm_swap.
Qed.

Lemma list_swap_perm {A} (l : list A) i j a b :
  i ≠ j → l !! i = Some a → l !! j = Some b →
  <[i := b]> (<[j := a]> l) ≡ₚ l.
Proof.
  revert i j. induction l as [|x l IH]; intros [|i] [|j] Hij Hi Hj;
    simplify_eq/=.
  - by apply insert_swap_perm.
  - by apply insert_swap_perm.
  - f_equiv. apply IH; [lia | done | done].
Qed.

(** Replacing the two sides of a match by its winner and its loser only
    reorders the pool. *)
Lemma play_perm (pool : list Team.t) i j a b r :
  i ≠ j → pool !! i = Some a → pool !! j = Some b → sides r a b →
  <[i := MatchResult.winner r]> (<[j := MatchResult.loser r]> pool) ≡ₚ pool.
Proof.
  intros Hij Hi Hj [[-> ->] | [-> ->]].
  - rewrite (list_insert_id pool j b) by done. by rewrite list_insert_id.
  - by apply list_swap_perm.
Qed.

Lemma pool_eqb_false (pool seeds : list Team.t) i j x y :
  NoDup (Team.id <$> seeds) → pool ≡ₚ seeds →
  pool !! i = Some x → pool !! j = Some y → i ≠ j →
  Team.eqb x y = false.
Proof.
  intros Hnd Hperm Hi Hj Hij. apply bool_decide_eq_false. intros Heq.
  apply Hij. rewrite <- Hperm in Hnd.
  eapply (NoDup_lookup _ i j (Team.id x) Hnd); rewrite list_lookup_fmap.
  - by rewrite Hi.
  - rewrite Hj. simpl. by rewrite Heq.
Qed.

(** Settles the tests [Team.eqb x y] between two teams of the pool. *)
Ltac pool_eqb Hnd Hpool :=
  repeat match goal with
  | |- context [Team.eqb ?x ?y] =>
      lazymatch type of Hpool with
      | ?pool ≡ₚ _ =>
          let i := index_of x pool in
          let j := index_of y pool in
          rewrite (pool_eqb_false pool _ i j x y Hnd Hpool eq_refl eq_refl
                     ltac:(discriminate))
      end
  end.

(** One round of the loop on an explicit bracket: the match is looked up,
    its outcome [r] named, and its two sides give way to the winner and the
    loser in the pool. *)
Ltac play Hnd Hpool r Hplayed :=
  lazymatch goal with
  | |- context [play_position ?self (?B, ?rng, ?e) ?p] =>
      let m := eval simpl in (od_get p (matches B)) in
      lazymatch m with
      | Some ?M =>
          let rng' := fresh "rng" in
          let Hsim := fresh "Hsim" in
          destruct (simulate_match self M rng) as [r rng'] eqn:Hsim;
          pose proof (played_intro self M rng r rng' Hsim) as Hplayed;
          simpl in Hplayed;
          rewrite (play_position_play self B rng e p M r rng'
                     eq_refl eq_refl
                     ltac:(simpl; pool_eqb Hnd Hpool; reflexivity) Hsim);
          clear Hsim;
          lazymatch type of Hpool with
          | ?pool ≡ₚ ?seeds =>
              lazymatch type of Hplayed with
              | played _ ?a ?b _ =>
                  let i := index_of a pool in
                  let j := index_of b pool in
                  let Hp := fresh "Hpool" in
                  pose proof (perm_trans
                                (play_perm pool i j a b r ltac:(discriminate)
                                   eq_refl eq_refl
                                   (played_sides self a b r Hplayed))
                                Hpool) as Hp;
                  simpl in Hp; clear Hpool; rename Hp into Hpool
              end
          end;
          simpl; pool_eqb Hnd Hpool; simpl
      end
  end.

#[local] Arguments bracket_course : simpl never.

Lemma bracket_run self s1 s2 s3 s4 s5 s6 s7 s8 rng e :
  NoDup (Team.id <$> [s1; s2; s3; s4; s5; s6; s7; s8]) →
  let seeded := seed_teams new [s1; s2; s3; s4; s5; s6; s7; s8] e in
  bracket_course self s1 s2 s3 s4 s5 s6 s7 s8
    (simulate_playoffs self seeded.1.2 rng seeded.2).1.1.
Proof.
  intros Hnd seeded. subst seeded.
  enough (∃ x, simulate_playoffs self
                 (seed_teams new [s1; s2; s3; s4; s5; s6; s7; s8] e).1.2 rng
                 (seed_teams new [s1; s2; s3; s4; s5; s6; s7; s8] e).2 = x
               ∧ bracket_course self s1 s2 s3 s4 s5 s6 s7 s8 x.1.1)
    as (x & <- & Hx) by exact Hx.
  assert ([s1; s2; s3; s4; s5; s6; s7; s8] ≡ₚ [s1; s2; s3; s4; s5; s6; s7; s8])
    as Hpool by reflexivity.
  unfold simulate_playoffs, match_order, seed_teams. simpl.
  play Hnd Hpool r1 P1. play Hnd Hpool r2 P2.
  play Hnd Hpool r3 P3. play Hnd Hpool r4 P4.
  play Hnd Hpool r5 P5. play Hnd Hpool r6 P6.
  play Hnd Hpool r7 P7. play Hnd Hpool r8 P8.
  play Hnd Hpool r9 P9. play Hnd Hpool r10 P10.
  play Hnd Hpool r11 P11. play Hnd Hpool r12 P12.
  play Hnd Hpool r13 P13. play Hnd Hpool r14 P14.
  eexists. split; [reflexivity |].
  exists r1, r2, r3, r4, r5, r6, r7, r8, r9, r10, r11, r12, r13, r14.
  repeat split; try assumption.
  rewrite <- Hpool. clear. solve_perm.
Qed.

(** C3. A bracket seeded with eight different teams, played by an engine
    whose every match goes to team A, ends with a result at each of the
    fourteen positions and with seed 1 as champion; it is complete. *)
Theorem team_a_sweep self s1 s2 s3 s4 s5 s6 s7 s8 rng e :
  NoDup (Team.id <$> [s1; s2; s3; s4; s5; s6; s7; s8]) →
  team_a_always_wins self →
  let seeded := seed_teams new [s1; s2; s3; s4; s5; s6; s7; s8] e in
  let final := (simulate_playoffs self seeded.1.2 rng seeded.2).1.1 in
  seeded.1.1 = Ok ()
  ∧ (∀ p : BracketPosition, is_Some (od_get p (results final)))
  ∧ champion final = Some s1
  ∧ is_complete final = true.
Proof.
  intros Hnd Hwins seeded final.
  destruct (bracket_run self s1 s2 s3 s4 s5 s6 s7 s8 rng e Hnd)
    as (r1 & r2 & r3 & r4 & r5 & r6 & r7 & r8 & r9 & r10 & r11 & r12 & r13 & r14
        & (P1 & _) & _ & (P7 & _) & _ & P11 & _ & _ & P14
        & Hres & _ & Hchamp & _).
  fold seeded in Hres, Hchamp. fold final in Hres, Hchamp.
  assert (∀ a b r, played self a b r → MatchResult.winner r = a) as Hwin.
  { intros a b r (m & rng' & <- & _ & <-). apply Hwins. }
  split; [done |]. split; [| split].
  - intros p. rewrite Hres. destruct p; simpl; eauto.
  - rewrite Hchamp. f_equal.
    rewrite (Hwin _ _ _ P14), (Hwin _ _ _ P11), (Hwin _ _ _ P7).
    apply (Hwin _ _ _ P1).
  - unfold is_complete. by rewrite Hchamp.
Qed.
End bracket_run.

Lemma team_a_sweep_witness :
  let self := sample_engine (WinRateMatrix.uniform 1) in
  let seeded := PlayoffBracket.seed_teams PlayoffBracket.new (take 8 sample_teams)
                  sample_entropy in
  let final := (SimulationEngine.simulate_playoffs self seeded.1.2 (Random 7)
                  seeded.2).1.1 in
  seeded.1.1 = Ok ()
  ∧ (∀ p : BracketPosition, is_Some (od_get p (PlayoffBracket.results final)))
  ∧ PlayoffBracket.champion final = Some (sample_team 1 "A")
  ∧ PlayoffBracket.is_complete final = true.
Proof.
  intros self.
  apply (team_a_sweep self
           (sample_team 1 "A") (sample_team 2 "B") (sample_team 3 "C")
           (sample_team 4 "D") (sample_team 5 "E") (sample_team 6 "F")
           (sample_team 7 "G") (sample_team 8 "H") (Random 7) sample_entropy).
  - apply (bool_decide_unpack (NoDup (Team.id <$> take 8 sample_teams))).
    reflexivity.
  - apply certain_engine. intros a b.
    unfold WinRateMatrix.get_win_probability. cbn. rewrite lookup_empty.
    apply Qle_refl.
Defined.

(** ** One trial *)

Section trial.
Context `{PyRuntime}.
Import SimulationEngine.

(** *** The ledger stays well formed *)

Lemma add_team_wf d team : standings_wf d → standings_wf (Standings.add_team d team).
Proof.
  intros [Hnd Hkeyed]. split.
  - by apply od_set_keys_NoDup.
  - by apply (Forall_entries_set
                (λ k v, Team.id (TeamStanding.team v) = k)).
Qed.

Lemma add_teams_wf teams d :
  standings_wf d → standings_wf (foldl Standings.add_team d teams).
Proof.
  revert d. induction teams as [|x teams IH]; intros d Hd; [done |].
  simpl. apply IH. by apply add_team_wf.
Qed.

Lemma standings_copy_wf d : standings_wf d → standings_wf (Standings.copy d).
Proof.
  intros [_ Hkeyed]. unfold Standings.copy.
  assert (standings_wf Standings.empty) as Hacc by (split; constructor).
  revert Hacc. generalize Standings.empty.
  induction Hkeyed as [|[k v] d Hkv Hd IH]; intros acc Hacc; [done |].
  simpl. apply IH. destruct Hacc as [Hnd Hacc]. split.
  - by apply od_set_keys_NoDup.
  - by apply (Forall_entries_set
                (λ k v, Team.id (TeamStanding.team v) = k)).
Qed.

Lemma record_match_result_wf d winner loser :
  standings_wf d → standings_wf (Standings.record_match_result d winner loser).2.
Proof.
  intros Hd. unfold Standings.record_match_result.
  repeat case_match; try done. simpl. destruct Hd as [Hnd Hkeyed]. split.
  - by rewrite !od_alter_keys.
  - apply (Forall_entries_alter (λ k v, Team.id (TeamStanding.team v) = k)).
    { intros k v. unfold TeamStanding.record_loss. by case_match. }
    apply (Forall_entries_alter (λ k v, Team.id (TeamStanding.team v) = k)).
    { intros k v. unfold TeamStanding.record_win. by case_match. }
    done.
Qed.

Lemma tournament_copy_wf t :
  standings_wf (Tournament.standings t) →
  standings_wf (Tournament.standings (Tournament.copy t)).
Proof.
  intros Ht. unfold Tournament.copy, Tournament.init. simpl.
  case_bool_decide; [apply add_teams_wf |]; by apply standings_copy_wf.
Qed.

Lemma record_round_robin_wf t i r :
  standings_wf (Tournament.standings t) →
  standings_wf (Tournament.standings (Tournament.record_round_robin_result t i r).2).
Proof.
  intros Ht. unfold Tournament.record_round_robin_result.
  case_match; [| done]. simpl. by apply record_match_result_wf.
Qed.

Lemma simulate_round_robin_wf self t remaining rng :
  standings_wf (Tournament.standings t) →
  standings_wf
    (Tournament.standings (simulate_round_robin self t remaining rng).1.2).
Proof.
  revert t rng. induction remaining as [|[i m] remaining IH]; intros t rng Ht.
  - done.
  - simpl. case_match.
    + apply IH. by apply record_round_robin_wf.
    + simpl. by apply record_round_robin_wf.
Qed.

Lemma wf_team_ids d :
  standings_wf d → NoDup (Team.id <$> (TeamStanding.team <$> od_values d)).
Proof.
  intros [Hnd Hkeyed].
  replace (Team.id <$> (TeamStanding.team <$> od_values d)) with (od_keys d);
    [done |].
  unfold od_keys, od_values. clear Hnd.
  induction Hkeyed as [|[k v] d Hkv Hd IH]; [done |].
  rewrite !fmap_cons. simpl in *. by rewrite IH, Hkv.
Qed.

(** The teams ranked by the regular season all have different ids. *)
Lemma regular_season_teams self seed final_standings t rng :
  standings_wf (Tournament.standings (tournament self)) →
  regular_season self seed = (Ok final_standings, t, rng) →
  NoDup (Team.id <$> (TeamStanding.team <$> final_standings)).
Proof.
  intros Hwf. unfold regular_season.
  set (rr := simulate_round_robin _ _ _ _).
  assert (standings_wf (Tournament.standings rr.1.2)) as Hrr.
  { apply simulate_round_robin_wf. by apply tournament_copy_wf. }
  destruct rr.1.1; [| done]. intros [= <- _ _].
  rewrite resolve_standings_perm. by apply wf_team_ids.
Qed.

(** *** What a finished trial went through *)

Lemma run_single_simulation_ok self seed e outcome e' :
  run_single_simulation self seed e = (Ok outcome, e') →
  ∃ final_standings t rng bracket,
    regular_season self seed = (Ok final_standings, t, rng)
    ∧ playoffs self t final_standings rng e = (Ok bracket, e')
    ∧ SimulationOutcome.final_placement outcome = final_placements bracket.
Proof.
  unfold run_single_simulation.
  destruct (regular_season self seed) as [[[fs | err] t] rng] eqn:Hrs;
    cbn [fst snd]; [| done].
  destruct (playoffs self t fs rng e) as [[bracket | err] e2] eqn:Hpo;
    cbn [fst snd]; [| done].
  intros [= <- <-]. by exists fs, t, rng, bracket.
Qed.

Lemma Ok_pair_inj {A B} (a c : A) (b d : B) :
  (Ok a, b) = (Ok c, d) → a = c ∧ b = d.
Proof. by intros [= -> ->]. Qed.

Lemma playoffs_ok self t final_standings rng e bracket e' :
  playoffs self t final_standings rng e = (Ok bracket, e') →
  ∃ t1 t2 t3 t4 t5 t6 t7 t8,
    take 8 final_standings = [t1; t2; t3; t4; t5; t6; t7; t8]
    ∧ let seeded :=
        PlayoffBracket.seed_teams PlayoffBracket.new
          [TeamStanding.team t1; TeamStanding.team t2; TeamStanding.team t3;
           TeamStanding.team t4; TeamStanding.team t5; TeamStanding.team t6;
           TeamStanding.team t7; TeamStanding.team t8] e in
      bracket = (simulate_playoffs self seeded.1.2 rng seeded.2).1.1.
Proof.
  unfold playoffs, Tournament.create_playoff_bracket.
  case_bool_decide as Hlen; [done |].
  rewrite take_take. change (8 `min` 8)%nat with 8%nat.
  assert (length (take 8 final_standings) ≤ 8)%nat as Hle
    by (rewrite length_take; lia).
  destruct (take 8 final_standings)
    as [|t1 [|t2 [|t3 [|t4 [|t5 [|t6 [|t7 [|t8 [|t9 rest]]]]]]]]];
    simpl in Hlen, Hle; try lia.
  set (seeded := PlayoffBracket.seed_teams PlayoffBracket.new
                   (TeamStanding.team <$> [t1; t2; t3; t4; t5; t6; t7; t8]) e).
  assert (seeded.1.1 = Ok ()) as -> by reflexivity.
  cbn [fst snd]. intros Heq. apply Ok_pair_inj in Heq as [<- _].
  by exists t1, t2, t3, t4, t5, t6, t7, t8.
Qed.

(** *** From the bracket to the placements *)

Lemma filter_ext_in {A} (P Q : A → Prop)
    `{!∀ x, Decision (P x), !∀ x, Decision (Q x)} (l : list A) :
  (∀ x, x ∈ l → P x ↔ Q x) → filter P l = filter Q l.
Proof.
  induction l as [|x l IH]; intros Hext; [done |].
  rewrite !filter_cons.
  rewrite IH by (intros y Hy; apply Hext; by right).
  destruct (decide (P x)) as [HP | HP], (decide (Q x)) as [HQ | HQ];
    try done; exfalso; apply (Hext x) in HP || apply (Hext x) in HQ;
    done || by left.
Qed.

(** Among teams of different names, a team is skipped by the last loop
    exactly when its name was placed before the loop started. *)
Lemma place_eliminated_fold (fp : gmap string Z) (k : Z) (l : list Team.t) :
  NoDup (Team.name <$> l) →
  foldl (λ (acc : gmap string Z * Z) team,
           match acc.1 !! Team.name team with
           | None => (<[Team.name team := acc.2]> acc.1, acc.2 + 1)
           | Some _ => acc
           end) (fp, k) l
  = foldl assign (fp, k) (filter (λ x, fp !! Team.name x = None) l).
Proof.
  revert fp k. induction l as [|x l IH]; intros fp k Hnd; [done |].
  rewrite fmap_cons in Hnd. apply NoDup_cons in Hnd as [Hx Hnd].
  cbn [foldl fst snd]. destruct (fp !! Team.name x) as [z|] eqn:E.
  - rewrite filter_cons_False by (rewrite E; done). by apply IH.
  - rewrite filter_cons_True by done. cbn [foldl]. unfold assign at 2.
    cbn [fst snd]. rewrite IH by done. f_equal.
    apply filter_ext_in. intros y Hy.
    rewrite lookup_insert_ne; [done |].
    intros Heq. apply Hx. rewrite Heq. apply list_elem_of_fmap. eauto.
Qed.

Lemma final_placements_spec (b : PlayoffBracket.t) c r t f x5 x6 x7 x8 :
  PlayoffBracket.champion b = Some c →
  PlayoffBracket.runner_up b = Some r →
  PlayoffBracket.third_place b = Some t →
  PlayoffBracket.fourth_place b = Some f →
  NoDup (Team.name <$> PlayoffBracket.eliminated b) →
  filter (λ x, Team.name x ∉ [Team.name c; Team.name r; Team.name t; Team.name f])
         (set_iter (PlayoffBracket.eliminated b))
  = [x5; x6; x7; x8] →
  final_placements b
  = list_to_map [(Team.name x8, 8); (Team.name x7, 7); (Team.name x6, 6);
                 (Team.name x5, 5); (Team.name f, 4); (Team.name t, 3);
                 (Team.name r, 2); (Team.name c, 1)].
Proof.
  intros Hc Hr Ht Hf Hnd Hfilter.
  unfold final_placements, place_eliminated. rewrite Hc, Hr, Ht, Hf.
  cbn [place_named].
  rewrite place_eliminated_fold by (by rewrite set_iter_perm).
  rewrite (list_filter_iff _
             (λ x, Team.name x
                   ∉ [Team.name c; Team.name r; Team.name t; Team.name f])).
  - rewrite Hfilter. reflexivity.
  - intros x. rewrite !lookup_insert_None, lookup_empty, !not_elem_of_cons.
    split.
    + intros ((((_ & ?) & ?) & ?) & ?).
      repeat split; try (by apply not_eq_sym). apply not_elem_of_nil.
    + intros (? & ? & ? & ? & _). repeat split; by apply not_eq_sym.
Qed.

(** A name that was not entered has no placement. *)
Lemma unlisted_name_unplaced (placement : gmap string Z) (l : list (string * Z))
    (name : string) :
  placement = list_to_map l → name ∉ l.*1 → placement !! name = None.
Proof. intros ->. apply not_elem_of_list_to_map_1. Qed.

(** When no two teams of the standings share a name, the teams ranked below
    the eighth bear none of the playoff teams' names. *)
Lemma outsiders_unplaced (placement : gmap string Z) (playoff : list Team.t)
    (final_standings : list TeamStanding.t) :
  playoff ≡ₚ TeamStanding.team <$> take 8 final_standings →
  (∀ name, name ∉ Team.name <$> playoff → placement !! name = None) →
  NoDup (Team.name <$> (TeamStanding.team <$> final_standings)) →
  Forall (λ s, placement !! Team.name (TeamStanding.team s) = None)
         (drop 8 final_standings).
Proof.
  intros Hperm Hnone Hnd. apply Forall_forall. intros s Hs. apply Hnone.
  rewrite Hperm.
  rewrite <- (take_drop 8 final_standings), !fmap_app in Hnd.
  apply NoDup_app in Hnd as (_ & Hdisj & _).
  intros Hin. apply (Hdisj _ Hin).
  apply list_elem_of_fmap. exists (TeamStanding.team s). split; [done |].
  apply list_elem_of_fmap. eauto.
Qed.

(** C9, as the code has it.  When the eight playoff teams of a finished
    trial have pairwise different names, [final_placement] maps them one to
    one onto 1..8: champion 1, runner-up 2, third place 3, fourth place 4,
    and the four other eliminated teams 5, 6, 7, 8 in the order the
    eliminated set is iterated.  The dict is keyed by name: no other name has
    an entry, and when no two teams of the final standings share a name, no
    team ranked below the eighth has a placement.  (The ledger is filed
    under team ids, as [add_team] builds it.) *)
Theorem final_placement_bijection self seed e outcome e' final_standings t rng :
  standings_wf (Tournament.standings (tournament self)) →
  regular_season self seed = (Ok final_standings, t, rng) →
  run_single_simulation self seed e = (Ok outcome, e') →
  NoDup (Team.name <$> (TeamStanding.team <$> take 8 final_standings)) →
  ∃ bracket c r t3 f x5 x6 x7 x8,
    playoffs self t final_standings rng e = (Ok bracket, e')
    ∧ PlayoffBracket.champion bracket = Some c
    ∧ PlayoffBracket.runner_up bracket = Some r
    ∧ PlayoffBracket.third_place bracket = Some t3
    ∧ PlayoffBracket.fourth_place bracket = Some f
    ∧ filter (λ x, Team.name x
                   ∉ [Team.name c; Team.name r; Team.name t3; Team.name f])
             (set_iter (PlayoffBracket.eliminated bracket))
      = [x5; x6; x7; x8]
    ∧ [c; r; t3; f; x5; x6; x7; x8]
      ≡ₚ TeamStanding.team <$> take 8 final_standings
    ∧ SimulationOutcome.final_placement outcome
      = list_to_map [(Team.name c, 1); (Team.name r, 2); (Team.name t3, 3);
                     (Team.name f, 4); (Team.name x5, 5); (Team.name x6, 6);
                     (Team.name x7, 7); (Team.name x8, 8)]
    ∧ (∀ name, name ∉ Team.name <$> [c; r; t3; f; x5; x6; x7; x8] →
               SimulationOutcome.final_placement outcome !! name = None)
    ∧ (NoDup (Team.name <$> (TeamStanding.team <$> final_standings)) →
       Forall (λ s, SimulationOutcome.final_placement outcome
                    !! Team.name (TeamStanding.team s) = None)
              (drop 8 final_standings)).
Proof.
  intros Hwf Hrs Hrun Hnames.
  destruct (run_single_simulation_ok _ _ _ _ _ Hrun)
    as (fs' & t' & rng' & bracket & Hrs' & Hpo & Hfp).
  rewrite Hrs in Hrs'. injection Hrs' as <- <- <-.
  destruct (playoffs_ok _ _ _ _ _ _ _ Hpo)
    as (t1 & t2 & t3 & t4 & t5 & t6 & t7 & t8 & Htake & Hb).
  pose proof (regular_season_teams _ _ _ _ _ Hwf Hrs) as Hids.
  apply (sublist_NoDup (Team.id <$> (TeamStanding.team <$> take 8 final_standings)))
    in Hids; [| rewrite !fmap_take; apply sublist_take].
  rewrite Htake in Hids, Hnames |- *. rewrite !fmap_cons in Hids.
  pose proof (bracket_run self _ _ _ _ _ _ _ _ rng e Hids) as Hcourse.
  cbv zeta in Hb, Hcourse. rewrite <- Hb in Hcourse.
  destruct Hcourse
    as (r1 & r2 & r3 & r4 & r5 & r6 & r7 & r8 & r9 & r10 & r11 & r12 & r13 & r14
        & _ & _ & _ & _ & _ & _ & _ & _
        & _ & Helim & Hchamp & Hrunner & Hthird & Hfourth & Hperm).
  clear Hb Hids.
  set (c := MatchResult.winner r14) in *. set (r := MatchResult.loser r14) in *.
  set (t3' := MatchResult.loser r13) in *. set (f := MatchResult.loser r12) in *.
  set (l5 := MatchResult.loser r5) in *. set (l6 := MatchResult.loser r6) in *.
  set (l9 := MatchResult.loser r9) in *. set (l10 := MatchResult.loser r10) in *.
  clearbody c r t3' f l5 l6 l9 l10.
  change ([TeamStanding.team t1; TeamStanding.team t2; TeamStanding.team t3;
           TeamStanding.team t4; TeamStanding.team t5; TeamStanding.team t6;
           TeamStanding.team t7; TeamStanding.team t8])
    with (TeamStanding.team <$> [t1; t2; t3; t4; t5; t6; t7; t8]) in Hperm.
  rewrite <- Hperm in Hnames. simpl in Hnames.
  assert (filter (λ x, Team.name x
                       ∉ [Team.name c; Team.name r; Team.name t3'; Team.name f])
                 (set_iter (PlayoffBracket.eliminated bracket))
          ≡ₚ [l5; l6; l9; l10]) as Hrest.
  { rewrite set_iter_perm, Helim.
    repeat (rewrite filter_cons_True
              by (rewrite !not_elem_of_cons; repeat split;
                  (solve_ne Hnames || apply not_elem_of_nil))).
    repeat (rewrite filter_cons_False
              by (intros Hnot; apply Hnot; rewrite !elem_of_cons; tauto)).
    done. }
  destruct (filter _ (set_iter (PlayoffBracket.eliminated bracket)))
    as [|x5 [|x6 [|x7 [|x8 [|x9 rest]]]]] eqn:Hfilter;
    try (by apply Permutation_length in Hrest).
  assert ([c; r; t3'; f; x5; x6; x7; x8] ≡ₚ [c; r; t3'; f; l5; l6; l9; l10])
    as Hall.
  { change ([c; r; t3'; f] ++ [x5; x6; x7; x8]
            ≡ₚ [c; r; t3'; f] ++ [l5; l6; l9; l10]).
    by rewrite Hrest. }
  exists bracket, c, r, t3', f, x5, x6, x7, x8.
  do 6 (split; [done |]).
  assert ([c; r; t3'; f; x5; x6; x7; x8]
          ≡ₚ TeamStanding.team <$> [t1; t2; t3; t4; t5; t6; t7; t8]) as Hplayoff
    by (by rewrite Hall).
  split; [exact Hplayoff |].
  assert (SimulationOutcome.final_placement outcome
          = list_to_map [(Team.name c, 1); (Team.name r, 2); (Team.name t3', 3);
                         (Team.name f, 4); (Team.name x5, 5); (Team.name x6, 6);
                         (Team.name x7, 7); (Team.name x8, 8)]) as Hmap.
  { rewrite Hfp.
    assert (NoDup (Team.name <$> PlayoffBracket.eliminated bracket)) as Helim_names.
    { rewrite Helim. simpl. apply NoDup_cons in Hnames as [_ Hnames].
      eapply NoDup_perm; [| exact Hnames]. solve_perm. }
    rewrite (final_placements_spec bracket c r t3' f x5 x6 x7 x8) by done.
    apply list_to_map_proper; [| solve_perm].
    assert (NoDup (Team.name <$> [c; r; t3'; f; x5; x6; x7; x8])) as Hnames8
      by (rewrite Hall; exact Hnames).
    eapply NoDup_perm; [| exact Hnames8].
    simpl. solve_perm. }
  assert (∀ name, name ∉ Team.name <$> [c; r; t3'; f; x5; x6; x7; x8] →
                  SimulationOutcome.final_placement outcome !! name = None)
    as Hnone.
  { intros name Hname.
    eapply unlisted_name_unplaced; [exact Hmap | exact Hname]. }
  split; [exact Hmap |]. split; [exact Hnone |].
  intros Hall_names.
  eapply outsiders_unplaced; [| exact Hnone | exact Hall_names].
  by rewrite Htake.
Qed.
End trial.

Lemma final_placement_bijection_witness :
  let self := sample_engine (WinRateMatrix.uniform (1 # 2)) in
  let rs := SimulationEngine.regular_season self 1 in
  let final_standings := returned [] rs.1.1 in
  let trial := SimulationEngine.run_single_simulation self 1 sample_entropy in
  let outcome := returned (SimulationOutcome.mk ∅ ∅ ∅ ∅ None) trial.1 in
  ∃ bracket c r t3 f x5 x6 x7 x8,
    SimulationEngine.playoffs self rs.1.2 final_standings rs.2 sample_entropy
    = (Ok bracket, trial.2)
    ∧ PlayoffBracket.champion bracket = Some c
    ∧ PlayoffBracket.runner_up bracket = Some r
    ∧ PlayoffBracket.third_place bracket = Some t3
    ∧ PlayoffBracket.fourth_place bracket = Some f
    ∧ filter (λ x, Team.name x
                   ∉ [Team.name c; Team.name r; Team.name t3; Team.name f])
             (set_iter (PlayoffBracket.eliminated bracket))
      = [x5; x6; x7; x8]
    ∧ [c; r; t3; f; x5; x6; x7; x8]
      ≡ₚ TeamStanding.team <$> take 8 final_standings
    ∧ SimulationOutcome.final_placement outcome
      = list_to_map [(Team.name c, 1); (Team.name r, 2); (Team.name t3, 3);
                     (Team.name f, 4); (Team.name x5, 5); (Team.name x6, 6);
                     (Team.name x7, 7); (Team.name x8, 8)]
    ∧ (∀ name, name ∉ Team.name <$> [c; r; t3; f; x5; x6; x7; x8] →
               SimulationOutcome.final_placement outcome !! name = None)
    ∧ length (drop 8 final_standings) = 2%nat
    ∧ Forall (λ s, SimulationOutcome.final_placement outcome
                   !! Team.name (TeamStanding.team s) = None)
             (drop 8 final_standings).
Proof.
  intros self rs final_standings trial outcome.
  destruct (final_placement_bijection self 1 sample_entropy outcome trial.2
              final_standings rs.1.2 rs.2)
    as (bracket & c & r & t3 & f & x5 & x6 & x7 & x8 & Hplayoffs & Hc & Hr
        & Ht3 & Hf & Hrest & Hperm & Hmap & Hnone & Houtside).
  - apply (add_teams_wf sample_teams Standings.empty). split; constructor.
  - vm_compute. reflexivity.
  - vm_compute. reflexivity.
  - apply (bool_decide_unpack _). vm_compute. reflexivity.
  - exists bracket, c, r, t3, f, x5, x6, x7, x8.
    do 9 (split; [assumption |]). split; [vm_compute; reflexivity |].
    apply Houtside. apply (bool_decide_unpack _). vm_compute. reflexivity.
Defined.

(** C9, as stated, fails when two playoff teams bear the same name: the
    trial completes, the eight teams have different ids, and only seven
    names receive a placement. *)
Lemma namesakes_share_a_placement :
  ∃ outcome e',
    SimulationEngine.run_single_simulation namesake_engine 1 sample_entropy
    = (Ok outcome, e')
    ∧ NoDup (Team.id <$> namesake_teams)
    ∧ size (SimulationOutcome.made_playoffs outcome) = 7%nat
    ∧ size (SimulationOutcome.final_placement outcome) = 7%nat.
Proof.
  eexists _, _. split; [vm_compute; reflexivity |].
  split; [apply (bool_decide_unpack _); vm_compute; reflexivity |].
  split; vm_compute; reflexivity.
Qed.

(** The same key serves every team of that name.  With team 8 called "I"
    like team 9, the eight playoff teams of the trial have pairwise
    different names and team 9 is the champion; team 8 ends ninth, outside
    the playoffs, and still finds placement 1 under its name. *)
Lemma outsider_namesake_is_placed :
  let self := outsider_namesake_engine in
  let rs := SimulationEngine.regular_season self 1 in
  let final_standings := returned [] rs.1.1 in
  let trial := SimulationEngine.run_single_simulation self 1 sample_entropy in
  let outcome := returned (SimulationOutcome.mk ∅ ∅ ∅ ∅ None) trial.1 in
  rs.1.1 = Ok final_standings
  ∧ trial.1 = Ok outcome
  ∧ NoDup (Team.id <$> outsider_namesake_teams)
  ∧ NoDup (Team.name <$> (TeamStanding.team <$> take 8 final_standings))
  ∧ TeamStanding.team <$> final_standings !! 8%nat = Some (sample_team 8 "I")
  ∧ SimulationOutcome.champion outcome = Some "I"
  ∧ Team.id <$> (TeamStanding.team <$> take 8 final_standings)
    = [3; 10; 7; 5; 2; 9; 6; 4]%N
  ∧ SimulationOutcome.final_placement outcome !! Team.name (sample_team 8 "I")
    = Some 1.
Proof.
  intros self rs final_standings trial outcome.
  split; [vm_compute; reflexivity |].
  split; [vm_compute; reflexivity |].
  split; [apply (bool_decide_unpack _); vm_compute; reflexivity |].
  split; [apply (bool_decide_unpack _); vm_compute; reflexivity |].
  repeat split; vm_compute; reflexivity.
Qed.

(** ** Reproducibility *)

Section reproducible.
Context `{PyRuntime}.
Import PlayoffBracket SimulationEngine.

Lemma od_get_erased d p : od_get p (erased d) = erase_match <$> od_get p d.
Proof.
  unfold erased. induction d as [|[q m] d IH]; [done |].
  rewrite fmap_cons. simpl. by case_decide.
Qed.

Lemma od_set_erased d p m : erased (od_set p m d) = od_set p (erase_match m) (erased d).
Proof.
  unfold erased. induction d as [|[q m'] d IH]; [done |].
  simpl od_set. case_decide; rewrite !fmap_cons; simpl.
  - done.
  - f_equal. exact IH.
Qed.

Lemma same_bracket_refl b : same_bracket b b.
Proof. by repeat split. Qed.

Lemma same_bracket_get b1 b2 p :
  same_bracket b1 b2 →
  erase_match <$> od_get p (matches b1) = erase_match <$> od_get p (matches b2).
Proof. intros (_ & Hm & _). by rewrite <- !od_get_erased, Hm. Qed.

Lemma same_bracket_set b1 b2 p m1 m2 :
  same_bracket b1 b2 → erase_match m1 = erase_match m2 →
  same_bracket (set_matches b1 (od_set p m1 (matches b1)))
               (set_matches b2 (od_set p m2 (matches b2))).
Proof.
  intros (? & Hm & ? & ? & ? & ? & ? & ?) Herase.
  repeat split; try done. simpl. by rewrite !od_set_erased, Hm, Herase.
Qed.

Lemma same_bracket_set_or_create b1 b2 p team is_team_a fmt e1 e2 :
  same_bracket b1 b2 →
  same_bracket (_set_or_create_match b1 p team is_team_a fmt e1).1
               (_set_or_create_match b2 p team is_team_a fmt e2).1.
Proof.
  intros Hsame. pose proof (same_bracket_get b1 b2 p Hsame) as Hget.
  unfold _set_or_create_match, put_new_match, new_match.
  destruct (od_get p (matches b1)) as [m1|], (od_get p (matches b2)) as [m2|];
    try done; cbn [fst snd]; apply same_bracket_set; try done.
  injection Hget as Ha Hb Hf Hs _ _ _.
  destruct is_team_a; unfold erase_match; simpl; congruence.
Qed.

Lemma same_bracket_eliminate b1 b2 team :
  same_bracket b1 b2 → same_bracket (eliminate b1 team) (eliminate b2 team).
Proof.
  intros (? & ? & ? & He & ? & ? & ? & ?).
  repeat split; try done. simpl. by rewrite He.
Qed.

Lemma same_bracket_named b1 b2 (x : option Team.t) :
  same_bracket b1 b2 →
  same_bracket (set_champion b1 x) (set_champion b2 x)
  ∧ same_bracket (set_runner_up b1 x) (set_runner_up b2 x)
  ∧ same_bracket (set_third_place b1 x) (set_third_place b2 x)
  ∧ same_bracket (set_fourth_place b1 x) (set_fourth_place b2 x).
Proof. intros (? & ? & ? & ? & ? & ? & ? & ?). by repeat split. Qed.

Lemma same_bracket_progress b1 b2 p r e1 e2 :
  same_bracket b1 b2 →
  same_bracket (_update_bracket_progression b1 p r e1).1
               (_update_bracket_progression b2 p r e2).1.
Proof.
  intros Hsame.
  destruct p; unfold _update_bracket_progression, route, advance; cbn [fst snd];
    repeat first
      [ apply same_bracket_eliminate
      | apply same_bracket_set_or_create
      | apply same_bracket_named
      | done ].
Qed.

Lemma same_bracket_record b1 b2 p r e1 e2 :
  same_bracket b1 b2 →
  same_bracket (record_result b1 p r e1).1 (record_result b2 p r e2).1.
Proof.
  intros Hsame. unfold record_result. apply same_bracket_progress.
  destruct Hsame as (? & ? & Hr & ? & ? & ? & ? & ?).
  repeat split; try done. simpl. by rewrite Hr.
Qed.

(** The engine reads the two teams and the format of a match, not its id. *)
Lemma simulate_match_erased self m1 m2 rng :
  erase_match m1 = erase_match m2 →
  simulate_match self m1 rng = simulate_match self m2 rng.
Proof.
  intros Herase. injection Herase as Ha Hb Hf _ _ _ _.
  unfold simulate_match. by rewrite Ha, Hb, Hf.
Qed.

Lemma same_bracket_play self b1 b2 rng e1 e2 p :
  same_bracket b1 b2 →
  same_bracket (play_position self (b1, rng, e1) p).1.1
               (play_position self (b2, rng, e2) p).1.1
  ∧ (play_position self (b1, rng, e1) p).1.2
    = (play_position self (b2, rng, e2) p).1.2.
Proof.
  intros Hsame. pose proof (same_bracket_get b1 b2 p Hsame) as Hget.
  assert (results b1 = results b2) as Hres by apply Hsame.
  unfold play_position, od_mem. cbn [fst snd]. rewrite Hres.
  destruct (od_get p (matches b1)) as [m1|], (od_get p (matches b2)) as [m2|];
    try done.
  injection Hget as Ha Hb Hf Hs Hw Hd Hr.
  assert (erase_match m1 = erase_match m2) as Herase
    by (unfold erase_match; congruence).
  rewrite Ha, Hb, (simulate_match_erased self m1 m2 rng Herase).
  destruct (od_get p (results b2)); cbn [negb andb]; [done |].
  destruct (negb _); cbn [fst snd]; [| done].
  split; [by apply same_bracket_record | done].
Qed.

Lemma same_bracket_simulate self positions b1 b2 rng e1 e2 :
  same_bracket b1 b2 →
  same_bracket (foldl (play_position self) (b1, rng, e1) positions).1.1
               (foldl (play_position self) (b2, rng, e2) positions).1.1
  ∧ (foldl (play_position self) (b1, rng, e1) positions).1.2
    = (foldl (play_position self) (b2, rng, e2) positions).1.2.
Proof.
  revert b1 b2 rng e1 e2.
  induction positions as [|p positions IH]; intros b1 b2 rng e1 e2 Hsame; [done |].
  cbn [foldl].
  destruct (same_bracket_play self b1 b2 rng e1 e2 p Hsame) as [Hb Hrng].
  destruct (play_position self (b1, rng, e1) p) as [[b1' rng1] e1'].
  destruct (play_position self (b2, rng, e2) p) as [[b2' rng2] e2'].
  cbn [fst snd] in Hb, Hrng. subst rng2. by apply IH.
Qed.

Lemma same_bracket_put b1 b2 p team_a team_b fmt stage e1 e2 :
  same_bracket b1 b2 →
  same_bracket (put_new_match b1 p team_a team_b fmt stage e1).1
               (put_new_match b2 p team_a team_b fmt stage e2).1.
Proof. intros Hsame. unfold put_new_match. by apply same_bracket_set. Qed.

Lemma same_bracket_seed b seeded_teams e1 e2 :
  (seed_teams b seeded_teams e1).1.1 = (seed_teams b seeded_teams e2).1.1
  ∧ same_bracket (seed_teams b seeded_teams e1).1.2 (seed_teams b seeded_teams e2).1.2.
Proof.
  unfold seed_teams.
  destruct seeded_teams as [|s1 [|s2 [|s3 [|s4 [|s5 [|s6 [|s7 [|s8 [|s9 rest]]]]]]]]];
    cbv zeta; cbn [fst snd];
    (split; [done |]); try apply same_bracket_refl.
  do 4 apply same_bracket_put. apply same_bracket_refl.
Qed.

(** The bracket stage of a trial does not depend on the ids drawn. *)
Lemma playoffs_same self t final_standings rng e1 e2 :
  match (playoffs self t final_standings rng e1).1,
        (playoffs self t final_standings rng e2).1 with
  | Ok b1, Ok b2 => same_bracket b1 b2
  | Raise err1, Raise err2 => err1 = err2
  | _, _ => False
  end.
Proof.
  unfold playoffs, Tournament.create_playoff_bracket.
  case_bool_decide; [done |].
  destruct (same_bracket_seed new
              (TeamStanding.team <$> take 8 (take 8 final_standings)) e1 e2)
    as [Hres Hsame].
  rewrite Hres.
  destruct (seed_teams new _ e2).1.1; cbn [fst snd]; [| done].
  apply same_bracket_simulate, Hsame.
Qed.

Lemma final_placements_same b1 b2 :
  same_bracket b1 b2 →
  final_placements b1 = final_placements b2 ∧ champion b1 = champion b2.
Proof.
  intros (_ & _ & _ & He & Hc & Hr & Ht & Hf).
  unfold final_placements. by rewrite He, Hc, Hr, Ht, Hf.
Qed.

Lemma run_single_simulation_same self seed e1 e2 :
  (run_single_simulation self seed e1).1 = (run_single_simulation self seed e2).1.
Proof.
  unfold run_single_simulation.
  destruct (regular_season self seed) as [[[fs | err] t] rng];
    cbn [fst snd]; [| done].
  pose proof (playoffs_same self t fs rng e1 e2) as Hsame.
  destruct (playoffs self t fs rng e1).1 as [b1 | err1],
           (playoffs self t fs rng e2).1 as [b2 | err2];
    cbn [fst snd]; try done; [| by subst].
  destruct (final_placements_same b1 b2 Hsame) as [-> ->]. done.
Qed.

Lemma run_trials_same self seeds e1 e2 :
  (run_trials self seeds e1).1 = (run_trials self seeds e2).1.
Proof.
  revert e1 e2. induction seeds as [|s seeds IH]; intros e1 e2; [done |].
  cbn [run_trials].
  rewrite (run_single_simulation_same self s e1 e2).
  destruct (run_single_simulation self s e2).1; cbn [fst snd]; [| done].
  rewrite (IH (run_single_simulation self s e1).2
              (run_single_simulation self s e2).2).
  by destruct (run_trials self seeds (run_single_simulation self s e2).2).1.
Qed.

(** C1. Two engines built from the same tournament, win-rate table, trial
    count and top-level seed return the same aggregated results (trial
    count and the five probability tables), whatever the system entropy
    ([uuid4] ids) each of the two runs draws. *)
Theorem run_reproducible (tournament : Tournament.t) (win_rates : WinRateMatrix.t)
    (num_simulations seed : Z) (e1 e2 e1' e2' : entropy) :
  let config := SimulationConfig.mk num_simulations (Some seed) in
  let engine1 := (init tournament win_rates (Some config) e1).1 in
  let engine2 := (init tournament win_rates (Some config) e2).1 in
  (run engine1 e1').1.1 = (run engine2 e2').1.1.
Proof.
  intros config engine1 engine2. subst engine1 engine2 config.
  unfold init, run. simpl.
  set (sd := draw_seeds _ _).
  set (self' := mk tournament win_rates _ sd.2).
  rewrite (run_trials_same self' sd.1 e1' e2').
  by destruct (run_trials self' sd.1 e2').1.
Qed.
End reproducible.

(* ================================================================== *)
(** * Further properties of the code *)
(* ================================================================== *)

(** ** Matches *)

Section match_facts.

(** X1. [Match.get_opponent] answers exactly for the two teams of the match
    (compared by id).  Asked about the team of slot A it answers [team_b];
    asked about a team that is not the one of slot A but the one of slot B
    it answers [team_a]; and asking for the opponent of the answer leads
    back to the team asked about.  For any other team it raises ValueError
    with the message built from the team's repr. *)
Theorem get_opponent_involutive (m : Match.t) (team : Team.t) :
  match Match.get_opponent m team with
  | Ok o =>
      ((Team.eqb team (Match.team_a m) = true ∧ o = Match.team_b m)
       ∨ (Team.eqb team (Match.team_a m) = false
          ∧ Team.eqb team (Match.team_b m) = true ∧ o = Match.team_a m))
      ∧ ∃ o', Match.get_opponent m o = Ok o' ∧ Team.eqb o' team = true
  | Raise err =>
      Team.eqb team (Match.team_a m) = false
      ∧ Team.eqb team (Match.team_b m) = false
      ∧ err = ValueError (String.append (Team.repr team) " is not in this match")
  end.
Proof.
  unfold Match.get_opponent.
  destruct (Team.eqb team (Match.team_a m)) eqn:Ea;
    [| destruct (Team.eqb team (Match.team_b m)) eqn:Eb].
  - split; [by left |].
    unfold Team.eqb in *. apply bool_decide_eq_true in Ea.
    destruct (bool_decide (Team.id (Match.team_b m) = Team.id (Match.team_a m)))
      eqn:Eba.
    + apply bool_decide_eq_true in Eba. exists (Match.team_b m).
      split; [done |]. apply bool_decide_eq_true. congruence.
    + rewrite bool_decide_true by done. exists (Match.team_a m).
      split; [done |]. by apply bool_decide_eq_true.
  - split; [by right |].
    unfold Team.eqb in *. apply bool_decide_eq_true in Eb.
    rewrite bool_decide_true by done. exists (Match.team_b m).
    split; [done |]. by apply bool_decide_eq_true.
  - done.
Qed.

End match_facts.

Section match_scores.
Context `{PyRuntime}.
Import SimulationEngine.

(** The loop keeps both scores between 0 and the target, and never lets
    both reach it. *)
Lemma play_games_bounds fuel p g a b rng :
  0 <= a <= g → 0 <= b <= g → a < g ∨ b < g →
  let r := play_games fuel p g a b rng in
  0 <= r.1.1 <= g ∧ 0 <= r.1.2 <= g ∧ (r.1.1 < g ∨ r.1.2 < g).
Proof.
  revert a b rng. induction fuel as [|fuel IH]; intros a b rng Ha Hb Hab; simpl.
  - done.
  - destruct (bool_decide (a < g) && bool_decide (b < g)) eqn:E; [| done].
    apply andb_true_iff in E as [Ha' Hb'].
    apply bool_decide_eq_true in Ha', Hb'.
    destruct (Qlt_bool _ _); apply IH; lia.
Qed.

(** X2. Whatever the win rates and the random draws, the result [simulate_match]
    returns has [winner_score = games_to_win] of the match's format and [0 <=
    loser_score < winner_score], and its winner and loser are the two teams of
    the match. *)
Theorem simulate_match_score (self : t) (m : Match.t) (rng : rng_state) :
  let r := (simulate_match self m rng).1 in
  MatchResult.winner_score r = games_to_win (Match.format m)
  ∧ 0 <= MatchResult.loser_score r < MatchResult.winner_score r
  ∧ sides r (Match.team_a m) (Match.team_b m).
Proof.
  intros r. split; [| split; [| apply simulate_match_sides]].
  all: subst r; unfold simulate_match.
  all: destruct (Match.format m) eqn:Hf; cbn [fst snd]; try done.
  all: match goal with
       | |- context [play_games ?f ?p ?g 0 0 ?s] =>
           pose proof (play_games_bounds f p g 0 0 s) as Hb;
           pose proof (play_games_exit f p g 0 0 s) as He
       end.
  all: cbv zeta in Hb; change (games_to_win BO3) with 2 in *;
       change (games_to_win BO5) with 3 in *.
  all: specialize (Hb ltac:(lia) ltac:(lia) ltac:(lia)); specialize (He ltac:(lia)).
  all: case_bool_decide; cbn [fst snd MatchResult.winner_score MatchResult.loser_score].
  all: lia.
Qed.
End match_scores.

(** ** Win-rate table, once more *)

Section win_rate_table.
Import WinRateMatrix.

Lemma get_as_entry self a b :
  get_win_probability self a b = default (default_rate self) (entry (matrix self) a b).
Proof.
  unfold get_win_probability, entry.
  destruct (matrix self !! a) as [row|]; simpl; [| done].
  by destruct (row !! b).
Qed.

Lemma entry_ensure_row m a c d : entry (ensure_row a m) c d = entry m c d.
Proof.
  unfold ensure_row, entry. destruct (m !! a) eqn:E; [done |].
  destruct (decide (c = a)) as [-> | Hne].
  - by rewrite lookup_insert_eq, E.
  - by rewrite lookup_insert_ne.
Qed.

Lemma entry_set_entry m a b p c d :
  entry (set_entry a b p m) c d
  = if decide (c = a ∧ d = b) then Some p else entry m c d.
Proof.
  unfold set_entry, entry.
  destruct (decide (c = a)) as [-> | Hne].
  - rewrite lookup_insert_eq. simpl.
    destruct (decide (d = b)) as [-> | Hne].
    + rewrite lookup_insert_eq. by rewrite decide_True.
    + rewrite lookup_insert_ne by done. rewrite decide_False by (by intros [_ ?]).
      by destruct (m !! a).
  - rewrite lookup_insert_ne by done. by rewrite decide_False by (by intros [? _]).
Qed.

(** What a successful call leaves in the table. *)
Lemma set_win_probability_entries self a b p self' :
  set_win_probability self a b p = (Ok (), self') →
  ((0 <= p)%Q ∧ (p <= 1)%Q)
  ∧ default_rate self' = default_rate self
  ∧ ∀ c d, entry (matrix self') c d
           = if decide (c = b ∧ d = a) then Some (1 - p)%Q
             else if decide (c = a ∧ d = b) then Some p
             else entry (matrix self) c d.
Proof.
  unfold set_win_probability.
  destruct (Qle_bool 0 p && Qle_bool p 1) eqn:E; simpl; [| done].
  intros [= <-]. split; [by apply Qle_bool_range |]. split; [done |].
  intros c d. simpl.
  by rewrite !entry_set_entry, !entry_ensure_row.
Qed.

(** X3. A successful [set_win_probability(a, b, p)] changes the answer of
    [get_win_probability] for the ordered pairs (a, b) and (b, a) only; the
    empty rows it creates leave every other lookup on the default rate. *)
Theorem set_win_probability_frame (self self' : t) (a b c d : N) (p : Q) :
  set_win_probability self a b p = (Ok (), self') →
  (c, d) ≠ (a, b) → (c, d) ≠ (b, a) →
  get_win_probability self' c d = get_win_probability self c d.
Proof.
  intros Hset Hab Hba.
  apply set_win_probability_entries in Hset as (_ & Hrate & Hentries).
  rewrite !get_as_entry, Hrate, Hentries.
  rewrite !decide_False by (intros [-> ->]; congruence). done.
Qed.

Lemma set_win_probability_frame_witness :
  get_win_probability sample_win_rates 1%N 2%N
  = get_win_probability
      (set_win_probability (uniform (1 # 2)) 1%N 2%N (3 # 4)).2 1%N 2%N.
Proof.
  apply (set_win_probability_frame
           (set_win_probability (uniform (1 # 2)) 1%N 2%N (3 # 4)).2
           sample_win_rates 2%N 3%N 1%N 2%N (2 # 5)); [reflexivity | done | done].
Defined.

(** Every entry of a table built for pairs of different teams is a
    probability, and sits opposite its complement. *)
Lemma tabulated_entries rate m :
  tabulated rate m →
  default_rate m = rate
  ∧ ∀ a b p, entry (matrix m) a b = Some p →
             ((0 <= p)%Q ∧ (p <= 1)%Q)
             ∧ ∃ q, entry (matrix m) b a = Some q ∧ (p + q == 1)%Q.
Proof.
  induction 1 as [|m a b p m' Hm [IHrate IH] Hab Hset].
  - split; [done |]. intros a b p. unfold entry. simpl.
    by rewrite lookup_empty.
  - apply set_win_probability_entries in Hset as (Hp & Hrate & Hentries).
    split; [congruence |]. intros c d x. rewrite !Hentries.
    destruct (decide (c = b ∧ d = a)) as [[-> ->] | Hba].
    { intros [= <-]. split.
      - destruct Hp as [Hp0 Hp1]. split.
        + by apply Qle_minus_iff in Hp1.
        + apply Qle_minus_iff. by ring_simplify.
      - rewrite decide_False by (intros [-> _]; done).
        rewrite decide_True by done. exists p. split; [done | ring]. }
    destruct (decide (c = a ∧ d = b)) as [[-> ->] | Hab'].
    { intros [= <-]. split; [done |].
      rewrite decide_True by done. exists (1 - p)%Q. split; [done | ring]. }
    intros Hx. destruct (IH _ _ _ Hx) as (Hx' & q & Hq & Hsum).
    split; [done |]. exists q. split; [| done].
    rewrite decide_False by (intros [-> ->]; tauto).
    rewrite decide_False by (intros [-> ->]; tauto). done.
Qed.

(** X4. In a table built from [uniform(0.5)] by successful [set_win_probability]
    calls for pairs of different teams, the probabilities of the two sides of
    every matchup add up to 1. *)
Theorem win_rates_complementary (m : t) (a b : N) :
  tabulated (1 # 2) m →
  (get_win_probability m a b + get_win_probability m b a == 1)%Q.
Proof.
  intros Hm. apply tabulated_entries in Hm as [Hrate IH].
  rewrite !get_as_entry, Hrate.
  destruct (entry (matrix m) a b) as [p|] eqn:Eab.
  - destruct (IH _ _ _ Eab) as (_ & q & -> & Hpq). done.
  - destruct (entry (matrix m) b a) as [q|] eqn:Eba; [| done].
    destruct (IH _ _ _ Eba) as (_ & p & Hp & _). congruence.
Qed.

Lemma sample_win_rates_tabulated : tabulated (1 # 2) sample_win_rates.
Proof.
  eapply (tabulated_set _ _ 2%N 3%N (2 # 5)); [| done | reflexivity].
  eapply (tabulated_set _ _ 1%N 2%N (3 # 4)); [| done | reflexivity].
  constructor.
Qed.

Lemma win_rates_complementary_witness :
  (get_win_probability sample_win_rates 3%N 2%N
   + get_win_probability sample_win_rates 2%N 3%N == 1)%Q.
Proof.
  apply (win_rates_complementary sample_win_rates 3%N 2%N).
  exact sample_win_rates_tabulated.
Defined.

(** X5. In a table built from [uniform(rate)], with [rate] in [0,1], by successful
    [set_win_probability] calls for pairs of different teams,
    [get_win_probability] always answers with a number in [0,1]. *)
Theorem win_rates_are_probabilities (rate : Q) (m : t) (a b : N) :
  tabulated rate m → (0 <= rate)%Q ∧ (rate <= 1)%Q →
  (0 <= get_win_probability m a b)%Q ∧ (get_win_probability m a b <= 1)%Q.
Proof.
  intros Hm Hr. apply tabulated_entries in Hm as [Hrate IH].
  rewrite !get_as_entry, Hrate.
  destruct (entry (matrix m) a b) as [p|] eqn:Eab; [| done].
  by destruct (IH _ _ _ Eab).
Qed.

Lemma win_rates_are_probabilities_witness :
  (0 <= get_win_probability sample_win_rates 3%N 2%N)%Q
  ∧ (get_win_probability sample_win_rates 3%N 2%N <= 1)%Q.
Proof.
  apply (win_rates_are_probabilities (1 # 2) sample_win_rates 3%N 2%N).
  - exact sample_win_rates_tabulated.
  - split; unfold Qle; simpl; lia.
Defined.
End win_rate_table.

(** ** The ledger as a whole *)

Lemma sum_Z_cons x l : sum_Z (x :: l) = x + sum_Z l.
Proof. done. Qed.

Section odict_alter.
Context {K V : Type} `{EqDecision K}.
Implicit Types (d : odict K V) (k : K) (v : V).

Lemma od_get_alter d k k' (f : V → V) :
  od_get k (od_alter f k' d)
  = if decide (k = k') then f <$> od_get k d else od_get k d.
Proof.
  induction d as [|[k0 v0] d IH]; simpl.
  - by case_decide.
  - destruct (decide (k' = k0)) as [-> | Hne]; simpl.
    + by destruct (decide (k = k0)).
    + destruct (decide (k = k0)) as [-> | Hne'].
      * by rewrite decide_False by done.
      * done.
Qed.

Lemma sum_od_alter (g : V → Z) (f : V → V) d k v :
  od_get k d = Some v →
  sum_Z (g <$> od_values (od_alter f k d))
  = sum_Z (g <$> od_values d) + (g (f v) - g v).
Proof.
  unfold od_values. induction d as [|[k0 v0] d IH]; [done |].
  simpl od_get. simpl od_alter. case_decide.
  - intros [= ->]. rewrite !fmap_cons, !sum_Z_cons. cbn [fst snd]. lia.
  - intros Hget. rewrite !fmap_cons, !sum_Z_cons, IH by done. cbn [fst snd]. lia.
Qed.
End odict_alter.

Section ledger.
Import TeamStanding.

Lemma add_teams_zero teams st :
  Forall (λ s, wins s = 0 ∧ losses s = 0 ∧ head_to_head s = ∅) (od_values st) →
  Forall (λ s, wins s = 0 ∧ losses s = 0 ∧ head_to_head s = ∅)
         (od_values (foldl Standings.add_team st teams)).
Proof.
  revert st. induction teams as [|x teams IH]; simpl; [done |].
  intros st Hst. apply IH. by apply Forall_od_set.
Qed.

Lemma record_win_counts opp s :
  wins (record_win opp s) = wins s + 1 ∧ losses (record_win opp s) = losses s.
Proof. unfold record_win. by destruct (get_h2h_record s opp). Qed.

Lemma record_loss_counts opp s :
  wins (record_loss opp s) = wins s ∧ losses (record_loss opp s) = losses s + 1.
Proof. unfold record_loss. by destruct (get_h2h_record s opp). Qed.

(** X6. In every ledger reached from the all-zero one by successful
    [record_match_result] calls, the wins summed over all standings equal the
    losses summed over all standings. *)
Theorem wins_equal_losses (teams : list Team.t) (st : Standings.t) :
  recorded teams st → total_wins st = total_losses st.
Proof.
  unfold total_wins, total_losses.
  induction 1 as [|st winner loser st' Hst IH Hrec].
  - pose proof (add_teams_zero teams Standings.empty ltac:(constructor)) as Hz.
    induction Hz as [|s l (Hw & Hl & _) _ IH]; [done |].
    rewrite !fmap_cons, !sum_Z_cons. lia.
  - revert Hrec. unfold Standings.record_match_result.
    destruct (od_get (Team.id winner) st) as [sw|] eqn:Ew; [| done].
    destruct (od_get (Team.id loser) st) as [sl|] eqn:El; [| done].
    intros [= <-].
    assert (od_get (Team.id loser)
              (od_alter (record_win (Team.id loser)) (Team.id winner) st)
            = Some (if decide (Team.id loser = Team.id winner)
                    then record_win (Team.id loser) sl else sl)) as El'.
    { rewrite od_get_alter, El. by case_decide. }
    rewrite !(sum_od_alter _ _ _ _ _ El'), !(sum_od_alter _ _ _ _ _ Ew), IH.
    pose proof (record_win_counts (Team.id loser) sw) as [-> ->].
    match goal with
    | |- context [record_loss ?o ?s] =>
        pose proof (record_loss_counts o s) as [-> ->]
    end.
    lia.
Qed.

Lemma sample_ledger_recorded : recorded (take 3 sample_teams) sample_ledger.
Proof.
  apply (recorded_step _
           (Standings.record_match_result
              (foldl Standings.add_team Standings.empty (take 3 sample_teams))
              (sample_team 2 "B") (sample_team 1 "A")).2
           (sample_team 3 "C") (sample_team 1 "A")); [| reflexivity].
  apply (recorded_step _
           (foldl Standings.add_team Standings.empty (take 3 sample_teams))
           (sample_team 2 "B") (sample_team 1 "A")); [| reflexivity].
  constructor.
Qed.

Lemma wins_equal_losses_witness :
  total_wins sample_ledger = total_losses sample_ledger.
Proof.
  apply (wins_equal_losses (take 3 sample_teams) sample_ledger).
  exact sample_ledger_recorded.
Defined.

Lemma h2h_record_win opp s o :
  get_h2h_record (record_win opp s) o
  = if decide (o = opp)
    then ((get_h2h_record s o).1 + 1, (get_h2h_record s o).2)
    else get_h2h_record s o.
Proof.
  unfold record_win, get_h2h_record at 1.
  destruct (get_h2h_record s opp) as [w l] eqn:E. simpl.
  case_decide as Ho.
  - subst o. rewrite lookup_insert_eq. simpl. by rewrite E.
  - by rewrite lookup_insert_ne.
Qed.

Lemma h2h_record_loss opp s o :
  get_h2h_record (record_loss opp s) o
  = if decide (o = opp)
    then ((get_h2h_record s o).1, (get_h2h_record s o).2 + 1)
    else get_h2h_record s o.
Proof.
  unfold record_loss, get_h2h_record at 1.
  destruct (get_h2h_record s opp) as [w l] eqn:E. simpl.
  case_decide as Ho.
  - subst o. rewrite lookup_insert_eq. simpl. by rewrite E.
  - by rewrite lookup_insert_ne.
Qed.

(** X7. In every such ledger the head-to-head records mirror each other: the wins
    the standing filed under [a] has against [b] are the losses the standing
    filed under [b] has against [a]. *)
Theorem head_to_head_mirrored (teams : list Team.t) (st : Standings.t)
    (a b : N) (sa sb : TeamStanding.t) :
  recorded teams st →
  Standings.get st a = Some sa → Standings.get st b = Some sb →
  (get_h2h_record sa b).1 = (get_h2h_record sb a).2.
Proof.
  unfold Standings.get. intros Hst. revert a b sa sb.
  induction Hst as [|st winner loser st' Hst IH Hrec]; intros a b sa sb Ha Hb.
  - pose proof (add_teams_zero teams Standings.empty ltac:(constructor)) as Hz.
    rewrite Forall_forall in Hz.
    assert (∀ k s, od_get k (foldl Standings.add_team Standings.empty teams) = Some s
                   → head_to_head s = ∅) as Hempty.
    { intros k s Hk. apply Hz. clear -Hk. unfold od_values.
      induction (foldl _ _ _) as [|[k0 v0] d IH]; [done |].
      simpl in Hk. rewrite fmap_cons. case_decide.
      - injection Hk as ->. apply list_elem_of_here.
      - apply list_elem_of_further. by apply IH. }
    unfold get_h2h_record.
    by rewrite (Hempty _ _ Ha), (Hempty _ _ Hb), !lookup_empty.
  - revert Hrec. unfold Standings.record_match_result.
    destruct (od_get (Team.id winner) st) as [sw|] eqn:Ew; [| done].
    destruct (od_get (Team.id loser) st) as [sl|] eqn:El; [| done].
    intros [= <-]. rewrite !od_get_alter in Ha, Hb.
    destruct (od_get a st) as [sa0|] eqn:Ea;
      [| by repeat case_decide].
    destruct (od_get b st) as [sb0|] eqn:Eb;
      [| by repeat case_decide].
    specialize (IH a b sa0 sb0 Ea Eb).
    repeat case_decide; simpl in Ha, Hb; simplify_eq;
      rewrite ?h2h_record_loss, ?h2h_record_win;
      repeat case_decide; simpl; try congruence; lia.
Qed.

Lemma head_to_head_mirrored_witness :
  (get_h2h_record (mk (sample_team 2 "B") 1 0 {[1%N := (1, 0)]}) 1%N).1
  = (get_h2h_record (mk (sample_team 1 "A") 0 2 {[3%N := (0, 1); 2%N := (0, 1)]}) 2%N).2.
Proof.
  apply (head_to_head_mirrored (take 3 sample_teams) sample_ledger 2%N 1%N).
  - exact sample_ledger_recorded.
  - vm_compute. reflexivity.
  - vm_compute. reflexivity.
Defined.
End ledger.

Section sorting_by_pairs.
Context {A : Type} (key : A → Z * Z).

Lemma insert_asc_perm x (l : list A) : insert_asc key x l ≡ₚ x :: l.
Proof.
  induction l as [|y l IH]; simpl; [done |].
  destruct (pair_ltb _ _); [| done].
  rewrite IH. apply perm_swap.
Qed.

Lemma sorted_asc_perm (l : list A) : sorted_asc key l ≡ₚ l.
Proof.
  induction l as [|x l IH]; simpl; [done |].
  by rewrite insert_asc_perm, IH.
Qed.

Lemma pair_ltb_false_trans (a b c : Z * Z) :
  pair_ltb b a = false → pair_ltb c b = false → pair_ltb c a = false.
Proof.
  unfold pair_ltb. intros Hab Hbc.
  repeat case_bool_decide; simpl in *; try done; lia.
Qed.

Lemma pair_ltb_asym (a b : Z * Z) : pair_ltb a b = true → pair_ltb b a = false.
Proof.
  unfold pair_ltb. intros Hab.
  repeat case_bool_decide; simpl in *; try done; lia.
Qed.

Lemma insert_asc_sorted x (l : list A) :
  StronglySorted (λ a b, pair_ltb (key b) (key a) = false) l →
  StronglySorted (λ a b, pair_ltb (key b) (key a) = false) (insert_asc key x l).
Proof.
  induction 1 as [|y l Hl IH Hy]; simpl.
  - repeat constructor.
  - destruct (pair_ltb (key y) (key x)) eqn:E.
    + constructor; [done |].
      rewrite insert_asc_perm. constructor; [| done].
      by apply pair_ltb_asym.
    + constructor; [by constructor |].
      constructor; [done |].
      eapply Forall_impl; [exact Hy |]. intros z Hz. simpl in Hz.
      by eapply pair_ltb_false_trans.
Qed.

Lemma sorted_asc_sorted (l : list A) :
  StronglySorted (λ a b, pair_ltb (key b) (key a) = false) (sorted_asc key l).
Proof.
  induction l as [|x l IH]; simpl; [constructor |].
  by apply insert_asc_sorted.
Qed.
End sorting_by_pairs.

Lemma StronglySorted_weaken {A} (R S : A → A → Prop) (l : list A) :
  (∀ a b, R a b → S a b) → StronglySorted R l → StronglySorted S l.
Proof.
  intros HRS. induction 1 as [|x l Hl IH Hx]; constructor; [done |].
  eapply Forall_impl; [exact Hx |]. intros y. apply HRS.
Qed.

(** X8. [Standings.get_ordered] returns every standing of the ledger exactly once,
    more wins first and, among equal wins, fewer losses first. *)
Theorem get_ordered_ranks (st : Standings.t) :
  Standings.get_ordered st ≡ₚ od_values st
  ∧ StronglySorted ranks_before (Standings.get_ordered st).
Proof.
  unfold Standings.get_ordered. split; [apply sorted_asc_perm |].
  eapply StronglySorted_weaken; [| apply sorted_asc_sorted].
  intros a b. unfold pair_ltb, ranks_before. simpl.
  repeat case_bool_decide; simpl; try done; intros _; lia.
Qed.

Section round_robin_helpers.
Context `{PyRuntime}.

Lemma count_if_all {A} (P : A → bool) (l : list A) :
  (∀ x, x ∈ l → P x = true) → count_if P l = length l.
Proof.
  induction l as [|x l IH]; [done |]. intros Hall.
  rewrite count_if_cons, IH, (Hall x).
  - done.
  - apply list_elem_of_here.
  - intros y Hy. apply Hall. by apply list_elem_of_further.
Qed.

Lemma combinations2_without (t : Team.t) (l : list Team.t) :
  Team.id t ∉ Team.id <$> l →
  count_if (λ p : Team.t * Team.t, Team.eqb p.1 t || Team.eqb p.2 t)
           (combinations2 l) = 0%nat.
Proof.
  intros Hno. apply count_if_none. intros [y z] Hyz.
  apply elem_of_combinations2 in Hyz as [Hy Hz].
  apply elem_of_ids in Hy, Hz. unfold Team.eqb. simpl.
  rewrite !bool_decide_eq_false_2; [done | congruence | congruence].
Qed.

(** A team of a duplicate-free list is in as many pairs as it has
    opponents. *)
Lemma combinations2_with (t : Team.t) (l : list Team.t) :
  NoDup (Team.id <$> l) → t ∈ l →
  count_if (λ p : Team.t * Team.t, Team.eqb p.1 t || Team.eqb p.2 t)
           (combinations2 l) = (length l - 1)%nat.
Proof.
  induction l as [|x l IH]; intros Hnd Ht.
  - by apply elem_of_nil in Ht.
  - simpl combinations2. rewrite count_if_app, count_if_fmap.
    rewrite fmap_cons in Hnd. apply NoDup_cons in Hnd as [Hx Hnd].
    destruct (decide (Team.id x = Team.id t)) as [Heq | Hne].
    + rewrite combinations2_without by congruence.
      rewrite count_if_all; [simpl; lia |].
      intros y _. unfold compose, Team.eqb. simpl.
      by rewrite (bool_decide_eq_true_2 _ Heq).
    + apply elem_of_cons in Ht as [-> | Ht]; [done |].
      rewrite IH by done.
      rewrite (count_if_ext _ (λ y, Team.eqb y t)).
      * rewrite count_team_once by done.
        destruct l; [by apply elem_of_nil in Ht | simpl; lia].
      * intros y _. unfold compose, Team.eqb. simpl.
        by rewrite (bool_decide_eq_false_2 _ Hne).
Qed.

(** X9. In the schedule generated for [N] teams with pairwise different ids,
    [get_matches_for_team] finds exactly [N - 1] matches for each team of the
    list. *)
Theorem every_team_meets_all_others (teams : list Team.t) (format : MatchFormat)
    (e : entropy) (team : Team.t) :
  NoDup (Team.id <$> teams) → team ∈ teams →
  length (get_matches_for_team
            (generate_round_robin_schedule teams format e).1 team)
  = (length teams - 1)%nat.
Proof.
  intros Hnd Ht. rewrite <- (combinations2_with team teams Hnd Ht).
  unfold generate_round_robin_schedule, iter_matchups.
  rewrite <- (schedule_pairs_teams (combinations2 teams) format e) at 2.
  by rewrite count_if_fmap.
Qed.

(** X10. [get_remaining_matches] and [get_completed_matches] split a schedule:
    together they hold every match once, and no match is in both. *)
Theorem remaining_completed_partition (matches : list Match.t) :
  get_remaining_matches matches ++ get_completed_matches matches ≡ₚ matches
  ∧ (∀ m, m ∈ get_remaining_matches matches → m ∉ get_completed_matches matches).
Proof.
  unfold get_remaining_matches, get_completed_matches. split.
  - induction matches as [|m l IH]; [done |].
    destruct (Match.is_completed m) eqn:E.
    + rewrite filter_cons_False by congruence.
      rewrite (filter_cons_True (λ m, Match.is_completed m = true)) by done.
      by rewrite <- Permutation_middle, IH.
    + rewrite filter_cons_True by done.
      rewrite (filter_cons_False (λ m, Match.is_completed m = true)) by congruence.
      simpl. by rewrite IH.
  - intros m. rewrite !list_elem_of_filter. intros [Hm _] [Hm' _]. congruence.
Qed.
End round_robin_helpers.

Lemma every_team_meets_all_others_witness :
  length (get_matches_for_team
            (generate_round_robin_schedule sample_teams BO1 sample_entropy).1
            (sample_team 3 "C"))
  = (length sample_teams - 1)%nat.
Proof.
  apply (every_team_meets_all_others sample_teams BO1 sample_entropy
           (sample_team 3 "C")).
  - apply (bool_decide_unpack (NoDup (Team.id <$> sample_teams))). reflexivity.
  - apply (list_elem_of_lookup_2 sample_teams 2). reflexivity.
Defined.

(** ** The tournament object *)

Section tournament_facts.
Context `{PyRuntime}.
Import Tournament.

Lemma filter_insert_length {A} (P : A → Prop) `{∀ x, Decision (P x)}
    (l : list A) i x y :
  l !! i = Some x →
  length (filter P (<[i := y]> l))
  = (length (filter P l) + (if decide (P y) then 1 else 0)
     - (if decide (P x) then 1 else 0))%nat.
Proof.
  intros Hi. rewrite <- (take_drop_middle l i x Hi) at 2.
  rewrite insert_take_drop by (by eapply lookup_lt_Some).
  rewrite !filter_app, !length_app, !filter_cons.
  repeat case_decide; simpl; lia.
Qed.

(** X11. Recording a result for an unplayed scheduled match stores the result in
    that match and in no other, moves exactly one match from the remaining to
    the completed ones, and enters the match id in the completed ids, whether
    or not the ledger accepted the result. *)
Theorem record_round_robin_result_marks (self : t) (i : nat) (m : Match.t)
    (result : MatchResult.t) :
  round_robin_matches self !! i = Some m → Match.is_completed m = false →
  let self' := (record_round_robin_result self i result).2 in
  round_robin_matches self' !! i = Some (Match.set_result m result)
  ∧ (∀ j, j ≠ i → round_robin_matches self' !! j = round_robin_matches self !! j)
  ∧ (length (get_remaining_round_robin_matches self') + 1
     = length (get_remaining_round_robin_matches self))%nat
  ∧ (length (get_completed_round_robin_matches self')
     = length (get_completed_round_robin_matches self) + 1)%nat
  ∧ Match.id m ∈ _completed_match_ids self'.
Proof.
  intros Hi Hm self'. subst self'.
  unfold record_round_robin_result, get_remaining_round_robin_matches,
    get_completed_round_robin_matches.
  rewrite Hi. cbn [snd round_robin_matches _completed_match_ids].
  pose proof (lookup_lt_Some _ _ _ Hi) as Hlt.
  split_and!.
  - by rewrite list_lookup_insert_eq.
  - intros j Hj. by rewrite list_lookup_insert_ne.
  - rewrite (filter_insert_length _ _ _ m) by done.
    rewrite decide_False by done. rewrite decide_True by done.
    assert (m ∈ filter (λ m, Match.is_completed m = false)
                  (round_robin_matches self)) as Hin.
    { apply list_elem_of_filter. split; [done |].
      by eapply list_elem_of_lookup_2. }
    destruct (filter _ _); [by apply elem_of_nil in Hin | simpl; lia].
  - rewrite (filter_insert_length _ _ _ m) by done.
    rewrite decide_True by done. rewrite decide_False by congruence. lia.
  - apply elem_of_union_l. by apply elem_of_singleton.
Qed.

(** X12. When the winner or the loser has no standing, [record_round_robin_result]
    raises the ledger's ValueError after the match has been given its result
    and its id has been entered: the ledger is unchanged, the match stays
    marked as played. *)
Theorem record_round_robin_result_unknown_team (self : t) (i : nat)
    (m : Match.t) (result : MatchResult.t) :
  round_robin_matches self !! i = Some m →
  Standings.get_by_team (standings self) (MatchResult.winner result) = None
  ∨ Standings.get_by_team (standings self) (MatchResult.loser result) = None →
  record_round_robin_result self i result
  = (Raise (ValueError "Both teams must be in standings"),
     mk (teams self) (standings self)
        (<[i := Match.set_result m result]> (round_robin_matches self))
        (playoff_bracket self) ({[Match.id m]} ∪ _completed_match_ids self)).
Proof.
  intros Hi Hmissing.
  unfold record_round_robin_result, Standings.record_match_result,
    Standings.get_by_team in *.
  rewrite Hi. cbn zeta.
  destruct Hmissing as [-> | Hl]; [done |].
  rewrite Hl.
  by destruct (od_get (Team.id (MatchResult.winner result)) (standings self)).
Qed.

Lemma standings_copy_append (acc d : Standings.t) :
  NoDup (od_keys (acc ++ d)) →
  foldl (λ new kv, od_set kv.1 (TeamStanding.copy kv.2) new) acc d = acc ++ d.
Proof.
  revert acc. induction d as [|[k v] d IH]; intros acc Hnd.
  - by rewrite app_nil_r.
  - simpl. rewrite cons_middle, app_assoc in Hnd |- *.
    rewrite od_set_fresh.
    + destruct v. by apply IH.
    + apply od_get_None_keys. unfold od_keys in *.
      rewrite !fmap_app in Hnd. apply NoDup_app in Hnd as [Hnd _].
      apply NoDup_app in Hnd as (_ & Hdisj & _).
      intros Hk. apply (Hdisj k Hk). simpl. apply list_elem_of_here.
Qed.

Lemma standings_copy_id (d : Standings.t) :
  NoDup (od_keys d) → Standings.copy d = d.
Proof. intros Hnd. unfold Standings.copy. by rewrite standings_copy_append. Qed.

Lemma copy_matches_append (acc l : list Match.t) :
  foldl (λ acc m,
           acc ++ [Match.mk (Match.team_a m) (Match.team_b m) (Match.format m)
                            (Match.stage m) (Match.week m) (Match.match_day m)
                            (Match.result m) (Match.id m)])
        acc l
  = acc ++ l.
Proof.
  revert acc. induction l as [|m l IH]; intros acc; simpl.
  - by rewrite app_nil_r.
  - rewrite IH. destruct m. simpl. by rewrite <- app_assoc.
Qed.

(** X13. [Tournament.copy] of a tournament whose ledger has one entry per key has
    the same teams, the same matches with their results and ids, the same
    completed ids and the same ledger (the all-zero ledger of the teams when
    the ledger was empty); the playoff bracket is not copied. *)
Theorem copy_keeps_all_but_bracket (self : t) :
  NoDup (od_keys (standings self)) →
  copy self
  = mk (teams self)
       (match standings self with
        | [] => foldl Standings.add_team Standings.empty (teams self)
        | _ => standings self
        end)
       (round_robin_matches self) None (_completed_match_ids self).
Proof.
  intros Hnd. unfold copy, init.
  rewrite standings_copy_id by done. rewrite copy_matches_append.
  cbn [teams standings playoff_bracket]. unfold Standings.len.
  by destruct (standings self).
Qed.

Lemma add_teams_append (acc : Standings.t) (teams : list Team.t) :
  NoDup (od_keys acc ++ (Team.id <$> teams)) →
  foldl Standings.add_team acc teams
  = acc ++ ((λ team, (Team.id team, TeamStanding.mk team 0 0 ∅)) <$> teams).
Proof.
  revert acc. induction teams as [|x teams IH]; intros acc Hnd.
  - by rewrite app_nil_r.
  - simpl. rewrite fmap_cons, cons_middle, app_assoc in Hnd.
    rewrite cons_middle, app_assoc. unfold Standings.add_team at 2.
    rewrite od_set_fresh.
    + apply IH. unfold od_keys. by rewrite fmap_app.
    + apply od_get_None_keys. apply NoDup_app in Hnd as [Hnd _].
      apply NoDup_app in Hnd as (_ & Hdisj & _).
      intros Hk. apply (Hdisj _ Hk). apply list_elem_of_here.
Qed.

(** X14. [Tournament.create_new] for teams with pairwise different ids gives a
    ledger with one all-zero standing per team, in the order of the teams, a
    schedule whose every match is remaining and none completed, no bracket and
    no completed id. *)
Theorem create_new_fresh (teams : list Team.t) (e : entropy) :
  NoDup (Team.id <$> teams) →
  let t := (create_new teams e).1 in
  Tournament.teams t = teams
  ∧ standings t = (λ team, (Team.id team, TeamStanding.mk team 0 0 ∅)) <$> teams
  ∧ get_remaining_round_robin_matches t = round_robin_matches t
  ∧ get_completed_round_robin_matches t = []
  ∧ playoff_bracket t = None
  ∧ _completed_match_ids t = ∅.
Proof.
  intros Hnd t. subst t. unfold create_new, init.
  cbn [fst Tournament.teams standings round_robin_matches playoff_bracket
       _completed_match_ids].
  rewrite bool_decide_eq_true_2 by done.
  pose proof (schedule_pairs_unplayed (combinations2 teams) BO1 e) as Hall.
  unfold get_remaining_round_robin_matches, get_completed_round_robin_matches,
    generate_round_robin_schedule.
  cbn [round_robin_matches].
  split_and!; try done.
  - by rewrite add_teams_append.
  - induction Hall as [|m l (Hm & _) _ IH]; [done |].
    rewrite filter_cons_True; [by rewrite IH |].
    unfold Match.is_completed. by rewrite Hm.
  - induction Hall as [|m l (Hm & _) _ IH]; [done |].
    rewrite filter_cons_False; [done |].
    unfold Match.is_completed. by rewrite Hm.
Qed.

(** X15. [create_playoff_bracket] raises ValueError and changes nothing when it is
    given fewer than 8 standings; otherwise it seeds a new bracket with the
    teams of the first 8 standings, ignoring the rest, creates the four
    quarterfinals and nothing else, and stores the bracket in the tournament. *)
Theorem create_playoff_bracket_top_8 (self : t)
    (seeded_standings : list TeamStanding.t) (e : entropy) :
  match (create_playoff_bracket self seeded_standings e).1.1 with
  | Raise err =>
      (length seeded_standings < 8)%nat
      ∧ create_playoff_bracket self seeded_standings e
        = (Raise (ValueError "Need at least 8 teams for playoffs"), self, e)
  | Ok bracket =>
      (8 ≤ length seeded_standings)%nat
      ∧ PlayoffBracket.teams bracket = TeamStanding.team <$> take 8 seeded_standings
      ∧ od_keys (PlayoffBracket.matches bracket)
        = [UPPER_QF_1; UPPER_QF_2; UPPER_QF_3; UPPER_QF_4]
      ∧ PlayoffBracket.results bracket = []
      ∧ PlayoffBracket.is_complete bracket = false
      ∧ (create_playoff_bracket self seeded_standings e).1.2
        = mk (teams self) (standings self) (round_robin_matches self)
             (Some bracket) (_completed_match_ids self)
  end.
Proof.
  unfold create_playoff_bracket.
  case_bool_decide as Hlen; [done |].
  assert (length (take 8 seeded_standings) = 8%nat) as Hlen8
    by (rewrite length_take; lia).
  destruct (take 8 seeded_standings)
    as [|t1 [|t2 [|t3 [|t4 [|t5 [|t6 [|t7 [|t8 [|t9 rest]]]]]]]]];
    simpl in Hlen8; try lia.
  set (seeded := PlayoffBracket.seed_teams PlayoffBracket.new
                   (TeamStanding.team <$> [t1; t2; t3; t4; t5; t6; t7; t8]) e).
  assert (seeded.1.1 = Ok ()) as -> by reflexivity.
  cbn [fst snd]. split_and!; try done. lia.
Qed.
End tournament_facts.

Lemma record_round_robin_result_marks_witness :
  let self' := (Tournament.record_round_robin_result sample_tournament 0
                  (MatchResult.mk (sample_team 2 "B") (sample_team 1 "A") 1 0)).2 in
  (length (Tournament.get_remaining_round_robin_matches self') + 1
   = length (Tournament.get_remaining_round_robin_matches sample_tournament))%nat.
Proof.
  intros self'.
  eapply (record_round_robin_result_marks sample_tournament 0
            (Match.mk (sample_team 1 "A") (sample_team 2 "B") BO1 "round_robin"
                      None None None 1000%N)
            (MatchResult.mk (sample_team 2 "B") (sample_team 1 "A") 1 0));
    reflexivity.
Defined.

Lemma record_round_robin_result_unknown_team_witness :
  Tournament.record_round_robin_result sample_tournament 0
    (MatchResult.mk (sample_team 2 "B") (sample_team 11 "K") 1 0)
  = (Raise (ValueError "Both teams must be in standings"),
     Tournament.mk (Tournament.teams sample_tournament)
       (Tournament.standings sample_tournament)
       (<[0%nat := Match.set_result
                     (Match.mk (sample_team 1 "A") (sample_team 2 "B") BO1
                               "round_robin" None None None 1000%N)
                     (MatchResult.mk (sample_team 2 "B") (sample_team 11 "K") 1 0)]>
          (Tournament.round_robin_matches sample_tournament))
       (Tournament.playoff_bracket sample_tournament)
       ({[1000%N]} ∪ Tournament._completed_match_ids sample_tournament)).
Proof.
  apply (record_round_robin_result_unknown_team sample_tournament 0
           (Match.mk (sample_team 1 "A") (sample_team 2 "B") BO1 "round_robin"
                     None None None 1000%N)
           (MatchResult.mk (sample_team 2 "B") (sample_team 11 "K") 1 0)).
  - reflexivity.
  - right. reflexivity.
Defined.

Lemma copy_keeps_all_but_bracket_witness :
  Tournament.copy sample_tournament
  = Tournament.mk (Tournament.teams sample_tournament)
      (Tournament.standings sample_tournament)
      (Tournament.round_robin_matches sample_tournament) None
      (Tournament._completed_match_ids sample_tournament).
Proof.
  apply (copy_keeps_all_but_bracket sample_tournament).
  apply (bool_decide_unpack
           (NoDup (od_keys (Tournament.standings sample_tournament)))).
  reflexivity.
Defined.

Lemma create_new_fresh_witness :
  let t := (Tournament.create_new sample_teams sample_entropy).1 in
  Tournament.teams t = sample_teams
  ∧ Tournament.standings t
    = (λ team, (Team.id team, TeamStanding.mk team 0 0 ∅)) <$> sample_teams
  ∧ Tournament.get_remaining_round_robin_matches t
    = Tournament.round_robin_matches t
  ∧ Tournament.get_completed_round_robin_matches t = []
  ∧ Tournament.playoff_bracket t = None
  ∧ Tournament._completed_match_ids t = ∅.
Proof.
  apply (create_new_fresh sample_teams sample_entropy).
  apply (bool_decide_unpack (NoDup (Team.id <$> sample_teams))). reflexivity.
Defined.

(** ** What the bracket keeps *)

Section bracket_facts.
Context `{PyRuntime}.
Import PlayoffBracket.

Lemma keeps_matches_refl b : keeps_matches b b.
Proof. intros q m Hm. eauto. Qed.

Lemma keeps_matches_trans b1 b2 b3 :
  keeps_matches b1 b2 → keeps_matches b2 b3 → keeps_matches b1 b3.
Proof.
  intros H12 H23 q m Hm.
  destruct (H12 q m Hm) as (m2 & Hm2 & Hid & Hfmt & Hst).
  destruct (H23 q m2 Hm2) as (m3 & Hm3 & Hid' & Hfmt' & Hst').
  exists m3. split; [done |]. split_and!; congruence.
Qed.

(** Filling a slot touches nothing but the matches, and of those only the
    teams. *)
Lemma set_or_create_fields b q team is_team_a fmt e :
  let b' := (_set_or_create_match b q team is_team_a fmt e).1 in
  teams b' = teams b ∧ results b' = results b ∧ eliminated b' = eliminated b
  ∧ champion b' = champion b ∧ runner_up b' = runner_up b
  ∧ third_place b' = third_place b ∧ fourth_place b' = fourth_place b
  ∧ keeps_matches b b'.
Proof.
  unfold _set_or_create_match.
  destruct (od_get q (matches b)) as [m0|] eqn:Hq; cbn [fst]; split_and!;
    try done.
  - intros q' m Hm. cbn [matches set_matches]. rewrite od_get_set.
    case_decide as Hqq; [| eauto].
    subst q'. rewrite Hq in Hm. injection Hm as ->.
    eexists. split; [done |]. by destruct is_team_a.
  - intros q' m Hm. unfold put_new_match. cbn [fst matches set_matches].
    rewrite od_get_set. case_decide as Hqq; [| eauto]. congruence.
Qed.

Lemma team_set_add_mono x y s :
  team_set_mem x s = true → team_set_mem x (team_set_add y s) = true.
Proof.
  unfold team_set_add, team_set_mem. intros Hx.
  destruct (existsb (Team.eqb y) s); [done |].
  by rewrite existsb_app, Hx.
Qed.

Lemma route_fields b wpos winner w_is_a wfmt lpos loser l_is_a lfmt e :
  let b' := (route b wpos winner w_is_a wfmt lpos loser l_is_a lfmt e).1 in
  teams b' = teams b ∧ results b' = results b ∧ eliminated b' = eliminated b
  ∧ champion b' = champion b ∧ runner_up b' = runner_up b
  ∧ third_place b' = third_place b ∧ fourth_place b' = fourth_place b
  ∧ keeps_matches b b'.
Proof.
  unfold route.
  pose proof (set_or_create_fields b wpos winner w_is_a wfmt e) as F1.
  set (st := _set_or_create_match b wpos winner w_is_a wfmt e) in *.
  pose proof (set_or_create_fields st.1 lpos loser l_is_a lfmt st.2) as F2.
  cbv zeta in *.
  destruct F2 as (-> & -> & -> & -> & -> & -> & -> & K2).
  destruct F1 as (-> & -> & -> & -> & -> & -> & -> & K1).
  split_and!; try done. by eapply keeps_matches_trans.
Qed.

(** What one step of the progression does to everything but the matches. *)
Lemma progression_fields b p r e :
  let b' := (_update_bracket_progression b p r e).1 in
  teams b' = teams b ∧ results b' = results b
  ∧ eliminated b'
    = (if is_upper p then eliminated b
       else team_set_add (MatchResult.loser r) (eliminated b))
  ∧ champion b'
    = (if decide (p = GRAND_FINAL) then Some (MatchResult.winner r) else champion b)
  ∧ runner_up b'
    = (if decide (p = GRAND_FINAL) then Some (MatchResult.loser r) else runner_up b)
  ∧ third_place b'
    = (if decide (p = LOWER_FINAL) then Some (MatchResult.loser r) else third_place b)
  ∧ fourth_place b'
    = (if decide (p = LOWER_SF) then Some (MatchResult.loser r) else fourth_place b)
  ∧ keeps_matches b b'.
Proof.
  destruct p; cbn [_update_bracket_progression is_upper];
    try apply route_fields; unfold advance; cbn [fst snd];
    try match goal with
    | |- context [_set_or_create_match ?b0 ?q ?t ?a ?f ?e0] =>
        let F := fresh "F" in
        pose proof (set_or_create_fields b0 q t a f e0) as F;
        cbv zeta in F;
        destruct F as (F1 & F2 & F3 & F4 & F5 & F6 & F7 & F8)
    end;
    cbn [teams results eliminated champion runner_up third_place fourth_place
         eliminate set_eliminated set_champion set_runner_up set_third_place
         set_fourth_place];
    split_and!; try reflexivity; try congruence; try assumption;
    try apply keeps_matches_refl.
  intros q m Hm. eauto.
Qed.

(** X16. [PlayoffBracket.record_result] stores the result at its position and
    leaves the results of all other positions as they were; no team leaves the
    eliminated set; every match that exists keeps its id, format and stage;
    the seeded teams stay. *)
Theorem record_result_keeps (b : t) (p : BracketPosition) (r : MatchResult.t)
    (e : entropy) :
  let b' := (record_result b p r e).1 in
  od_get p (results b') = Some r
  ∧ (∀ q, q ≠ p → od_get q (results b') = od_get q (results b))
  ∧ (∀ x, team_set_mem x (eliminated b) = true →
          team_set_mem x (eliminated b') = true)
  ∧ keeps_matches b b'
  ∧ teams b' = teams b.
Proof.
  unfold record_result.
  destruct (progression_fields
              (set_results b (od_set p r (results b))) p r e)
    as (Ht & Hr & He & _ & _ & _ & _ & Hk).
  cbv zeta. rewrite Hr, He, Ht. cbn [results eliminated teams set_results].
  split_and!.
  - rewrite od_get_set. by rewrite decide_True.
  - intros q Hq. rewrite od_get_set. by rewrite decide_False.
  - intros x Hx. destruct (is_upper p); [done |]. by apply team_set_add_mono.
  - exact Hk.
  - done.
Qed.

(** X17. Double elimination, step by step: recording a result at an upper-bracket
    position leaves the eliminated set as it was, recording one at a lower-
    bracket position or at the grand final adds the loser to it. *)
Theorem upper_bracket_never_eliminates (b : t) (p : BracketPosition)
    (r : MatchResult.t) (e : entropy) :
  eliminated (record_result b p r e).1
  = if is_upper p then eliminated b
    else team_set_add (MatchResult.loser r) (eliminated b).
Proof.
  unfold record_result.
  destruct (progression_fields
              (set_results b (od_set p r (results b))) p r e)
    as (_ & _ & He & _).
  exact He.
Qed.

(** X18. In every bracket reached from a new one by seeding and recording, the
    champion and the runner-up are the winner and the loser of the result
    recorded at the grand final, third and fourth place the losers recorded at
    the lower final and the lower semifinal, each unset exactly when that
    result is missing; so the bracket is complete iff the grand final has a
    result. *)
Theorem placements_follow_results (b : t) :
  bracket_reachable b →
  champion b = MatchResult.winner <$> od_get GRAND_FINAL (results b)
  ∧ runner_up b = MatchResult.loser <$> od_get GRAND_FINAL (results b)
  ∧ third_place b = MatchResult.loser <$> od_get LOWER_FINAL (results b)
  ∧ fourth_place b = MatchResult.loser <$> od_get LOWER_SF (results b)
  ∧ is_complete b = od_mem GRAND_FINAL (results b).
Proof.
  intros Hb.
  enough (champion b = MatchResult.winner <$> od_get GRAND_FINAL (results b)
          ∧ runner_up b = MatchResult.loser <$> od_get GRAND_FINAL (results b)
          ∧ third_place b = MatchResult.loser <$> od_get LOWER_FINAL (results b)
          ∧ fourth_place b = MatchResult.loser <$> od_get LOWER_SF (results b))
    as (Hc & Hu & H3 & H4).
  { split_and!; try done. unfold is_complete, od_mem. rewrite Hc.
    by destruct (od_get GRAND_FINAL (results b)). }
  induction Hb as [|b seeded_teams e b' e' Hb IH Hseed|b p r e Hb IH].
  - done.
  - revert Hseed. unfold seed_teams.
    destruct seeded_teams
      as [|s1 [|s2 [|s3 [|s4 [|s5 [|s6 [|s7 [|s8 [|s9 rest]]]]]]]]]; try done.
    intros [= <- _]. exact IH.
  - destruct IH as (Hc & Hu & H3 & H4). unfold record_result.
    destruct (progression_fields
                (set_results b (od_set p r (results b))) p r e)
      as (_ & Hr & _ & Hc' & Hu' & H3' & H4' & _).
    rewrite Hr, Hc', Hu', H3', H4'.
    cbn [results champion runner_up third_place fourth_place set_results].
    rewrite !od_get_set, Hc, Hu, H3, H4.
    split_and!; repeat case_decide; simplify_eq; done.
Qed.
End bracket_facts.

Lemma placements_follow_results_witness :
  PlayoffBracket.champion sample_bracket
  = MatchResult.winner <$> od_get GRAND_FINAL (PlayoffBracket.results sample_bracket)
  ∧ PlayoffBracket.runner_up sample_bracket
    = MatchResult.loser <$> od_get GRAND_FINAL (PlayoffBracket.results sample_bracket)
  ∧ PlayoffBracket.third_place sample_bracket
    = MatchResult.loser <$> od_get LOWER_FINAL (PlayoffBracket.results sample_bracket)
  ∧ PlayoffBracket.fourth_place sample_bracket
    = MatchResult.loser <$> od_get LOWER_SF (PlayoffBracket.results sample_bracket)
  ∧ PlayoffBracket.is_complete sample_bracket
    = od_mem GRAND_FINAL (PlayoffBracket.results sample_bracket).
Proof.
  apply (placements_follow_results sample_bracket).
  exact sample_bracket_reachable.
Defined.

Lemma foldl_cons_eq {A B} (f : A → B → A) (a : A) (x : B) (l : list B) :
  foldl f a (x :: l) = foldl f (f a x) l.
Proof. done. Qed.

Section bracket_play.
Context `{PyRuntime}.
Import PlayoffBracket SimulationEngine.

Lemma play_position_keeps_result self st q p r :
  od_get p (results st.1.1) = Some r →
  od_get p (results (play_position self st q).1.1) = Some r.
Proof.
  intros Hp. unfold play_position.
  destruct (od_mem q (matches st.1.1)); [| done].
  destruct (od_mem q (results st.1.1)) eqn:Hq; [done |].
  cbn [andb negb].
  destruct (od_get q (matches st.1.1)) as [m|]; [| done].
  destruct (Team.eqb _ _); [done |]. cbn [negb fst snd].
  destruct (record_result_keeps st.1.1 q (simulate_match self m st.1.2).1 st.2)
    as (_ & Hother & _).
  rewrite Hother; [done |].
  intros ->. unfold od_mem in Hq. by rewrite Hp in Hq.
Qed.

(** X19. [simulate_playoffs] never replays a match: a result the bracket holds when
    the call starts is still the result at that position when it returns. *)
Theorem simulate_playoffs_keeps_results (self : SimulationEngine.t)
    (bracket : PlayoffBracket.t) (rng : rng_state) (e : entropy)
    (p : BracketPosition) (r : MatchResult.t) :
  od_get p (results bracket) = Some r →
  od_get p (results (simulate_playoffs self bracket rng e).1.1) = Some r.
Proof.
  intros Hp. unfold simulate_playoffs.
  assert (od_get p (results (bracket, rng, e).1.1) = Some r) as Hst by exact Hp.
  revert Hst. generalize (bracket, rng, e).
  induction match_order as [|q positions IH]; intros st Hst; [done |].
  rewrite foldl_cons_eq. apply IH. by apply play_position_keeps_result.
Qed.

(** X20. On a bracket that has a result at each of the fourteen positions
    [simulate_playoffs] does nothing: the bracket, the random generator and
    the entropy come back unchanged. *)
Theorem simulate_playoffs_idle (self : SimulationEngine.t)
    (bracket : PlayoffBracket.t) (rng : rng_state) (e : entropy) :
  (∀ p, p ∈ match_order → od_mem p (results bracket) = true) →
  simulate_playoffs self bracket rng e = (bracket, rng, e).
Proof.
  intros Hall. unfold simulate_playoffs.
  induction match_order as [|q positions IH]; [done |].
  rewrite foldl_cons_eq. unfold play_position at 2. cbn [fst snd].
  rewrite (Hall q) by apply list_elem_of_here.
  rewrite andb_false_r. apply IH.
  intros p Hp. apply Hall. by apply list_elem_of_further.
Qed.
End bracket_play.

Section bracket_end.
Context `{PyRuntime}.
Import PlayoffBracket SimulationEngine.

Lemma placements_of_complete b c r t f e5 e6 e7 e8 :
  NoDup (Team.id <$> [c; r; t; f; e5; e6; e7; e8]) →
  champion b = Some c → runner_up b = Some r →
  third_place b = Some t → fourth_place b = Some f →
  eliminated b = [e5; e6; e7; e8; f; t; r] →
  get_placement b <$> [c; r; t; f; e5; e6; e7; e8]
  = Some <$> [1; 2; 3; 4; 5; 5; 5; 5].
Proof.
  intros Hnd Hc Hr Ht Hf He.
  unfold get_placement. rewrite Hc, Hr, Ht, Hf, He.
  unfold Team.eqb_opt, team_set_mem, Team.eqb.
  cbn [fmap list_fmap existsb]. simpl in Hnd.
  repeat match goal with
  | |- context [bool_decide (?x = ?x)] =>
      rewrite (bool_decide_eq_true_2 (x = x)) by reflexivity
  | |- context [bool_decide (?x = ?y)] =>
      rewrite (bool_decide_eq_false_2 (x = y)) by solve_ne Hnd
  end.
  reflexivity.
Qed.

Lemma filter_none {A} (P : A → Prop) `{∀ x, Decision (P x)} (l : list A) :
  (∀ x, x ∈ l → ¬ P x) → filter P l = [].
Proof.
  induction l as [|x l IH]; [done |]. intros Hno.
  rewrite filter_cons_False by (apply Hno, list_elem_of_here).
  apply IH. intros y Hy. apply Hno. by apply list_elem_of_further.
Qed.

(** X21. Whatever the win rates and the draws, [simulate_playoffs] on a bracket
    seeded with eight different teams records the fourteen results in playing
    order, leaves no match ready to play and a complete bracket; the eight
    seeds are the champion, the runner-up, third, fourth and four more
    eliminated teams, and [get_placement] answers 1, 2, 3, 4 and 5, 5, 5, 5
    for them. *)
Theorem playoffs_always_complete (self : SimulationEngine.t)
    (s1 s2 s3 s4 s5 s6 s7 s8 : Team.t) (rng : rng_state) (e : entropy) :
  NoDup (Team.id <$> [s1; s2; s3; s4; s5; s6; s7; s8]) →
  let seeded := seed_teams new [s1; s2; s3; s4; s5; s6; s7; s8] e in
  let final := (simulate_playoffs self seeded.1.2 rng seeded.2).1.1 in
  od_keys (results final) = match_order
  ∧ get_next_matches final = []
  ∧ is_complete final = true
  ∧ ∃ c r t f e5 e6 e7 e8,
      [c; r; t; f; e5; e6; e7; e8] ≡ₚ [s1; s2; s3; s4; s5; s6; s7; s8]
      ∧ champion final = Some c ∧ runner_up final = Some r
      ∧ third_place final = Some t ∧ fourth_place final = Some f
      ∧ set_iter (eliminated final) ≡ₚ [r; t; f; e5; e6; e7; e8]
      ∧ get_placement final <$> [c; r; t; f; e5; e6; e7; e8]
        = Some <$> [1; 2; 3; 4; 5; 5; 5; 5].
Proof.
  intros Hnd seeded final.
  destruct (bracket_run self s1 s2 s3 s4 s5 s6 s7 s8 rng e Hnd)
    as (r1 & r2 & r3 & r4 & r5 & r6 & r7 & r8 & r9 & r10 & r11 & r12 & r13 & r14
        & _ & _ & _ & _ & _ & _ & _ & _
        & Hres & Helim & Hchamp & Hru & H3 & H4 & Hperm).
  fold seeded in Hres, Helim, Hchamp, Hru, H3, H4.
  fold final in Hres, Helim, Hchamp, Hru, H3, H4.
  split_and!.
  - by rewrite Hres.
  - unfold get_next_matches. apply filter_none.
    intros [p m] _ [Hp _]. cbn [fst] in Hp. rewrite Hres in Hp.
    by destruct p.
  - unfold is_complete. by rewrite Hchamp.
  - eexists _, _, _, _, _, _, _, _.
    split; [exact Hperm |]. split_and!; try done.
    + rewrite set_iter_perm, Helim. solve_perm.
    + apply placements_of_complete; try done.
      eapply NoDup_perm; [| exact Hnd]. symmetry. by apply fmap_Permutation.
Qed.
End bracket_end.

Lemma playoffs_always_complete_witness :
  let self := sample_engine (WinRateMatrix.uniform (1 # 2)) in
  let seeded := PlayoffBracket.seed_teams PlayoffBracket.new (take 8 sample_teams)
                  sample_entropy in
  let final := (SimulationEngine.simulate_playoffs self seeded.1.2 (Random 7)
                  seeded.2).1.1 in
  PlayoffBracket.get_next_matches final = []
  ∧ PlayoffBracket.is_complete final = true.
Proof.
  intros self.
  destruct (playoffs_always_complete self
              (sample_team 1 "A") (sample_team 2 "B") (sample_team 3 "C")
              (sample_team 4 "D") (sample_team 5 "E") (sample_team 6 "F")
              (sample_team 7 "G") (sample_team 8 "H") (Random 7) sample_entropy)
    as (_ & Hnext & Hcomplete & _).
  - apply (bool_decide_unpack (NoDup (Team.id <$> take 8 sample_teams))).
    reflexivity.
  - split; [exact Hnext | exact Hcomplete].
Defined.

Lemma simulate_playoffs_keeps_results_witness :
  od_get UPPER_QF_1
    (PlayoffBracket.results
       (SimulationEngine.simulate_playoffs
          (sample_engine (WinRateMatrix.uniform (1 # 2))) sample_bracket
          (Random 7) sample_entropy).1.1)
  = Some (MatchResult.mk (sample_team 1 "A") (sample_team 8 "H") 2 0).
Proof.
  apply (simulate_playoffs_keeps_results
           (sample_engine (WinRateMatrix.uniform (1 # 2))) sample_bracket
           (Random 7) sample_entropy UPPER_QF_1).
  vm_compute. reflexivity.
Defined.

Lemma simulate_playoffs_idle_witness :
  SimulationEngine.simulate_playoffs
    (sample_engine (WinRateMatrix.uniform (1 # 2))) sample_final_bracket
    (Random 9) sample_entropy
  = (sample_final_bracket, Random 9, sample_entropy).
Proof.
  apply (simulate_playoffs_idle
           (sample_engine (WinRateMatrix.uniform (1 # 2))) sample_final_bracket
           (Random 9) sample_entropy).
  intros p _. destruct p; vm_compute; reflexivity.
Defined.

(** ** Tiebreakers, rule by rule *)

Section tiebreakers.
Context `{PyRuntime}.
Import TiebreakerResult.

(** X22. For a group of two whose direct wins against each other differ, the
    default chain answers with HEAD_TO_HEAD, the team with more direct wins
    first, and leaves the random generator as it was: neither strength of
    victory nor the coin flip is consulted. *)
Theorem two_way_head_to_head (t1 t2 : TeamStanding.t) (all : Standings.t)
    (rng : rng_state) :
  (TeamStanding.get_h2h_record t1 (Team.id (TeamStanding.team t2))).1
  ≠ (TeamStanding.get_h2h_record t2 (Team.id (TeamStanding.team t1))).1 →
  TiebreakerChain.resolve (TiebreakerChain.init None) [t1; t2] all rng
  = (mk true (Some HEAD_TO_HEAD)
        (if bool_decide
              ((TeamStanding.get_h2h_record t1 (Team.id (TeamStanding.team t2))).1
               > (TeamStanding.get_h2h_record t2 (Team.id (TeamStanding.team t1))).1)
         then [t1; t2] else [t2; t1])
        "H2H wins",
     rng).
Proof.
  intros Hne.
  unfold TiebreakerChain.resolve, TiebreakerChain.init.
  rewrite bool_decide_eq_false_2 by (simpl; lia).
  cbn [TiebreakerChain.apply_rules TiebreakerRule_resolve
       HeadToHeadTiebreaker.resolve fst snd].
  unfold HeadToHeadTiebreaker._resolve_two_way. cbv zeta.
  case_bool_decide as H12; [done |].
  rewrite bool_decide_eq_true_2 by lia. done.
Qed.

Lemma size_list_to_set_le (xs : list Z) :
  (size (list_to_set xs : gset Z) ≤ length xs)%nat.
Proof.
  induction xs as [|x xs IH]; [done |].
  rewrite list_to_set_cons. simpl.
  rewrite size_union_alt, size_singleton.
  pose proof (subseteq_size (list_to_set xs ∖ {[x]}) (list_to_set xs : gset Z)
                (subseteq_difference_l _ _ _ (reflexivity _))).
  lia.
Qed.

(** [len(set(xs)) == len(xs)] says that no value occurs twice. *)
Lemma all_distinct_NoDup (xs : list Z) : all_distinct xs = true ↔ NoDup xs.
Proof.
  unfold all_distinct. rewrite bool_decide_eq_true.
  split; [| apply size_list_to_set].
  induction xs as [|x xs IH]; [constructor |].
  rewrite list_to_set_cons. simpl. intros Hsize.
  pose proof (size_list_to_set_le xs) as Hle.
  destruct (decide (x ∈ xs)) as [Hin | Hnin].
  - exfalso.
    rewrite (subseteq_union_1_L {[x]} (list_to_set xs : gset Z)) in Hsize.
    + lia.
    + apply singleton_subseteq_l. by apply elem_of_list_to_set.
  - constructor; [done |]. apply IH.
    rewrite size_union in Hsize.
    + rewrite size_singleton in Hsize. lia.
    + apply disjoint_singleton_l. by rewrite elem_of_list_to_set.
Qed.

Lemma internal_records_other (ids : gset N) (l : list TeamStanding.t)
    (acc : gmap N (Z * Z * Z)) (k : N) :
  k ∉ (λ t, Team.id (TeamStanding.team t)) <$> l →
  foldl (λ recs t,
           <[Team.id (TeamStanding.team t)
             := HeadToHeadTiebreaker.internal_record ids t]> recs) acc l !! k
  = acc !! k.
Proof.
  revert acc. induction l as [|x l IH]; intros acc Hk; [done |].
  rewrite fmap_cons, not_elem_of_cons in Hk. destruct Hk as [Hx Hl].
  simpl. rewrite IH by done. by rewrite lookup_insert_ne.
Qed.

(** Every team of a group with pairwise different ids finds its own record
    in [internal_records]. *)
Lemma internal_records_own (ids : gset N) (l : list TeamStanding.t)
    (acc : gmap N (Z * Z * Z)) (t : TeamStanding.t) :
  NoDup ((λ t, Team.id (TeamStanding.team t)) <$> l) → t ∈ l →
  foldl (λ recs t,
           <[Team.id (TeamStanding.team t)
             := HeadToHeadTiebreaker.internal_record ids t]> recs) acc l
    !! Team.id (TeamStanding.team t)
  = Some (HeadToHeadTiebreaker.internal_record ids t).
Proof.
  revert acc. induction l as [|x l IH]; intros acc Hnd Ht.
  - by apply elem_of_nil in Ht.
  - rewrite fmap_cons in Hnd. apply NoDup_cons in Hnd as [Hx Hnd].
    simpl. apply elem_of_cons in Ht as [-> | Ht].
    + rewrite internal_records_other by done. by rewrite lookup_insert_eq.
    + by apply IH.
Qed.

Lemma sum_Z_perm (l l' : list Z) : l ≡ₚ l' → sum_Z l = sum_Z l'.
Proof.
  unfold sum_Z.
  induction 1 as [|x l l' _ IH|x y l|l l' l'' _ IH1 _ IH2]; simpl; lia.
Qed.

Lemma sum_Z_sub {A} (f g : A → Z) (l : list A) :
  sum_Z (f <$> l) - sum_Z (g <$> l) = sum_Z ((λ x, f x - g x) <$> l).
Proof.
  induction l as [|x l IH]; [done |].
  rewrite !fmap_cons, !sum_Z_cons. lia.
Qed.

Lemma filter_fmap {A B} (f : A → B) (P : B → Prop) `{∀ y, Decision (P y)}
    (l : list A) :
  filter P (f <$> l) = f <$> filter (λ x, P (f x)) l.
Proof.
  induction l as [|x l IH]; [done |].
  rewrite fmap_cons, !filter_cons, IH. by case_decide.
Qed.

(** The third component of the code's [internal_record], computed over the
    set of the group's ids, is the differential over the other teams of the
    group when no two of them share an id. *)
Lemma internal_record_diff (teams : list TeamStanding.t) (t : TeamStanding.t) :
  NoDup ((λ t, Team.id (TeamStanding.team t)) <$> teams) →
  (HeadToHeadTiebreaker.internal_record
     (list_to_set ((λ t, Team.id (TeamStanding.team t)) <$> teams)) t).2
  = internal_diff teams t.
Proof.
  intros Hnd. unfold HeadToHeadTiebreaker.internal_record, internal_diff.
  cbn [snd]. rewrite sum_Z_sub.
  rewrite (sum_Z_perm _
             ((λ o, (TeamStanding.get_h2h_record t o).1
                    - (TeamStanding.get_h2h_record t o).2)
              <$> filter (λ other_id, other_id ≠ Team.id (TeamStanding.team t))
                         ((λ t, Team.id (TeamStanding.team t)) <$> teams))).
  - rewrite filter_fmap, <- list_fmap_compose. reflexivity.
  - apply fmap_Permutation, filter_Permutation. by apply elements_list_to_set.
Qed.

Lemma diff_of_internal (teams : list TeamStanding.t) (t : TeamStanding.t) :
  NoDup ((λ t, Team.id (TeamStanding.team t)) <$> teams) → t ∈ teams →
  HeadToHeadTiebreaker.diff_of (HeadToHeadTiebreaker.internal_records teams) t
  = internal_diff teams t.
Proof.
  intros Hnd Ht.
  unfold HeadToHeadTiebreaker.diff_of, HeadToHeadTiebreaker.internal_records.
  rewrite internal_records_own by done.
  by apply internal_record_diff.
Qed.

Lemma insert_desc_ext {A} (key key' : A → Z) (x : A) (l : list A) :
  key x = key' x → (∀ y, y ∈ l → key y = key' y) →
  insert_desc key x l = insert_desc key' x l.
Proof.
  intros Hx. induction l as [|y l IH]; intros Hl; [done |].
  simpl. rewrite Hx, (Hl y) by apply list_elem_of_here.
  case_bool_decide; [| done].
  rewrite IH; [done |]. intros z Hz. apply Hl. by apply list_elem_of_further.
Qed.

Lemma sorted_desc_ext {A} (key key' : A → Z) (l : list A) :
  (∀ y, y ∈ l → key y = key' y) → sorted_desc key l = sorted_desc key' l.
Proof.
  induction l as [|x l IH]; intros Hl; [done |].
  unfold sorted_desc in *. simpl. rewrite <- IH.
  - apply insert_desc_ext; [apply Hl, list_elem_of_here |].
    intros y Hy. apply Hl, list_elem_of_further.
    by rewrite <- (sorted_desc_perm key l).
  - intros y Hy. by apply Hl, list_elem_of_further.
Qed.

(** X23. For a group of other than two teams with pairwise different ids,
    [HeadToHeadTiebreaker.resolve] orders the group by the teams' win-loss
    differential inside the group, larger first: the sum, over the other
    teams of the group, of the wins less the losses of the team's
    head-to-head record against them ([internal_diff]).  It reports the tie
    resolved, by HEAD_TO_HEAD, exactly when no two teams have the same
    differential, and unresolved with no method otherwise. *)
Theorem multi_way_by_differential (teams : list TeamStanding.t)
    (all : Standings.t) :
  length teams ≠ 2%nat →
  NoDup ((λ t, Team.id (TeamStanding.team t)) <$> teams) →
  let r := HeadToHeadTiebreaker.resolve teams all in
  ordered_teams r ≡ₚ teams
  ∧ StronglySorted (by_key_desc (internal_diff teams)) (ordered_teams r)
  ∧ (resolved r = true ↔ NoDup (internal_diff teams <$> teams))
  ∧ method_used r = (if resolved r then Some HEAD_TO_HEAD else None).
Proof.
  intros Hlen Hnd r.
  assert (r = HeadToHeadTiebreaker._resolve_multi_way teams) as ->.
  { subst r. unfold HeadToHeadTiebreaker.resolve.
    by destruct teams as [|t1 [|t2 [|t3 teams]]]. }
  unfold HeadToHeadTiebreaker._resolve_multi_way. cbv zeta.
  rewrite (sorted_desc_ext _ (internal_diff teams))
    by (intros; by apply diff_of_internal).
  assert (HeadToHeadTiebreaker.diff_of (HeadToHeadTiebreaker.internal_records teams)
            <$> sorted_desc (internal_diff teams) teams
          = internal_diff teams <$> sorted_desc (internal_diff teams) teams)
    as ->.
  { apply list_fmap_ext. intros i t Ht. apply diff_of_internal; [done |].
    rewrite <- (sorted_desc_perm (internal_diff teams) teams).
    by eapply list_elem_of_lookup_2. }
  assert (all_distinct (internal_diff teams <$> sorted_desc (internal_diff teams) teams)
          = true ↔ NoDup (internal_diff teams <$> teams)) as Hdistinct.
  { rewrite all_distinct_NoDup. by rewrite sorted_desc_perm. }
  destruct (all_distinct _) eqn:E; cbn [ordered_teams resolved method_used];
    (split_and!; [apply sorted_desc_perm | apply sorted_desc_sorted | | done]).
  - by rewrite <- Hdistinct.
  - rewrite <- Hdistinct. done.
Qed.

Lemma head_to_head_method tied all :
  method_used (HeadToHeadTiebreaker.resolve tied all) ≠ Some COINFLIP.
Proof.
  unfold HeadToHeadTiebreaker.resolve, HeadToHeadTiebreaker._resolve_two_way,
    HeadToHeadTiebreaker._resolve_multi_way.
  destruct tied as [|t1 [|t2 [|t3 tied]]]; cbv zeta;
    repeat case_match; done.
Qed.

Lemma strength_of_victory_method tied all :
  method_used (StrengthOfVictoryTiebreaker.resolve tied all) ≠ Some COINFLIP.
Proof.
  unfold StrengthOfVictoryTiebreaker.resolve. cbv zeta. by case_match.
Qed.

(** X24. The default chain answers COINFLIP exactly when the group has at least two
    teams and both head-to-head and, on the order head-to-head left, strength
    of victory fail; the answer is then the shuffle of the order strength of
    victory left. In every other case the random generator comes back
    untouched. *)
Theorem coinflip_is_the_last_resort (tied : list TeamStanding.t)
    (all : Standings.t) (rng : rng_state) :
  let r := TiebreakerChain.resolve (TiebreakerChain.init None) tied all rng in
  let h := HeadToHeadTiebreaker.resolve tied all in
  let s := StrengthOfVictoryTiebreaker.resolve (ordered_teams h) all in
  (method_used r.1 = Some COINFLIP
   ↔ (1 < length tied)%nat ∧ resolved h = false ∧ resolved s = false)
  ∧ (method_used r.1 = Some COINFLIP →
     r = CoinflipTiebreaker.resolve (ordered_teams s) all rng)
  ∧ (method_used r.1 ≠ Some COINFLIP → r.2 = rng).
Proof.
  intros r h s. subst r.
  unfold TiebreakerChain.resolve, TiebreakerChain.init.
  case_bool_decide as Hlen.
  { cbn [fst snd method_used]. split_and!; [| done | done].
    split; [done |]. intros [? _]. lia. }
  cbn [TiebreakerChain.apply_rules TiebreakerRule_resolve fst snd].
  fold h.
  pose proof (head_to_head_method tied all) as Hh. fold h in Hh.
  destruct (resolved h) eqn:Eh.
  { cbn [fst snd]. split_and!; [| done | done].
    split; [done |]. by intros (_ & ? & _). }
  fold s.
  pose proof (strength_of_victory_method (ordered_teams h) all) as Hs.
  fold s in Hs.
  destruct (resolved s) eqn:Es.
  { cbn [fst snd]. split_and!; [| done | done].
    split; [done |]. by intros (_ & _ & ?). }
  unfold CoinflipTiebreaker.resolve. cbn [fst snd resolved method_used].
  split_and!; [| done | done].
  split; [| done]. intros _. split_and!; [lia | done | done].
Qed.
End tiebreakers.

Lemma two_way_head_to_head_witness :
  TiebreakerChain.resolve (TiebreakerChain.init None)
    [TeamStanding.mk (sample_team 1 "A") 0 2 {[3%N := (0, 1); 2%N := (0, 1)]};
     TeamStanding.mk (sample_team 2 "B") 1 0 {[1%N := (1, 0)]}]
    sample_ledger (Random 7)
  = (TiebreakerResult.mk true (Some HEAD_TO_HEAD)
       [TeamStanding.mk (sample_team 2 "B") 1 0 {[1%N := (1, 0)]};
        TeamStanding.mk (sample_team 1 "A") 0 2 {[3%N := (0, 1); 2%N := (0, 1)]}]
       "H2H wins",
     Random 7).
Proof.
  rewrite (two_way_head_to_head
             (TeamStanding.mk (sample_team 1 "A") 0 2
                {[3%N := (0, 1); 2%N := (0, 1)]})
             (TeamStanding.mk (sample_team 2 "B") 1 0 {[1%N := (1, 0)]})
             sample_ledger (Random 7)).
  - reflexivity.
  - vm_compute. discriminate.
Defined.

Lemma multi_way_by_differential_witness :
  let r := HeadToHeadTiebreaker.resolve (od_values sample_ledger) sample_ledger in
  internal_diff (od_values sample_ledger) <$> od_values sample_ledger = [-2; 1; 1]
  ∧ TiebreakerResult.ordered_teams r ≡ₚ od_values sample_ledger
  ∧ StronglySorted (by_key_desc (internal_diff (od_values sample_ledger)))
      (TiebreakerResult.ordered_teams r)
  ∧ (TiebreakerResult.resolved r = true
     ↔ NoDup (internal_diff (od_values sample_ledger) <$> od_values sample_ledger))
  ∧ TiebreakerResult.method_used r
    = (if TiebreakerResult.resolved r then Some HEAD_TO_HEAD else None).
Proof.
  split; [vm_compute; reflexivity |].
  apply (multi_way_by_differential (od_values sample_ledger) sample_ledger).
  - vm_compute. discriminate.
  - apply (bool_decide_unpack
             (NoDup ((λ t, Team.id (TeamStanding.team t)) <$> od_values sample_ledger))).
    reflexivity.
Defined.

(** ** The regular season of a trial *)

Section season.
Context `{PyRuntime}.
Import SimulationEngine.

Lemma record_round_robin_matches t i r :
  Tournament.round_robin_matches (Tournament.record_round_robin_result t i r).2
  = match Tournament.round_robin_matches t !! i with
    | Some m => <[i := Match.set_result m r]> (Tournament.round_robin_matches t)
    | None => Tournament.round_robin_matches t
    end.
Proof.
  unfold Tournament.record_round_robin_result.
  by destruct (Tournament.round_robin_matches t !! i).
Qed.

Lemma record_round_robin_lookup t i r j m :
  Tournament.round_robin_matches t !! j = Some m →
  ∃ m1, Tournament.round_robin_matches
          (Tournament.record_round_robin_result t i r).2 !! j = Some m1
        ∧ (j ≠ i → m1 = m) ∧ (j = i → Match.is_completed m1 = true).
Proof.
  intros Hj. rewrite record_round_robin_matches.
  destruct (decide (j = i)) as [-> | Hne].
  - rewrite Hj. eexists. split.
    + apply list_lookup_insert_eq. by eapply lookup_lt_Some.
    + split; [congruence | done].
  - destruct (Tournament.round_robin_matches t !! i).
    + rewrite list_lookup_insert_ne by done.
      exists m. split_and!; [done | done | congruence].
    + exists m. split_and!; [done | done | congruence].
Qed.

(** The loop over the unplayed matches fills in the matches it is given
    and leaves the others alone. *)
Lemma simulate_round_robin_lookup self remaining t rng j m :
  Tournament.round_robin_matches t !! j = Some m →
  ∃ m', Tournament.round_robin_matches
          (simulate_round_robin self t remaining rng).1.2 !! j = Some m'
        ∧ (j ∉ remaining.*1 → m' = m)
        ∧ ((simulate_round_robin self t remaining rng).1.1 = Ok () →
           j ∈ remaining.*1 → Match.is_completed m' = true).
Proof.
  revert t rng m. induction remaining as [|[i mi] rest IH]; intros t rng m Hj.
  - exists m. split_and!; [done | done |]. intros _ Hin.
    by apply elem_of_nil in Hin.
  - cbn [simulate_round_robin].
    destruct (record_round_robin_lookup t i (simulate_match self mi rng).1 j m Hj)
      as (m1 & Hm1 & Hother & Hsame).
    destruct (Tournament.record_round_robin_result t i
                (simulate_match self mi rng).1).1 eqn:Hrec.
    + destruct (IH _ (simulate_match self mi rng).2 m1 Hm1)
        as (m' & Hm' & Hrest & Hdone).
      exists m'. split; [done |]. rewrite fmap_cons. cbn [fst]. split.
      * rewrite not_elem_of_cons. intros [Hne Hnin].
        rewrite Hrest by done. by apply Hother.
      * intros Hok Hin. destruct (decide (j ∈ rest.*1)) as [Hjr | Hjr].
        -- by apply Hdone.
        -- apply elem_of_cons in Hin as [-> | Hin]; [| done].
           rewrite Hrest by done. by apply Hsame.
    + cbn [fst snd]. exists m1. split; [done |]. split; [| done].
      rewrite fmap_cons, not_elem_of_cons. intros [Hne _]. by apply Hother.
Qed.

Lemma simulate_round_robin_length self remaining t rng :
  length (Tournament.round_robin_matches
            (simulate_round_robin self t remaining rng).1.2)
  = length (Tournament.round_robin_matches t).
Proof.
  revert t rng. induction remaining as [|[i mi] rest IH]; intros t rng; [done |].
  cbn [simulate_round_robin].
  assert (length (Tournament.round_robin_matches
                    (Tournament.record_round_robin_result t i
                       (simulate_match self mi rng).1).2)
          = length (Tournament.round_robin_matches t)) as Hlen.
  { rewrite record_round_robin_matches.
    destruct (_ !! i); [apply length_insert | done]. }
  destruct (Tournament.record_round_robin_result t i _).1;
    cbn [fst snd]; [by rewrite IH | done].
Qed.

Lemma remaining_round_robin_indices t j :
  j ∈ (remaining_round_robin t).*1
  ↔ ∃ m, Tournament.round_robin_matches t !! j = Some m
         ∧ Match.is_completed m = false.
Proof.
  unfold remaining_round_robin. rewrite list_elem_of_fmap. split.
  - intros ([j' m] & -> & Hin). apply list_elem_of_filter in Hin as [Hm Hin].
    apply elem_of_lookup_imap in Hin as (i & m' & [= -> ->] & Hi). eauto.
  - intros (m & Hj & Hm). exists (j, m). split; [done |].
    apply list_elem_of_filter. split; [done |].
    by apply (elem_of_lookup_imap_2 pair).
Qed.

Lemma copy_round_robin_matches t :
  Tournament.round_robin_matches (Tournament.copy t)
  = Tournament.round_robin_matches t.
Proof. unfold Tournament.copy. cbn. by rewrite copy_matches_append. Qed.

(** X25. When the regular season of a trial succeeds, the trial's tournament has no
    unplayed round-robin match left, as many matches as the engine's
    tournament, every result the engine's tournament already had, unchanged,
    and a final order that lists each standing of the trial's ledger once. *)
Theorem regular_season_plays_all (self : t) (seed : Z)
    (final_standings : list TeamStanding.t) (tournament_copy : Tournament.t)
    (rng : rng_state) :
  regular_season self seed = (Ok final_standings, tournament_copy, rng) →
  Tournament.get_remaining_round_robin_matches tournament_copy = []
  ∧ length (Tournament.round_robin_matches tournament_copy)
    = length (Tournament.round_robin_matches (tournament self))
  ∧ (∀ i m, Tournament.round_robin_matches (tournament self) !! i = Some m →
            Match.is_completed m = true →
            Tournament.round_robin_matches tournament_copy !! i = Some m)
  ∧ final_standings ≡ₚ od_values (Tournament.standings tournament_copy).
Proof.
  unfold regular_season.
  pose proof (simulate_round_robin_lookup self
                (remaining_round_robin (Tournament.copy (tournament self)))
                (Tournament.copy (tournament self)) (Random seed)) as Hlookup.
  pose proof (simulate_round_robin_length self
                (remaining_round_robin (Tournament.copy (tournament self)))
                (Tournament.copy (tournament self)) (Random seed)) as Hlen.
  set (rr := simulate_round_robin self (Tournament.copy (tournament self))
               (remaining_round_robin (Tournament.copy (tournament self)))
               (Random seed)) in *.
  rewrite copy_round_robin_matches in Hlen.
  destruct rr.1.1 as [[]|err] eqn:Hok; [| done].
  intros [= <- <- <-].
  split_and!.
  - unfold Tournament.get_remaining_round_robin_matches.
    apply filter_none. intros m' Hm' Hunplayed.
    apply list_elem_of_lookup in Hm' as [j Hj].
    assert (is_Some (Tournament.round_robin_matches
                       (Tournament.copy (tournament self)) !! j)) as [m Hm].
    { apply lookup_lt_is_Some. rewrite copy_round_robin_matches, <- Hlen.
      by eapply lookup_lt_Some. }
    destruct (Hlookup j m Hm) as (m'' & Hm'' & Hrest & Hdone).
    rewrite Hj in Hm''. injection Hm'' as <-.
    destruct (decide (j ∈ (remaining_round_robin
                             (Tournament.copy (tournament self))).*1))
      as [Hin | Hnin].
    + rewrite Hdone in Hunplayed by done. done.
    + rewrite (Hrest Hnin) in Hunplayed. apply Hnin.
      apply remaining_round_robin_indices. eauto.
  - done.
  - intros i m Hi Hm. rewrite <- copy_round_robin_matches in Hi.
    destruct (Hlookup i m Hi) as (m' & Hm' & Hrest & _).
    rewrite Hm'. f_equal. apply Hrest.
    rewrite remaining_round_robin_indices. intros (m0 & Hm0 & Hun). congruence.
  - apply resolve_standings_perm.
Qed.
End season.

Lemma regular_season_plays_all_witness :
  let self := sample_engine (WinRateMatrix.uniform (1 # 2)) in
  let rs := SimulationEngine.regular_season self 1 in
  Tournament.get_remaining_round_robin_matches rs.1.2 = []
  ∧ length (Tournament.round_robin_matches rs.1.2)
    = length (Tournament.round_robin_matches (SimulationEngine.tournament self))
  ∧ (∀ i m, Tournament.round_robin_matches (SimulationEngine.tournament self) !! i
            = Some m →
            Match.is_completed m = true →
            Tournament.round_robin_matches rs.1.2 !! i = Some m)
  ∧ returned [] rs.1.1 ≡ₚ od_values (Tournament.standings rs.1.2).
Proof.
  intros self rs.
  apply (regular_season_plays_all self 1 (returned [] rs.1.1) rs.1.2 rs.2).
  vm_compute. reflexivity.
Defined.

Section trial_tables.
Context `{PyRuntime}.
Import SimulationEngine.

Lemma length_od_set {K V} `{EqDecision K} (k : K) (v : V) (d : odict K V) :
  (length d ≤ length (od_set k v d) ≤ S (length d))%nat.
Proof.
  induction d as [|[k' v'] d IH]; simpl; [lia |].
  case_decide; simpl; lia.
Qed.

Lemma length_od_alter {K V} `{EqDecision K} (f : V → V) (k : K) (d : odict K V) :
  length (od_alter f k d) = length d.
Proof.
  induction d as [|[k' v'] d IH]; simpl; [done |].
  case_decide; simpl; [done | by rewrite IH].
Qed.

Lemma length_standings_copy_acc (acc d : Standings.t) :
  (length acc
   ≤ length (foldl (λ new kv, od_set kv.1 (TeamStanding.copy kv.2) new) acc d)
   ≤ length acc + length d)%nat.
Proof.
  revert acc. induction d as [|[k v] d IH]; intros acc; simpl; [lia |].
  specialize (IH (od_set k (TeamStanding.copy v) acc)).
  pose proof (length_od_set k (TeamStanding.copy v) acc). lia.
Qed.

(** A copied ledger is no longer than the original, and not empty unless
    the original is. *)
Lemma length_tournament_copy (t : Tournament.t) :
  (0 < length (Tournament.standings t))%nat →
  (0 < length (Tournament.standings (Tournament.copy t))
   ≤ length (Tournament.standings t))%nat.
Proof.
  intros Hpos. unfold Tournament.copy, Tournament.init, Standings.copy,
    Standings.len.
  cbn [Tournament.standings].
  pose proof (length_standings_copy_acc Standings.empty (Tournament.standings t))
    as [_ Hle].
  assert (0 < length (foldl (λ new kv, od_set kv.1 (TeamStanding.copy kv.2) new)
                        Standings.empty (Tournament.standings t)))%nat
    as Hpos'.
  { destruct (Tournament.standings t) as [|[k v] d]; [simpl in Hpos; lia |].
    simpl.
    pose proof (length_standings_copy_acc
                  (od_set k (TeamStanding.copy v) Standings.empty) d) as [Hge _].
    simpl in Hge. lia. }
  rewrite bool_decide_eq_false_2 by lia. simpl in Hle. lia.
Qed.

Lemma record_round_robin_standings t i r :
  length (Tournament.standings (Tournament.record_round_robin_result t i r).2)
  = length (Tournament.standings t)
  ∧ ∀ err, (Tournament.record_round_robin_result t i r).1 = Raise err →
           err = ValueError "Both teams must be in standings".
Proof.
  unfold Tournament.record_round_robin_result, Standings.record_match_result.
  destruct (Tournament.round_robin_matches t !! i); [| done].
  cbn [fst snd Tournament.standings].
  destruct (od_get (Team.id (MatchResult.winner r)) (Tournament.standings t));
    [| split; [done | by intros err [= <-]]].
  destruct (od_get (Team.id (MatchResult.loser r)) (Tournament.standings t));
    [| split; [done | by intros err [= <-]]].
  cbn [fst snd]. by rewrite !length_od_alter.
Qed.

Lemma simulate_round_robin_standings self remaining t rng :
  length (Tournament.standings (simulate_round_robin self t remaining rng).1.2)
  = length (Tournament.standings t)
  ∧ ∀ err, (simulate_round_robin self t remaining rng).1.1 = Raise err →
           err = ValueError "Both teams must be in standings".
Proof.
  revert t rng. induction remaining as [|[i mi] rest IH]; intros t rng; [done |].
  cbn [simulate_round_robin].
  destruct (record_round_robin_standings t i (simulate_match self mi rng).1)
    as [Hlen Herr].
  destruct (Tournament.record_round_robin_result t i _).1 as [[]|err'] eqn:Hrec.
  - destruct (IH (Tournament.record_round_robin_result t i
                    (simulate_match self mi rng).1).2
                 (simulate_match self mi rng).2) as [IHlen IHerr].
    split; [congruence | done].
  - cbn [fst snd]. split; [done |]. intros err [= <-]. by apply Herr.
Qed.

(** X26. On an engine whose tournament has between one and seven standings
    [run_single_simulation] cannot succeed: it raises ValueError, either the
    bracket's (need at least 8 teams) or the ledger's (both teams must be in
    standings), and uses no entropy. *)
Theorem trial_needs_8_teams (self : t) (seed : Z) (e : entropy) :
  (0 < length (Tournament.standings (tournament self)) < 8)%nat →
  ∃ err, run_single_simulation self seed e = (Raise err, e)
         ∧ (err = ValueError "Need at least 8 teams for playoffs"
            ∨ err = ValueError "Both teams must be in standings").
Proof.
  intros [Hpos Hlt].
  pose proof (length_tournament_copy (tournament self) Hpos) as Hcopy.
  destruct (simulate_round_robin_standings self
              (remaining_round_robin (Tournament.copy (tournament self)))
              (Tournament.copy (tournament self)) (Random seed))
    as [Hlen Herr].
  unfold run_single_simulation, regular_season.
  set (rr := simulate_round_robin self (Tournament.copy (tournament self))
               (remaining_round_robin (Tournament.copy (tournament self)))
               (Random seed)) in *.
  destruct rr.1.1 as [[]|err] eqn:Hrr; cbn [fst snd].
  - unfold playoffs, Tournament.create_playoff_bracket.
    rewrite bool_decide_eq_true_2.
    + cbn [fst snd]. eauto.
    + rewrite length_take, resolve_standings_perm.
      unfold od_values. rewrite length_fmap. lia.
  - exists err. split; [done |]. right. by apply Herr.
Qed.

Lemma rank_table_other (g : nat → Z) (l : list TeamStanding.t)
    (d : gmap string Z) (n : string) :
  n ∉ (λ s, Team.name (TeamStanding.team s)) <$> l →
  foldl (λ d (rs : Z * TeamStanding.t),
           <[Team.name (TeamStanding.team rs.2) := rs.1]> d)
        d (imap (λ i x, (g i, x)) l) !! n
  = d !! n.
Proof.
  revert g d. induction l as [|x l IH]; intros g d Hn; [done |].
  rewrite fmap_cons, not_elem_of_cons in Hn. destruct Hn as [Hx Hl].
  rewrite imap_cons. cbn [foldl].
  rewrite (IH (g ∘ S)) by done. cbn [fst snd].
  by rewrite lookup_insert_ne.
Qed.

(** The table an [enumerate] loop builds over standings with pairwise
    different names. *)
Lemma rank_table_own (g : nat → Z) (l : list TeamStanding.t)
    (d : gmap string Z) (i : nat) (s : TeamStanding.t) :
  NoDup ((λ s, Team.name (TeamStanding.team s)) <$> l) → l !! i = Some s →
  foldl (λ d (rs : Z * TeamStanding.t),
           <[Team.name (TeamStanding.team rs.2) := rs.1]> d)
        d (imap (λ i x, (g i, x)) l) !! Team.name (TeamStanding.team s)
  = Some (g i).
Proof.
  revert g d i. induction l as [|x l IH]; intros g d i Hnd Hi; [done |].
  rewrite fmap_cons in Hnd. apply NoDup_cons in Hnd as [Hx Hnd].
  rewrite imap_cons. cbn [foldl]. destruct i as [|i].
  - injection Hi as ->. rewrite (rank_table_other (g ∘ S)) by done.
    cbn [fst snd]. by rewrite lookup_insert_eq.
  - by rewrite (IH (g ∘ S) _ i).
Qed.

Lemma name_in_take (l : list TeamStanding.t) (k i : nat) (s : TeamStanding.t) :
  NoDup ((λ s, Team.name (TeamStanding.team s)) <$> l) → l !! i = Some s →
  Team.name (TeamStanding.team s)
    ∈ (λ s, Team.name (TeamStanding.team s)) <$> take k l
  ↔ (i < k)%nat.
Proof.
  intros Hnd Hi. split.
  - intros Hin. apply list_elem_of_fmap in Hin as (s' & Hname & Hin).
    apply list_elem_of_lookup in Hin as [j Hj].
    apply lookup_take_Some in Hj as [Hj Hjk].
    assert (i = j); [| lia].
    eapply (NoDup_lookup _ i j _ Hnd); rewrite list_lookup_fmap.
    + by rewrite Hi.
    + rewrite Hj. simpl. by rewrite Hname.
  - intros Hik. apply list_elem_of_fmap. exists s. split; [done |].
    apply (list_elem_of_lookup_2 _ i). by rewrite lookup_take_lt.
Qed.

(** X27. In the outcome of a successful trial whose ranked teams have pairwise
    different names, the team ranked at (0-based) index [i] has
    [regular_season_rank] [i + 1]; it has [playoff_seed] [i + 1] and is in
    [made_playoffs] when [i < 8], and has no seed and is not in
    [made_playoffs] otherwise. *)
Theorem seeds_are_ranks (self : t) (seed : Z) (e e' : entropy)
    (outcome : SimulationOutcome.t) (final_standings : list TeamStanding.t)
    (tournament_copy : Tournament.t) (rng : rng_state) :
  run_single_simulation self seed e = (Ok outcome, e') →
  regular_season self seed = (Ok final_standings, tournament_copy, rng) →
  NoDup ((λ s, Team.name (TeamStanding.team s)) <$> final_standings) →
  ∀ i s, final_standings !! i = Some s →
    SimulationOutcome.regular_season_rank outcome !! Team.name (TeamStanding.team s)
    = Some (Z.of_nat i + 1)
    ∧ SimulationOutcome.playoff_seed outcome !! Team.name (TeamStanding.team s)
      = (if decide (i < 8)%nat then Some (Z.of_nat i + 1) else None)
    ∧ (Team.name (TeamStanding.team s) ∈ SimulationOutcome.made_playoffs outcome
       ↔ (i < 8)%nat).
Proof.
  intros Hrun Hrs Hnd i s Hi. revert Hrun.
  unfold run_single_simulation. rewrite Hrs. cbn [fst snd].
  destruct (playoffs self tournament_copy final_standings rng e)
    as [[bracket | err] e2]; cbn [fst snd]; [| done].
  intros [= <- _].
  cbn [SimulationOutcome.regular_season_rank SimulationOutcome.playoff_seed
       SimulationOutcome.made_playoffs].
  unfold enumerate1.
  assert (NoDup ((λ s, Team.name (TeamStanding.team s)) <$> take 8 final_standings))
    as Hnd8.
  { rewrite fmap_take. eapply sublist_NoDup; [exact Hnd | apply sublist_take]. }
  split_and!.
  - by apply (rank_table_own (λ i, Z.of_nat i + 1)).
  - case_decide as Hi8.
    + apply (rank_table_own (λ i, Z.of_nat i + 1)); [done |].
      by rewrite lookup_take_lt.
    + rewrite (rank_table_other (λ i, Z.of_nat i + 1)); [done |].
      by rewrite (name_in_take _ 8 i s Hnd Hi).
  - rewrite elem_of_list_to_set. by apply name_in_take.
Qed.
End trial_tables.

Lemma trial_needs_8_teams_witness :
  ∃ err,
    SimulationEngine.run_single_simulation
      (SimulationEngine.init
         (Tournament.create_new (take 3 sample_teams) sample_entropy).1
         (WinRateMatrix.uniform (1 # 2))
         (Some (SimulationConfig.mk 3 (Some 42))) sample_entropy).1
      1 sample_entropy
    = (Raise err, sample_entropy)
    ∧ (err = ValueError "Need at least 8 teams for playoffs"
       ∨ err = ValueError "Both teams must be in standings").
Proof.
  apply (trial_needs_8_teams
           (SimulationEngine.init
              (Tournament.create_new (take 3 sample_teams) sample_entropy).1
              (WinRateMatrix.uniform (1 # 2))
              (Some (SimulationConfig.mk 3 (Some 42))) sample_entropy).1
           1 sample_entropy).
  vm_compute. lia.
Defined.

Lemma seeds_are_ranks_witness :
  let self := sample_engine (WinRateMatrix.uniform (1 # 2)) in
  let rs := SimulationEngine.regular_season self 1 in
  let final_standings := returned [] rs.1.1 in
  let trial := SimulationEngine.run_single_simulation self 1 sample_entropy in
  let outcome := returned (SimulationOutcome.mk ∅ ∅ ∅ ∅ None) trial.1 in
  ∃ s, final_standings !! 8%nat = Some s
       ∧ SimulationOutcome.regular_season_rank outcome
           !! Team.name (TeamStanding.team s)
         = Some (Z.of_nat 8 + 1)
       ∧ SimulationOutcome.playoff_seed outcome !! Team.name (TeamStanding.team s)
         = (if decide (8 < 8)%nat then Some (Z.of_nat 8 + 1) else None)
       ∧ (Team.name (TeamStanding.team s) ∈ SimulationOutcome.made_playoffs outcome
          ↔ (8 < 8)%nat).
Proof.
  intros self rs final_standings trial outcome.
  assert (∃ s, final_standings !! 8%nat = Some s) as [s Hs]
    by (vm_compute; eexists; reflexivity).
  exists s. split; [exact Hs |].
  apply (seeds_are_ranks self 1 sample_entropy trial.2 outcome final_standings
           rs.1.2 rs.2).
  - vm_compute. reflexivity.
  - vm_compute. reflexivity.
  - apply (bool_decide_unpack _). vm_compute. reflexivity.
  - exact Hs.
Defined.

(** ** Aggregation *)

Section aggregation.
Context `{PyRuntime}.
Import SimulationEngine.

Lemma lookup_incr {K} `{Countable K} (x k : K) (c : gmap K Z) :
  incr x c !! k = if decide (k = x) then Some (default 0 (c !! k) + 1) else c !! k.
Proof.
  unfold incr. case_decide as Hk.
  - subst. by rewrite lookup_insert_eq.
  - by rewrite lookup_insert_ne.
Qed.

Lemma set_fold_incr (c : gmap string Z) (X : gset string) (k : string) :
  set_fold incr c X !! k
  = if decide (k ∈ X) then Some (default 0 (c !! k) + 1) else c !! k.
Proof.
  revert k.
  refine (set_fold_ind_L
            (λ r Y, ∀ k, r !! k = if decide (k ∈ Y)
                                  then Some (default 0 (c !! k) + 1) else c !! k)
            incr c _ _ X).
  - intros k. rewrite decide_False; [done | apply not_elem_of_empty].
  - intros x Y r Hx IH k. rewrite lookup_incr, IH.
    destruct (decide (k = x)) as [-> | Hne].
    + rewrite (decide_False (P := x ∈ Y)) by done.
      rewrite decide_True; [done |]. apply elem_of_union_l. by apply elem_of_singleton.
    + destruct (decide (k ∈ Y)) as [HY | HY].
      * rewrite decide_True; [done |]. by apply elem_of_union_r.
      * rewrite decide_False; [done |].
        rewrite elem_of_union, elem_of_singleton. tauto.
Qed.

Lemma counted_succ (n : nat) : Some (default 0 (counted n) + 1) = counted (S n).
Proof.
  unfold counted. destruct n as [|n]; [done |].
  rewrite !decide_False by done. simpl default. f_equal. lia.
Qed.

Lemma playoff_counts_spec (outcomes : list SimulationOutcome.t)
    (acc : gmap string Z) (n0 : nat) (name : string) :
  acc !! name = counted n0 →
  foldl (λ c o, set_fold incr c (SimulationOutcome.made_playoffs o)) acc outcomes
    !! name
  = counted (n0 + times_qualified name outcomes).
Proof.
  revert acc n0. induction outcomes as [|o outcomes IH]; intros acc n0 Hacc.
  - unfold times_qualified, count_if. simpl. by rewrite Nat.add_0_r.
  - cbn [foldl]. unfold times_qualified in *. rewrite count_if_cons.
    case_bool_decide as Hin.
    + rewrite (IH _ (S n0)).
      * f_equal. lia.
      * rewrite set_fold_incr, decide_True by done.
        rewrite Hacc. apply counted_succ.
    + rewrite (IH _ n0); [done |].
      by rewrite set_fold_incr, decide_False.
Qed.

Lemma championship_counts_spec (outcomes : list SimulationOutcome.t)
    (acc : gmap string Z) (n0 : nat) (name : string) :
  name ≠ EmptyString →
  acc !! name = counted n0 →
  foldl (λ c o,
           match SimulationOutcome.champion o with
           | Some name => if bool_decide (name = EmptyString) then c else incr name c
           | None => c
           end) acc outcomes !! name
  = counted (n0 + times_champion name outcomes).
Proof.
  intros Hname.
  revert acc n0. induction outcomes as [|o outcomes IH]; intros acc n0 Hacc.
  - unfold times_champion, count_if. simpl. by rewrite Nat.add_0_r.
  - cbn [foldl]. unfold times_champion in *. rewrite count_if_cons.
    destruct (SimulationOutcome.champion o) as [c|] eqn:Hc.
    + destruct (decide (c = name)) as [-> | Hne].
      * rewrite bool_decide_eq_false_2 by done.
        rewrite bool_decide_eq_true_2 by done.
        rewrite (IH _ (S n0)).
        -- f_equal. lia.
        -- rewrite lookup_incr, decide_True by done.
           rewrite Hacc. apply counted_succ.
      * rewrite (bool_decide_eq_false_2 (Some c = Some name)) by congruence.
        rewrite (IH _ n0); [done |].
        case_bool_decide; [done |].
        by rewrite lookup_incr, decide_False.
    + rewrite bool_decide_eq_false_2 by done. by rewrite (IH _ n0).
Qed.

Lemma championship_counts_unnamed (outcomes : list SimulationOutcome.t)
    (acc : gmap string Z) :
  acc !! EmptyString = None →
  foldl (λ c o,
           match SimulationOutcome.champion o with
           | Some name => if bool_decide (name = EmptyString) then c else incr name c
           | None => c
           end) acc outcomes !! EmptyString
  = None.
Proof.
  revert acc. induction outcomes as [|o outcomes IH]; intros acc Hacc; [done |].
  cbn [foldl]. apply IH.
  destruct (SimulationOutcome.champion o) as [c|]; [| done].
  case_bool_decide as Hc; [done |].
  by rewrite lookup_incr, decide_False.
Qed.

Lemma count_if_le {A} (P : A → bool) (l : list A) : (count_if P l ≤ length l)%nat.
Proof. unfold count_if. apply length_filter. Qed.

Lemma frequency_unit (count n : nat) :
  (0 < count ≤ n)%nat → (0 < frequency count n)%Q ∧ (frequency count n <= 1)%Q.
Proof.
  intros [Hpos Hle]. unfold frequency.
  assert (0 < inject_Z (Z.of_nat n))%Q as Hn.
  { rewrite <- (Zlt_Qlt 0). lia. }
  split.
  - apply Qlt_shift_div_l; [done |]. rewrite Qmult_0_l.
    rewrite <- (Zlt_Qlt 0). lia.
  - apply Qle_shift_div_r; [done |]. rewrite Qmult_1_l.
    rewrite <- Zle_Qle. lia.
Qed.

(** X28. [_aggregate_results] gives a team the playoff probability (number of
    outcomes in which it made the playoffs) / (number of outcomes), has no
    entry for a team that never made them, and every probability it lists is
    greater than 0 and at most 1. *)
Theorem playoff_probability_is_frequency (outcomes : list SimulationOutcome.t)
    (name : string) :
  SimulationResults.playoff_probability (_aggregate_results outcomes) !! name
  = (if decide (times_qualified name outcomes = 0%nat) then None
     else Some (frequency (times_qualified name outcomes) (length outcomes)))
  ∧ ∀ p, SimulationResults.playoff_probability (_aggregate_results outcomes)
           !! name = Some p →
         (0 < p)%Q ∧ (p <= 1)%Q.
Proof.
  assert (SimulationResults.playoff_probability (_aggregate_results outcomes)
            !! name
          = (if decide (times_qualified name outcomes = 0%nat) then None
             else Some (frequency (times_qualified name outcomes)
                          (length outcomes)))) as Hlookup.
  { unfold _aggregate_results, to_probabilities.
    cbn [SimulationResults.playoff_probability].
    rewrite lookup_fmap.
    rewrite (playoff_counts_spec outcomes ∅ 0 name) by apply lookup_empty.
    unfold counted. simpl. by case_decide. }
  split; [exact Hlookup |].
  intros p. rewrite Hlookup. case_decide as Hzero; [done |].
  intros [= <-]. apply frequency_unit.
  pose proof (count_if_le
                (λ o, bool_decide (name ∈ SimulationOutcome.made_playoffs o))
                outcomes).
  unfold times_qualified in *. lia.
Qed.

(** X29. [_aggregate_results] gives a team the championship probability (number of
    outcomes it is the champion of) / (number of outcomes); it has no entry
    for a team that never won, nor for the empty name, which the truthiness
    test on [outcome.champion] skips; every probability it lists is greater
    than 0 and at most 1. *)
Theorem championship_probability_is_frequency
    (outcomes : list SimulationOutcome.t) (name : string) :
  SimulationResults.championship_probability (_aggregate_results outcomes) !! name
  = (if decide (name = EmptyString ∨ times_champion name outcomes = 0%nat)
     then None
     else Some (frequency (times_champion name outcomes) (length outcomes)))
  ∧ ∀ p, SimulationResults.championship_probability (_aggregate_results outcomes)
           !! name = Some p →
         (0 < p)%Q ∧ (p <= 1)%Q.
Proof.
  assert (SimulationResults.championship_probability (_aggregate_results outcomes)
            !! name
          = (if decide (name = EmptyString ∨ times_champion name outcomes = 0%nat)
             then None
             else Some (frequency (times_champion name outcomes)
                          (length outcomes)))) as Hlookup.
  { unfold _aggregate_results, to_probabilities.
    cbn [SimulationResults.championship_probability].
    rewrite lookup_fmap.
    destruct (decide (name = EmptyString)) as [-> | Hname].
    - rewrite championship_counts_unnamed by apply lookup_empty.
      rewrite decide_True by auto. done.
    - rewrite (championship_counts_spec outcomes ∅ 0 name) by
        (done || apply lookup_empty).
      unfold counted. simpl.
      destruct (decide (times_champion name outcomes = 0%nat)) as [Hz | Hz].
      + rewrite decide_True by auto. done.
      + rewrite decide_False by tauto. done. }
  split; [exact Hlookup |].
  intros p. rewrite Hlookup. case_decide as Hzero; [done |].
  intros [= <-]. apply frequency_unit.
  pose proof (count_if_le
                (λ o, bool_decide (SimulationOutcome.champion o = Some name))
                outcomes).
  unfold times_champion in *.
  assert (count_if (λ o, bool_decide (SimulationOutcome.champion o = Some name))
            outcomes ≠ 0%nat) by tauto.
  lia.
Qed.

Lemma length_draw_seeds n rng : length (draw_seeds n rng).1 = n.
Proof.
  revert rng. induction n as [|n IH]; intros rng; [done |].
  cbn [draw_seeds fst length]. by rewrite IH.
Qed.

Lemma length_run_trials self seeds e outcomes :
  (run_trials self seeds e).1 = Ok outcomes → length outcomes = length seeds.
Proof.
  revert e outcomes. induction seeds as [|s seeds IH]; intros e outcomes.
  - by intros [= <-].
  - cbn [run_trials].
    destruct (run_single_simulation self s e).1 as [o | err]; [| done].
    destruct (run_trials self seeds _).1 as [os | err] eqn:Hrest; [| done].
    cbn [fst]. intros [= <-]. cbn [length]. f_equal. by eapply IH.
Qed.

(** X30. When [run] succeeds its result's [num_simulations] is the configured
    number, or 0 for a negative one; it can only raise when that number is
    positive; and for a number of 0 or less it returns five empty tables, the
    engine and the entropy untouched, without dividing by zero. *)
Theorem run_counts_trials (self : t) (e : entropy) :
  match (run self e).1.1 with
  | Ok results =>
      SimulationResults.num_simulations results
      = Z.max 0 (SimulationConfig.num_simulations (config self))
  | Raise _ => 0 < SimulationConfig.num_simulations (config self)
  end
  ∧ (SimulationConfig.num_simulations (config self) <= 0 →
     run self e = (Ok (SimulationResults.mk 0 ∅ ∅ ∅ ∅ ∅), self, e)).
Proof.
  unfold run.
  pose proof (length_draw_seeds
                (Z.to_nat (SimulationConfig.num_simulations (config self)))
                (_rng self)) as Hseeds.
  split.
  - set (sd := draw_seeds _ _) in *.
    set (self' := mk _ _ _ sd.2).
    destruct (run_trials self' sd.1 e).1 as [outcomes | err] eqn:Hrun;
      cbn [fst snd].
    + apply length_run_trials in Hrun.
      unfold _aggregate_results. cbn [SimulationResults.num_simulations]. lia.
    + destruct (decide (0 < SimulationConfig.num_simulations (config self)))
        as [| Hn]; [done |].
      exfalso. destruct sd.1; [done | simpl in Hseeds; lia].
  - intros Hn.
    replace (Z.to_nat (SimulationConfig.num_simulations (config self)))
      with 0%nat by lia.
    cbn [draw_seeds run_trials fst snd]. unfold _aggregate_results.
    cbn [foldl length]. unfold to_probabilities, to_distributions.
    rewrite !fmap_empty. by destruct self.
Qed.
End aggregation.
